(** * Validation scripts of the wiki repository: a shallow embedding

    The repository ships three scripts, [scripts/validate_config.py],
    [scripts/validate_content.py] and [scripts/validate_env.py].  Each is a
    linear scan of a text (or of the installed tools) with regular
    expressions, producing a list of findings and a process exit code.

    The embedding follows the scripts function by function:
    - [Py]      the builtins the scripts call: [str], [int], [pathlib],
                calls that return or raise;
    - [Re]      the fragment of Python's [re] module the patterns use, as a
                backtracking matcher with the priorities of [re];
    - [Config]  [validate_config.py];
    - [Content] [validate_content.py];
    - [Env]     [validate_env.py].

    A Python [str] is a list of characters.  The characters are the code
    points below 256; the classes [\s] and [\d] and [str.strip] are the
    Unicode ones restricted to that range.  Calls of [print] have no effect on
    findings or exit codes and are left out.  An exception that no [try]
    catches ends the process with status 1 before the report is printed:
    [main] of the first two scripts gives the validator object as the
    process leaves it and the exit status, and [uncaught] gives the
    exception. *)

From Stdlib Require Import Ascii String DecimalString.
From Stdlib Require Import Bool Arith NArith ZArith Lia List Sorted.
Import ListNotations.

Open Scope string_scope.
Open Scope list_scope.

(* ================================================================= *)
(** ** Python [str] *)

Module Py.

Definition str := list ascii.

Definition chars (s : string) : list ascii := list_ascii_of_string s.

Definition NL : ascii := "010"%char.
Definition DQUOTE : ascii := "034"%char.
Definition SQUOTE : ascii := "039"%char.

(** [str.isspace] on one character, which is also the class [\s]. *)
Definition isspace (c : ascii) : bool :=
  let n := nat_of_ascii c in
  (((9 <=? n) && (n <=? 13)) || ((28 <=? n) && (n <=? 32))
   || (n =? 133) || (n =? 160))%nat.

(** The class [\d]. *)
Definition isdigit (c : ascii) : bool :=
  let n := nat_of_ascii c in ((48 <=? n) && (n <=? 57))%nat.

Fixpoint lstrip (s : str) : str :=
  match s with
  | c :: tl => if isspace c then lstrip tl else s
  | [] => []
  end.

Definition rstrip (s : str) : str := rev (lstrip (rev s)).

(** [s.strip()] *)
Definition strip (s : str) : str := rstrip (lstrip s).

(** [s.startswith(p)] *)
Fixpoint startswith (p s : str) : bool :=
  match p, s with
  | [], _ => true
  | a :: p', b :: s' => Ascii.eqb a b && startswith p' s'
  | _ :: _, [] => false
  end.

(** [a == b] *)
Fixpoint str_eqb (a b : str) : bool :=
  match a, b with
  | [], [] => true
  | x :: a', y :: b' => Ascii.eqb x y && str_eqb a' b'
  | _, _ => false
  end.

(** [sub in s] *)
Fixpoint contains (sub s : str) : bool :=
  startswith sub s ||
  match s with
  | [] => false
  | _ :: tl => contains sub tl
  end.

(** [s.split('\n')]: the pieces between newlines, never an empty list. *)
Fixpoint split_nl (s : str) : list str :=
  match s with
  | [] => [[]]
  | c :: tl =>
      if Ascii.eqb c NL then [] :: split_nl tl
      else match split_nl tl with
           | l :: ls => (c :: l) :: ls
           | [] => [[c]]
           end
  end.

(** [enumerate(xs, start)] *)
Fixpoint enumerate {A} (start : nat) (xs : list A) : list (nat * A) :=
  match xs with
  | [] => []
  | x :: tl => (start, x) :: enumerate (S start) tl
  end.

(** [s[:n]] *)
Definition slice_to (n : nat) (s : str) : str := firstn n s.

(** [s[n:]] *)
Definition slice_from (n : nat) (s : str) : str := skipn n s.

(** [s.lower()] *)
Definition lower_char (c : ascii) : ascii :=
  let n := nat_of_ascii c in
  if (((65 <=? n) && (n <=? 90))
      || ((192 <=? n) && (n <=? 222) && negb (n =? 215)))%nat
  then ascii_of_nat (n + 32) else c.

Definition lower (s : str) : str := map lower_char s.

(** [str(n)] for a non-negative [int]. *)
Definition str_of_nat (n : nat) : str :=
  chars (NilEmpty.string_of_uint (Nat.to_uint n)).

Definition str_of_N (n : N) : str :=
  chars (NilEmpty.string_of_uint (N.to_uint n)).

(** The value of a string of decimal digits. *)
Definition digit_val (c : ascii) : N := N.of_nat (nat_of_ascii c - 48).

Definition int_of_digits (s : str) : N :=
  fold_left (fun acc c => (10 * acc + digit_val c)%N) s 0%N.

(** An exception, by its message (the text of [f"{e}"]). *)
Definition exn := str.

(** A call that returns or raises. *)
Inductive result (A : Type) : Type :=
| Ok (a : A)
| Raise (e : exn).

Arguments Ok {A} a.
Arguments Raise {A} e.

Definition bind {A B} (m : result A) (f : A -> result B) : result B :=
  match m with
  | Ok a => f a
  | Raise e => Raise e
  end.

(** [try: body except Exception as e: handler(e)] *)
Definition try_except {A} (body : result A) (handler : exn -> result A)
  : result A :=
  match body with
  | Ok a => Ok a
  | Raise e => handler e
  end.

(** [int(s)] for a string of decimal digits: the conversion raises
    [ValueError] on more than [sys.get_int_max_str_digits()] digits, 4300
    unless the interpreter is told otherwise; leading zeros count. *)
Definition MAX_STR_DIGITS : N := 4300.

(** The text of the [ValueError] for a string of [n] digits. *)
Definition too_many_digits (n : nat) : exn :=
  chars "Exceeds the limit (4300 digits) for integer string conversion: value has "
  ++ str_of_nat n
  ++ chars " digits; use sys.set_int_max_str_digits() to increase the limit".

Definition int (s : str) : result N :=
  if (MAX_STR_DIGITS <? N.of_nat (length s))%N
  then Raise (too_many_digits (length s))
  else Ok (int_of_digits s).

(** The digits are few enough for [int]. *)
Definition within_limit (d : str) : Prop :=
  (N.of_nat (length d) <= MAX_STR_DIGITS)%N.

(** *** [pathlib], POSIX flavour

    A path is its root ([/], [//] or none) and its parts; a part is never
    empty and never [.].  The scripts build paths with [Path(s)],
    [p.parent] and [p / s], and use them through [str(p)]. *)
Definition SLASH : ascii := "/"%char.

Record PurePath : Type := {
  root : str;
  parts : list str
}.

(** [s.split('/')] *)
Fixpoint split_slash (s : str) : list str :=
  match s with
  | [] => [[]]
  | c :: tl =>
      if Ascii.eqb c SLASH then [] :: split_slash tl
      else match split_slash tl with
           | l :: ls => (c :: l) :: ls
           | [] => [[c]]
           end
  end.

(** [s.lstrip('/')] *)
Fixpoint lstrip_slash (s : str) : str :=
  match s with
  | c :: tl => if Ascii.eqb c SLASH then lstrip_slash tl else s
  | [] => []
  end.

(** The parts a text contributes: its pieces between slashes that are
    neither empty nor [.]. *)
Definition is_part (x : str) : bool :=
  match x with
  | [] => false
  | [c] => negb (Ascii.eqb c "."%char)
  | _ => true
  end.

(** [Path(s)]: exactly two leading slashes are kept as the root [//], any
    other number of them is the root [/]. *)
Definition Path (s : str) : PurePath :=
  let stripped := lstrip_slash s in
  let slashes := length s - length stripped in
  {| root := match slashes with
             | 0 => []
             | 2 => [SLASH; SLASH]
             | _ => [SLASH]
             end;
     parts := filter is_part (split_slash stripped) |}.

(** [sep.join(xs)] for the separator [/] *)
Fixpoint join_slash (xs : list str) : str :=
  match xs with
  | [] => []
  | [x] => x
  | x :: tl => x ++ SLASH :: join_slash tl
  end.

(** [str(p)] *)
Definition fspath (p : PurePath) : str :=
  match root p ++ join_slash (parts p) with
  | [] => ["."%char]
  | s => s
  end.

(** [p.parent] *)
Definition parent (p : PurePath) : PurePath :=
  {| root := root p; parts := removelast (parts p) |}.

(** [p / s] *)
Definition joinpath (p : PurePath) (s : str) : PurePath :=
  let q := Path s in
  match root q with
  | [] => {| root := root p; parts := parts p ++ parts q |}
  | _ => q
  end.

(** What the scripts see of the file system, by the text of the path:
    [Path.exists], which answers or raises [OSError] (a name that is too
    long, a directory that may not be searched), [Path.read_text], and the
    listing [Path.rglob("*.md")], as the texts of the paths it yields. *)
Record FS : Type := {
  path_exists : str -> result bool;
  read_text : str -> result str;
  rglob_md : str -> list str
}.

End Py.

Export Py.
Coercion Py.chars : string >-> list.

Notation "x <- m ;; k" := (Py.bind m (fun x => k))
  (at level 61, m at next level, right associativity).
Notation "' p <- m ;; k" := (Py.bind m (fun x => match x with p => k end))
  (at level 61, p pattern, m at next level, right associativity).

(* ================================================================= *)
(** ** The fragment of [re] the scripts use *)

Module Re.

(** The syntax.  [Chr p] is one character of the class [p]; [Star true r]
    is the greedy [r*], [Star false r] the lazy [r*?]; [Grp n r] is the
    [n]-th capturing group; [Bol] and [Eol] are [^] and [$], their flag
    says whether [re.MULTILINE] is set; [Ahead r] is [(?=r)]. *)
Inductive regex : Type :=
| Eps
| Chr (p : ascii -> bool)
| Cat (r1 r2 : regex)
| Alt (r1 r2 : regex)
| Star (greedy : bool) (r : regex)
| Grp (n : nat) (r : regex)
| Bol (multiline : bool)
| Eol (multiline : bool)
| Ahead (r : regex).

(** A position in the subject: the characters already passed, nearest
    first, the characters to come, and the groups captured so far. *)
Record mstate : Type := MState {
  before : str;
  rest : str;
  groups : list (nat * str)
}.

Definition step (c : ascii) (tl : str) (st : mstate) : mstate :=
  {| before := c :: before st; rest := tl; groups := groups st |}.

(** The text between two positions of one scan. *)
Definition span (st st1 : mstate) : str :=
  rev (firstn (length (before st1) - length (before st)) (before st1)).

Definition set_group (n : nat) (s : str) (st : mstate) : mstate :=
  {| before := before st; rest := rest st; groups := (n, s) :: groups st |}.

Definition at_bol (multiline : bool) (st : mstate) : bool :=
  match before st with
  | [] => true
  | c :: _ => multiline && Ascii.eqb c NL
  end.

Definition at_eol (multiline : bool) (st : mstate) : bool :=
  match rest st with
  | [] => true
  | c :: tl => Ascii.eqb c NL && (multiline || match tl with [] => true | _ => false end)
  end.

Definition progress (st st1 : mstate) : bool :=
  (length (rest st1) <? length (rest st))%nat.

(** The loop of a repetition: [body] runs one round, [k] is what follows
    the repetition.  Greedy tries another round first, lazy tries [k]
    first.  A round must consume something; [n] bounds the rounds. *)
Fixpoint star_loop (body : mstate -> (mstate -> option mstate) -> option mstate)
  (greedy : bool) (k : mstate -> option mstate) (n : nat) (st : mstate)
  : option mstate :=
  match n with
  | O => k st
  | S n' =>
      let round :=
        body st (fun st1 => if progress st st1
                            then star_loop body greedy k n' st1 else None) in
      if greedy
      then match round with Some m => Some m | None => k st end
      else match k st with Some m => Some m | None => round end
  end.

(** The matcher: [run r st k] matches [r] at [st] and hands every
    candidate end position to [k], in the order [re] tries them; the first
    one [k] accepts is the result. *)
Fixpoint run (r : regex) (st : mstate) (k : mstate -> option mstate)
  {struct r} : option mstate :=
  match r with
  | Eps => k st
  | Chr p =>
      match rest st with
      | c :: tl => if p c then k (step c tl st) else None
      | [] => None
      end
  | Cat r1 r2 => run r1 st (fun st1 => run r2 st1 k)
  | Alt r1 r2 =>
      match run r1 st k with
      | Some m => Some m
      | None => run r2 st k
      end
  | Star g r1 => star_loop (run r1) g k (S (length (rest st))) st
  | Grp n r1 => run r1 st (fun st1 => k (set_group n (span st st1) st1))
  | Bol ml => if at_bol ml st then k st else None
  | Eol ml => if at_eol ml st then k st else None
  | Ahead r1 =>
      match run r1 st Some with
      | Some _ => k st
      | None => None
      end
  end.

(** Derived forms. *)
Definition Lit (s : str) : regex :=
  fold_right (fun c r => Cat (Chr (Ascii.eqb c)) r) Eps s.

Definition Plus (r : regex) : regex := Cat r (Star true r).

Definition Opt (r : regex) : regex := Alt r Eps.

Fixpoint Upto (n : nat) (r : regex) : regex :=
  match n with
  | O => Eps
  | S n' => Opt (Cat r (Upto n' r))
  end.

Fixpoint Times (n : nat) (r : regex) : regex :=
  match n with
  | O => Eps
  | S n' => Cat r (Times n' r)
  end.

(** [r{lo,hi}], greedy. *)
Definition Repeat (lo hi : nat) (r : regex) : regex :=
  Cat (Times lo r) (Upto (hi - lo) r).

(** [.] without and with [re.DOTALL]. *)
Definition Dot : regex := Chr (fun c => negb (Ascii.eqb c NL)).
Definition DotAll : regex := Chr (fun _ => true).

(** [\s], [\d], one given character, [[^c]]. *)
Definition Space : regex := Chr isspace.
Definition Digit : regex := Chr isdigit.
Definition Ch (c : ascii) : regex := Chr (Ascii.eqb c).
Definition NotCh (c : ascii) : regex := Chr (fun x => negb (Ascii.eqb x c)).

(** A match object: where the match starts and where it ends. *)
Record match_obj : Type := Match {
  m_start : mstate;
  m_end : mstate
}.

(** [m.group(n)] for [n >= 1]; every group of the scripts' patterns takes
    part in every match. *)
Fixpoint lookup_group (n : nat) (gs : list (nat * str)) : str :=
  match gs with
  | [] => []
  | (i, s) :: tl => if Nat.eqb i n then s else lookup_group n tl
  end.

Definition group (n : nat) (m : match_obj) : str :=
  lookup_group n (groups (m_end m)).

(** [re.match]: at the start of the subject only. *)
Definition match_ (r : regex) (s : str) : option match_obj :=
  let st := MState [] s [] in
  match run r st Some with
  | Some e => Some (Match st e)
  | None => None
  end.

(** The scan of [re.search]: the leftmost start at which [r] matches. *)
Fixpoint search_from (r : regex) (bef rst : str) : option match_obj :=
  let st := MState bef rst [] in
  match run r st Some with
  | Some e => Some (Match st e)
  | None =>
      match rst with
      | [] => None
      | c :: tl => search_from r (c :: bef) tl
      end
  end.

Definition search (r : regex) (s : str) : option match_obj :=
  search_from r [] s.

(** [re.finditer]: successive non-overlapping matches.  After an empty
    match the scan moves on by one character. *)
Fixpoint finditer_from (fuel : nat) (r : regex) (bef rst : str)
  : list match_obj :=
  match fuel with
  | O => []
  | S f =>
      match search_from r bef rst with
      | None => []
      | Some m =>
          m :: (if progress (m_start m) (m_end m)
                then finditer_from f r (before (m_end m)) (rest (m_end m))
                else match rest (m_end m) with
                     | [] => []
                     | c :: tl => finditer_from f r (c :: before (m_end m)) tl
                     end)
      end
  end.

Definition finditer (r : regex) (s : str) : list match_obj :=
  finditer_from (S (length s)) r [] s.

(** [re.findall] for a pattern with one group. *)
Definition findall (r : regex) (s : str) : list str :=
  map (group 1) (finditer r s).

(** The position reached from [st] after reading [w], with [post] left. *)
Definition jump (w post : str) (st : mstate) : mstate :=
  MState (rev w ++ before st) post (groups st).

(** A run of characters of the class [p] cannot go on into [post]. *)
Definition class_ends (p : ascii -> bool) (post : str) : Prop :=
  match post with
  | [] => True
  | c :: _ => p c = false
  end.

(** What it means for [r] to match from one position to another,
    whatever the order of the attempts. *)
Inductive matches : regex -> mstate -> mstate -> Prop :=
| M_eps st : matches Eps st st
| M_chr p c tl st :
    rest st = c :: tl -> p c = true -> matches (Chr p) st (step c tl st)
| M_cat r1 r2 st st1 st2 :
    matches r1 st st1 -> matches r2 st1 st2 -> matches (Cat r1 r2) st st2
| M_alt_l r1 r2 st st1 : matches r1 st st1 -> matches (Alt r1 r2) st st1
| M_alt_r r1 r2 st st1 : matches r2 st st1 -> matches (Alt r1 r2) st st1
| M_star_stop g r st : matches (Star g r) st st
| M_star_more g r st st1 st2 :
    matches r st st1 -> progress st st1 = true ->
    matches (Star g r) st1 st2 -> matches (Star g r) st st2
| M_grp n r st st1 :
    matches r st st1 -> matches (Grp n r) st (set_group n (span st st1) st1)
| M_bol ml st : at_bol ml st = true -> matches (Bol ml) st st
| M_eol ml st : at_eol ml st = true -> matches (Eol ml) st st
| M_ahead r st st1 : matches r st st1 -> matches (Ahead r) st st.

(** The number of characters between two positions of one scan. *)
Definition read_len (st st' : mstate) : nat :=
  length (rest st) - length (rest st').

End Re.

(* ================================================================= *)
(** ** Findings *)

Module Findings.

(** The three values of the [severity] field of both dataclasses. *)
Inductive Severity : Type := error | warning | info.

Definition severity_eqb (a b : Severity) : bool :=
  match a, b with
  | error, error | warning, warning | info, info => true
  | _, _ => false
  end.

(** What a report entry offers to the verdict: its severity and whether
    it records a check that passed. *)
Class Finding (F : Type) : Type := {
  finding_severity : F -> Severity;
  finding_passed : F -> bool
}.

(** [severity == "error" and not passed] *)
Definition unmet_error {F} `{Finding F} (f : F) : bool :=
  severity_eqb (finding_severity f) error && negb (finding_passed f).

Definition exit_code (success : bool) : Z := if success then 0%Z else 1%Z.

(** The finding is an unmet requirement. *)
Definition unmet {F} `{Finding F} (f : F) : Prop :=
  finding_severity f = error /\ finding_passed f = false.

Definition has_severity {F} `{Finding F} (s : Severity) (f : F) : bool :=
  severity_eqb (finding_severity f) s.

(** The exit code [code] is the verdict on [report]: 0 exactly when no
    finding is unmet, 1 exactly when one is, and the same code comes out of
    the findings of severity [error] alone. *)
Definition verdict {F} `{Finding F} (report : list F) (code : Z) : Prop :=
  (code = 0%Z <-> forall f, In f report -> ~ unmet f)
  /\ (code = 1%Z <-> exists f, In f report /\ unmet f)
  /\ code = exit_code (negb (existsb unmet_error
                                (filter (has_severity error) report))).

End Findings.

Export Findings.

(* ================================================================= *)
(** ** scripts/validate_config.py *)

Module Config.

Import Re.

Record ValidationResult : Type := {
  passed : bool;
  message : str;
  severity : Severity
}.

#[global] Instance ValidationResult_Finding : Finding ValidationResult :=
  {| finding_severity := severity; finding_passed := passed |}.

(** The validator object. *)
Record ConfigValidator : Type := {
  config_path : str;
  config_content : str;
  results : list ValidationResult
}.

(** [ConfigValidator(config_path)] *)
Definition init (path : str) : ConfigValidator :=
  {| config_path := path; config_content := []; results := [] |}.

(** [self.results.append(r)] *)
Definition append (r : ValidationResult) (v : ConfigValidator)
  : ConfigValidator :=
  {| config_path := config_path v;
     config_content := config_content v;
     results := results v ++ [r] |}.

Definition set_content (text : str) (v : ConfigValidator) : ConfigValidator :=
  {| config_path := config_path v;
     config_content := text;
     results := results v |}.

(** [load_config]: both the test [exists()] and the read are inside the
    [try], so whatever either raises becomes the second finding. *)
Definition load_config (fs : FS) (v : ConfigValidator)
  : bool * ConfigValidator :=
  let failed (e : exn) :=
    (false, append {| passed := false;
                      message := "Failed to read config: " ++ e;
                      severity := error |} v) in
  match path_exists fs (config_path v) with
  | Ok false =>
      (false, append {| passed := false;
                        message := "Configuration file not found: " ++ config_path v;
                        severity := error |} v)
  | Ok true =>
      match read_text fs (config_path v) with
      | Ok text => (true, set_content text v)
      | Raise e => failed e
      end
  | Raise e => failed e
  end.

Definition required_fields : list (str * str) :=
  [ ("baseURL" : str, "Base URL must be defined for proper site generation" : str);
    ("title" : str, "Site title is required for SEO and accessibility" : str);
    ("languageCode" : str, "Language code required for proper HTML lang attribute" : str) ].

(** [rf'^\s*{re.escape(field)}\s*=\s*.+$'] with [re.MULTILINE] *)
Definition required_pattern (field : str) : regex :=
  Cat (Bol true) (Cat (Star true Space) (Cat (Lit field)
  (Cat (Star true Space) (Cat (Ch "=") (Cat (Star true Space)
  (Cat (Plus Dot) (Eol true))))))).

Definition check_required (v : ConfigValidator) (fr : str * str)
  : ConfigValidator :=
  let (field, reason) := fr in
  match search (required_pattern field) (config_content v) with
  | None =>
      append {| passed := false;
                message := "Missing required field '" ++ field ++ "': " ++ reason;
                severity := error |} v
  | Some _ =>
      append {| passed := true;
                message := "Required field '" ++ field ++ "' is present";
                severity := info |} v
  end.

Definition validate_required_fields (v : ConfigValidator) : ConfigValidator :=
  fold_left check_required required_fields v.

Definition validate_security_settings (v : ConfigValidator) : ConfigValidator :=
  let v1 :=
    if contains "unsafe = true" (config_content v) then
      append {| passed := true;
                message := "Unsafe HTML rendering enabled - ensure content is trusted";
                severity := warning |} v
    else v in
  if contains "rel=" (config_content v1) then
    if contains "noreferrer" (config_content v1)
       || contains "noopener" (config_content v1) then
      append {| passed := true;
                message := "External links have security attributes (noreferrer/noopener)";
                severity := info |} v1
    else v1
  else v1.

Definition defensive_checks : list (str * str) :=
  [ ("enableRobotsTXT" : str, "Robots.txt should be enabled for SEO control" : str);
    ("enableGitInfo" : str, "Git info provides useful metadata for debugging" : str) ].

(** [rf'^\s*{re.escape(field)}\s*=\s*true'] with [re.MULTILINE] *)
Definition defensive_pattern (field : str) : regex :=
  Cat (Bol true) (Cat (Star true Space) (Cat (Lit field)
  (Cat (Star true Space) (Cat (Ch "=") (Cat (Star true Space)
  (Lit "true")))))).

Definition check_defensive (v : ConfigValidator) (fr : str * str)
  : ConfigValidator :=
  let (field, reason) := fr in
  match search (defensive_pattern field) (config_content v) with
  | Some _ =>
      append {| passed := true;
                message := "Defensive default enabled: " ++ field;
                severity := info |} v
  | None =>
      append {| passed := false;
                message := "Recommended: Enable " ++ field ++ " - " ++ reason;
                severity := warning |} v
  end.

Definition validate_defensive_defaults (v : ConfigValidator) : ConfigValidator :=
  fold_left check_defensive defensive_checks v.

(** [r'\[\[menu\.main\]\](.*?)(?=\[\[menu\.main\]\]|$)'] with [re.DOTALL] *)
Definition menu_pattern : regex :=
  Cat (Lit "[[menu.main]]")
  (Cat (Grp 1 (Star false DotAll))
       (Ahead (Alt (Lit "[[menu.main]]") (Eol false)))).

(** [r'weight\s*=\s*(\d+)'] *)
Definition weight_pattern : regex :=
  Cat (Lit "weight") (Cat (Star true Space) (Cat (Ch "=")
  (Cat (Star true Space) (Grp 1 (Plus Digit))))).

(** The first loop of [validate_menu_structure]: the list [weights].
    The call of [int] is not inside a [try]: when it raises, the loop and
    the rule end there. *)
Definition add_weight (weights : result (list N)) (item : str)
  : result (list N) :=
  ws <- weights ;;
  match search weight_pattern item with
  | Some weight_match =>
      n <- int (group 1 weight_match) ;; Ok (ws ++ [n])
  | None => Ok ws
  end.

Definition menu_weights (content : str) : result (list N) :=
  fold_left add_weight (findall menu_pattern content) (Ok []).

(** [len(set(weights))] *)
Definition len_set (weights : list N) : nat :=
  length (nodup N.eq_dec weights).

Definition duplicate_weights_warning : ValidationResult :=
  {| passed := false;
     message := "Duplicate menu weights found - may cause ordering issues";
     severity := warning |}.

Definition unique_weights_info (n : nat) : ValidationResult :=
  {| passed := true;
     message := "Menu weights are unique (" ++ str_of_nat n ++ " items)";
     severity := info |}.

Definition validate_menu_structure (v : ConfigValidator)
  : result ConfigValidator :=
  weights <- menu_weights (config_content v) ;;
  match weights with
  | [] => Ok v
  | _ :: _ =>
      if Nat.eqb (length weights) (len_set weights)
      then Ok (append (unique_weights_info (length weights)) v)
      else Ok (append duplicate_weights_warning v)
  end.

(** [r'type\s*=\s*["\']search["\']'] *)
Definition search_type_pattern : regex :=
  let quote := Chr (fun c => Ascii.eqb c DQUOTE || Ascii.eqb c SQUOTE) in
  Cat (Lit "type") (Cat (Star true Space) (Cat (Ch "=")
  (Cat (Star true Space) (Cat quote (Cat (Lit "search") quote))))).

Definition validate_accessibility (v : ConfigValidator) : ConfigValidator :=
  let v1 :=
    if contains "languageCode" (config_content v)
       || contains "defaultContentLanguage" (config_content v) then
      append {| passed := true;
                message := "Language configuration present for accessibility";
                severity := info |} v
    else v in
  match search search_type_pattern (config_content v1) with
  | Some _ =>
      append {| passed := true;
                message := "Search functionality configured (enhances accessibility)";
                severity := info |} v1
  | None => v1
  end.

(** The five rules, in the order [validate] calls them.  The validator
    object is mutated in place, so what the rules before an exception have
    appended stays in it: the result is the validator when the rules end and
    what ended them, [Ok tt] or the exception. *)
Definition run_rules (v : ConfigValidator) : ConfigValidator * result unit :=
  let v3 := validate_defensive_defaults
              (validate_security_settings
                 (validate_required_fields v)) in
  match validate_menu_structure v3 with
  | Ok v4 => (validate_accessibility v4, Ok tt)
  | Raise e => (v3, Raise e)
  end.

(** [validate]: the validator when the call ends, and what it returns or
    raises. *)
Definition validate (fs : FS) (v : ConfigValidator)
  : ConfigValidator * result bool :=
  let (loaded, v1) := load_config fs v in
  if negb loaded then (v1, Ok false)
  else
    let (v2, ended) := run_rules v1 in
    match ended with
    | Ok _ =>
        let has_errors := existsb unmet_error (results v2) in
        (v2, Ok (negb has_errors))
    | Raise e => (v2, Raise e)
    end.

(** The path of the configuration file: [repo_root] is the text of
    [Path(__file__).parent.parent], [argv] is [sys.argv].  The validator
    keeps the path and uses it through its text. *)
Definition target_path (repo_root : str) (argv : list str) : str :=
  match argv with
  | _ :: p :: _ => fspath (Path p)
  | _ => fspath (joinpath (Path repo_root) "config.toml")
  end.

(** The status the process ends with: that of [sys.exit(main())], or 1
    when an exception escapes [main] (the interpreter prints the traceback
    and the report is never printed). *)
Definition exit_status (ended : result bool) : Z :=
  match ended with
  | Ok success => exit_code success
  | Raise _ => 1%Z
  end.

(** The script, run: the validator when the process ends and the exit
    status. *)
Definition main (repo_root : str) (argv : list str) (fs : FS)
  : ConfigValidator * Z :=
  let config_path := target_path repo_root argv in
  let (v, ended) := validate fs (init config_path) in
  (v, exit_status ended).

(** The exception that escapes [main], if one does. *)
Definition uncaught (repo_root : str) (argv : list str) (fs : FS)
  : option exn :=
  match snd (validate fs (init (target_path repo_root argv))) with
  | Ok _ => None
  | Raise e => Some e
  end.

(** *** The findings of the rules as functions of the text *)

Definition required_finding (content : str) (fr : str * str)
  : ValidationResult :=
  let (field, reason) := fr in
  match search (required_pattern field) content with
  | None =>
      {| passed := false;
         message := "Missing required field '" ++ field ++ "': " ++ reason;
         severity := error |}
  | Some _ =>
      {| passed := true;
         message := "Required field '" ++ field ++ "' is present";
         severity := info |}
  end.

Definition security_findings (content : str) : list ValidationResult :=
  (if contains "unsafe = true" content then
     [ {| passed := true;
          message := "Unsafe HTML rendering enabled - ensure content is trusted";
          severity := warning |} ]
   else [])
  ++
  (if contains "rel=" content
      && (contains "noreferrer" content || contains "noopener" content) then
     [ {| passed := true;
          message := "External links have security attributes (noreferrer/noopener)";
          severity := info |} ]
   else []).

Definition defensive_finding (content : str) (fr : str * str)
  : ValidationResult :=
  let (field, reason) := fr in
  match search (defensive_pattern field) content with
  | Some _ =>
      {| passed := true;
         message := "Defensive default enabled: " ++ field;
         severity := info |}
  | None =>
      {| passed := false;
         message := "Recommended: Enable " ++ field ++ " - " ++ reason;
         severity := warning |}
  end.

(** What the menu rule appends; nothing when [int] raises. *)
Definition menu_findings (content : str) : list ValidationResult :=
  match menu_weights content with
  | Ok [] => []
  | Ok weights =>
      if Nat.eqb (length weights) (len_set weights)
      then [unique_weights_info (length weights)]
      else [duplicate_weights_warning]
  | Raise _ => []
  end.

Definition accessibility_findings (content : str) : list ValidationResult :=
  (if contains "languageCode" content
      || contains "defaultContentLanguage" content then
     [ {| passed := true;
          message := "Language configuration present for accessibility";
          severity := info |} ]
   else [])
  ++
  (match search search_type_pattern content with
   | Some _ =>
       [ {| passed := true;
            message := "Search functionality configured (enhances accessibility)";
            severity := info |} ]
   | None => []
   end).

(** All findings recorded for a loaded text, in the order of the report;
    the accessibility rule is not reached when the menu rule raises. *)
Definition findings (content : str) : list ValidationResult :=
  map (required_finding content) required_fields
  ++ security_findings content
  ++ map (defensive_finding content) defensive_checks
  ++ menu_findings content
  ++ match menu_weights content with
     | Ok _ => accessibility_findings content
     | Raise _ => []
     end.

(** *** Vocabulary of the statements *)

(** The line [baseURL = "https://example.com"]. *)
Definition baseURL_line : str :=
  "baseURL = " ++ [DQUOTE] ++ "https://example.com" ++ [DQUOTE].

Definition baseURL_present : ValidationResult :=
  {| passed := true;
     message := "Required field 'baseURL' is present";
     severity := info |}.

(** A file system with one readable file. *)
Definition one_file (path text : str) : FS :=
  {| path_exists := fun p => Ok (str_eqb p path);
     read_text := fun p => if str_eqb p path then Ok text
                           else Raise "No such file or directory";
     rglob_md := fun _ => [] |}.

(** A menu of three entries with the given weights. *)
Definition menu_block (name weight : str) : str :=
  "[[menu.main]]" ++ [NL] ++ "  name = '" ++ name ++ "'" ++ [NL]
  ++ "  weight = " ++ weight ++ [NL].

Definition config_with_weights (w1 w2 w3 : str) : str :=
  baseURL_line ++ [NL] ++ "title = 'Wiki'" ++ [NL]
  ++ "languageCode = 'en-us'" ++ [NL]
  ++ menu_block "Home" w1 ++ menu_block "Docs" w2 ++ menu_block "FAQ" w3.

(** A menu entry whose weight has 4301 digits, after two ordinary ones. *)
Definition overlong_weight : str := repeat "7"%char 4301.

Definition config_with_overlong_weight : str :=
  config_with_weights "1" "2" overlong_weight.

(** A configuration text that does not assign [baseURL]. *)
Definition config_without_baseURL : str :=
  "title = 'Wiki'" ++ [NL] ++ "languageCode = 'en-us'" ++ [NL]
  ++ "# baseURL = 'https://example.com'" ++ [NL].

(** The finding is the duplicate-weight warning. *)
Definition is_duplicate_warning (r : ValidationResult) : bool :=
  severity_eqb (severity r) warning
  && str_eqb (message r) (message duplicate_weights_warning).

(** The finding has severity [error]. *)
Definition is_error (r : ValidationResult) : bool :=
  severity_eqb (severity r) error.


(** [pre] ends where a line starts; [post] starts where a line ends. *)
Definition line_start (pre : str) : Prop :=
  pre = [] \/ exists p, pre = p ++ [NL].

Definition line_end (post : str) : Prop :=
  post = [] \/ exists t, post = NL :: t.

Definition all_space (w : str) : Prop := Forall (fun c => isspace c = true) w.

Definition no_newline (w : str) : Prop :=
  Forall (fun c => negb (Ascii.eqb c NL) = true) w.

(** The text assigns [field]: at the start of a line, after optional
    white space, comes [field], then [=], then a value that runs to the end
    of a line; white space may surround the [=]. *)
Definition field_assigned (field content : str) : Prop :=
  exists pre ws1 ws2 ws3 value post,
    content = pre ++ ws1 ++ field ++ ws2 ++ "=" ++ ws3 ++ value ++ post
    /\ line_start pre /\ all_space ws1 /\ all_space ws2 /\ all_space ws3
    /\ value <> [] /\ no_newline value /\ line_end post.

(** The validator with [out] appended to its results. *)
Definition extend (v : ConfigValidator) (out : list ValidationResult)
  : ConfigValidator :=
  {| config_path := config_path v;
     config_content := config_content v;
     results := results v ++ out |}.

(** The exit status of the run on a text that loads. *)
Definition loaded_status (content : str) : Z :=
  match menu_weights content with
  | Ok _ => exit_code (negb (existsb unmet_error (findings content)))
  | Raise _ => 1%Z
  end.

(** The findings of a configuration file that does not load. *)
Definition config_not_found (path : str) : ValidationResult :=
  {| passed := false;
     message := "Configuration file not found: " ++ path;
     severity := error |}.

Definition config_unreadable (e : exn) : ValidationResult :=
  {| passed := false;
     message := "Failed to read config: " ++ e;
     severity := error |}.

End Config.

(* ================================================================= *)
(** ** The menu weights, read off the text

    What [validate_menu_structure] takes for the weights of a text, said
    without the patterns: the blocks of the menu, the weight each block
    writes, and the limit of [int]. *)

Module MenuText.

Import Re.

Definition header : str := "[[menu.main]]".

(** A block ends where the next header starts, at the end of the text, and
    at a newline that is the last character of the text. *)
Definition block_ends (s : str) : bool :=
  startswith header s
  || match s with
     | [] => true
     | [c] => Ascii.eqb c NL
     | _ => false
     end.

(** The block that starts at [s]. *)
Fixpoint block (s : str) : str :=
  match s with
  | [] => []
  | c :: tl => if block_ends s then [] else c :: block tl
  end.

(** The blocks of a text: one after every header. *)
Fixpoint blocks (s : str) : list str :=
  match s with
  | [] => []
  | _ :: tl =>
      (if startswith header s then [block (skipn (length header) s)] else [])
      ++ blocks tl
  end.

(** The digits [s] starts with. *)
Fixpoint take_digits (s : str) : str :=
  match s with
  | c :: tl => if isdigit c then c :: take_digits tl else []
  | [] => []
  end.

(** The weight written at the start of [s]: the word [weight], then [=],
    then at least one digit, with white space allowed around the [=].  The
    weight is the run of digits: a sign before it, or a fraction, an
    exponent or an underscore after it, is not part of it. *)
Definition weight_here (s : str) : option str :=
  if startswith "weight" s then
    match lstrip (skipn 6 s) with
    | c :: tl =>
        if Ascii.eqb c "="
        then match take_digits (lstrip tl) with
             | [] => None
             | d => Some d
             end
        else None
    | [] => None
    end
  else None.

(** The first weight written in a block, if there is one. *)
Fixpoint first_weight (s : str) : option str :=
  match weight_here s with
  | Some d => Some d
  | None =>
      match s with
      | [] => None
      | _ :: tl => first_weight tl
      end
  end.

(** The weights a text declares, as they are written: the first weight of
    each block that has one, in the order of the blocks. *)
Definition declared_weights (content : str) : list str :=
  flat_map (fun b => match first_weight b with
                     | Some d => [d]
                     | None => []
                     end)
           (blocks content).

(** What the loop of the rule does with a weight as written:
    [weights.append(int(d))]. *)
Definition convert (weights : result (list N)) (d : str) : result (list N) :=
  ws <- weights ;; n <- int d ;; Ok (ws ++ [n]).

Definition all_within_limit (ds : list str) : bool :=
  forallb (fun d => (N.of_nat (length d) <=? MAX_STR_DIGITS)%N) ds.

(** The values of the declared weights. *)
Definition weight_values (content : str) : list N :=
  map int_of_digits (declared_weights content).

(** The end of the match of the menu pattern that starts at [st]. *)
Definition menu_end (st : mstate) : mstate :=
  let r := skipn (length header) (rest st) in
  set_group 1 (block r)
    (jump (header ++ block r) (skipn (length (block r)) r) st).

End MenuText.

(* ================================================================= *)
(** ** scripts/validate_content.py *)

Module Content.

Import Re.

Definition MAX_DISPLAYED_ISSUES : nat := 10.
Definition MAX_URL_DISPLAY_LENGTH : nat := 50.

(** The values of the [category] field. *)
Inductive Category : Type := link | structure | formatting | accessibility.

Record ContentIssue : Type := {
  file_path : str;
  line_number : nat;
  severity : Severity;
  category : Category;
  message : str
}.

(** A [ContentIssue] has no [passed] field: an issue never records a check
    that passed. *)
#[global] Instance ContentIssue_Finding : Finding ContentIssue :=
  {| finding_severity := severity; finding_passed := fun _ => false |}.

(** The dictionary [self.stats]. *)
Record Stats : Type := {
  files_checked : nat;
  internal_links_found : nat;
  external_links_found : nat;
  images_found : nat
}.

(** The validator object. *)
Record ContentValidator : Type := {
  content_dir : str;
  issues : list ContentIssue;
  stats : Stats
}.

(** [ContentValidator(content_dir)] *)
Definition init (dir : str) : ContentValidator :=
  {| content_dir := dir;
     issues := [];
     stats := {| files_checked := 0; internal_links_found := 0;
                 external_links_found := 0; images_found := 0 |} |}.

(** [self.issues.append(i)] *)
Definition append (i : ContentIssue) (v : ContentValidator) : ContentValidator :=
  {| content_dir := content_dir v; issues := issues v ++ [i]; stats := stats v |}.

Definition with_stats (f : Stats -> Stats) (v : ContentValidator)
  : ContentValidator :=
  {| content_dir := content_dir v; issues := issues v; stats := f (stats v) |}.

Definition count_file (s : Stats) : Stats :=
  {| files_checked := S (files_checked s);
     internal_links_found := internal_links_found s;
     external_links_found := external_links_found s;
     images_found := images_found s |}.

Definition count_internal (s : Stats) : Stats :=
  {| files_checked := files_checked s;
     internal_links_found := S (internal_links_found s);
     external_links_found := external_links_found s;
     images_found := images_found s |}.

Definition count_external (s : Stats) : Stats :=
  {| files_checked := files_checked s;
     internal_links_found := internal_links_found s;
     external_links_found := S (external_links_found s);
     images_found := images_found s |}.

Definition count_image (s : Stats) : Stats :=
  {| files_checked := files_checked s;
     internal_links_found := internal_links_found s;
     external_links_found := external_links_found s;
     images_found := S (images_found s) |}.

(** [find_markdown_files]: the test [exists()] is not inside a [try]. *)
Definition find_markdown_files (fs : FS) (v : ContentValidator)
  : result (list str) :=
  found <- path_exists fs (content_dir v) ;;
  if negb found then Ok []
  else Ok (rglob_md fs (content_dir v)).

(** [file_path.name]: the last component of the path. *)
Fixpoint path_name_from (acc s : str) : str :=
  match s with
  | [] => acc
  | c :: tl => if Ascii.eqb c "/" then path_name_from [] tl
               else path_name_from (acc ++ [c]) tl
  end.

Definition path_name (p : str) : str := path_name_from [] p.

Definition is_empty (s : str) : bool :=
  match s with [] => true | _ => false end.

Definition _check_frontmatter (file_path content : str) (lines : list str)
  (v : ContentValidator) : ContentValidator :=
  if negb (startswith "---" content || startswith "+++" content) then
    if negb (str_eqb (path_name file_path) "_index.md") then
      append {| file_path := file_path; line_number := 1;
                severity := warning; category := structure;
                message := "No frontmatter detected - consider adding title and metadata" |} v
    else v
  else v.

(** [r'\[([^\]]+)\]\(([^\)]+)\)'] *)
Definition link_pattern : regex :=
  Cat (Ch "[") (Cat (Grp 1 (Plus (NotCh "]"))) (Cat (Ch "]")
  (Cat (Ch "(") (Cat (Grp 2 (Plus (NotCh ")"))) (Ch ")"))))).

(** The body of the inner loop of [_check_links], for one match. *)
Definition check_link (file_path : str) (line_num : nat)
  (v : ContentValidator) (m : match_obj) : ContentValidator :=
  let link_text := group 1 m in
  let link_url := group 2 m in
  if startswith "#" link_url || startswith "mailto:" link_url then v
  else
    let v1 :=
      if startswith "http://" link_url || startswith "https://" link_url then
        let v' := with_stats count_external v in
        if startswith "http://" link_url then
          append {| file_path := file_path; line_number := line_num;
                    severity := warning; category := link;
                    message := "Non-HTTPS link found: "
                               ++ slice_to MAX_URL_DISPLAY_LENGTH link_url
                               ++ "..." |} v'
        else v'
      else
        let v' := with_stats count_internal v in
        if negb (startswith "/" link_url) && negb (startswith "../" link_url) then
          if contains "." link_url then
            append {| file_path := file_path; line_number := line_num;
                      severity := info; category := link;
                      message := "Relative link without path prefix: " ++ link_url |} v'
          else v'
        else v' in
    if is_empty (strip link_text) then
      append {| file_path := file_path; line_number := line_num;
                severity := warning; category := accessibility;
                message := "Link has empty text - bad for screen readers" |} v1
    else v1.

Definition _check_links (file_path content : str) (lines : list str)
  (v : ContentValidator) : ContentValidator :=
  fold_left
    (fun v nl => fold_left (check_link file_path (fst nl)) (finditer link_pattern (snd nl)) v)
    (enumerate 1 lines) v.

(** [r'^(#{1,6})\s+(.+)$'] *)
Definition heading_pattern : regex :=
  Cat (Bol false) (Cat (Grp 1 (Repeat 1 6 (Ch "#")))
  (Cat (Plus Space) (Cat (Grp 2 (Plus Dot)) (Eol false)))).

(** The first loop of [_check_headings]: the list [headings] of
    (level, text, line_num). *)
Definition collect_headings (lines : list str) : list (nat * str * nat) :=
  fold_left
    (fun headings nl =>
       match match_ heading_pattern (snd nl) with
       | Some heading_match =>
           headings ++ [(length (group 1 heading_match),
                         strip (group 2 heading_match),
                         fst nl)]
       | None => headings
       end)
    (enumerate 1 lines) [].

Definition heading_jump (file_path : str) (prev_level level line_num : nat)
  : ContentIssue :=
  {| file_path := file_path; line_number := line_num;
     severity := info; category := structure;
     message := "Heading level jump from h" ++ str_of_nat prev_level
                ++ " to h" ++ str_of_nat level
                ++ " - may affect accessibility" |}.

(** The body of the second loop: the state is [prev_level] and the
    validator. *)
Definition check_heading (file_path : str) (acc : nat * ContentValidator)
  (h : nat * str * nat) : nat * ContentValidator :=
  let '(prev_level, v) := acc in
  let '(level, text, line_num) := h in
  let v1 :=
    if (prev_level + 1 <? level)%nat && (0 <? prev_level)%nat
    then append (heading_jump file_path prev_level level line_num) v
    else v in
  (level, v1).

Definition _check_headings (file_path content : str) (lines : list str)
  (v : ContentValidator) : ContentValidator :=
  let headings := collect_headings lines in
  match headings with
  | [] => v
  | _ :: _ => snd (fold_left (check_heading file_path) headings (0, v))
  end.

(** The body of the loop of [_check_code_blocks]: the state is
    [in_code_block], [code_block_start] and the validator. *)
Definition check_code_line (file_path : str)
  (acc : bool * nat * ContentValidator) (nl : nat * str)
  : bool * nat * ContentValidator :=
  let '(in_code_block, code_block_start, v) := acc in
  let (line_num, line) := nl in
  if startswith "```" (strip line) then
    if negb in_code_block then
      let lang := strip (slice_from 3 (strip line)) in
      let v1 :=
        if is_empty lang then
          append {| file_path := file_path; line_number := line_num;
                    severity := info; category := formatting;
                    message := "Code block without language specification - consider adding for syntax highlighting" |} v
        else v in
      (true, line_num, v1)
    else (false, code_block_start, v)
  else acc.

Definition _check_code_blocks (file_path content : str) (lines : list str)
  (v : ContentValidator) : ContentValidator :=
  snd (fold_left (check_code_line file_path) (enumerate 1 lines) (false, 0, v)).

(** The pattern of [_check_accessibility]: an exclamation mark, then the
    link pattern with [*] in place of the first [+], so that the text in
    brackets may be empty. *)
Definition image_pattern : regex :=
  Cat (Ch "!") (Cat (Ch "[") (Cat (Grp 1 (Star true (NotCh "]"))) (Cat (Ch "]")
  (Cat (Ch "(") (Cat (Grp 2 (Plus (NotCh ")"))) (Ch ")")))))).

Definition image_message (image_url : str) : str :=
  let display_url :=
    if (MAX_URL_DISPLAY_LENGTH <? length image_url)%nat
    then slice_to MAX_URL_DISPLAY_LENGTH image_url else image_url in
  let truncation_suffix : str :=
    if (MAX_URL_DISPLAY_LENGTH <? length image_url)%nat then "..." else [] in
  "Image without alt text: " ++ display_url ++ truncation_suffix
  ++ " (bad for screen readers)".

Definition check_image (file_path : str) (line_num : nat)
  (v : ContentValidator) (m : match_obj) : ContentValidator :=
  let alt_text := group 1 m in
  let image_url := group 2 m in
  let v1 := with_stats count_image v in
  if is_empty (strip alt_text) then
    append {| file_path := file_path; line_number := line_num;
              severity := warning; category := accessibility;
              message := image_message image_url |} v1
  else v1.

Definition _check_accessibility (file_path content : str) (lines : list str)
  (v : ContentValidator) : ContentValidator :=
  fold_left
    (fun v nl => fold_left (check_image file_path (fst nl)) (finditer image_pattern (snd nl)) v)
    (enumerate 1 lines) v.

Definition validate_file (fs : FS) (v : ContentValidator) (file_path : str)
  : ContentValidator :=
  match read_text fs file_path with
  | Ok content =>
      let lines := split_nl content in
      let v0 := with_stats count_file v in
      _check_accessibility file_path content lines
        (_check_code_blocks file_path content lines
           (_check_headings file_path content lines
              (_check_links file_path content lines
                 (_check_frontmatter file_path content lines v0))))
  | Raise e =>
      append {| file_path := file_path; line_number := 0;
                severity := error; category := structure;
                message := "Failed to read file: " ++ e |} v
  end.

Definition is_error (i : ContentIssue) : bool := severity_eqb (severity i) error.

(** [validate_all]: the validator when the call ends, and what it returns
    or raises. *)
Definition validate_all (fs : FS) (v : ContentValidator)
  : ContentValidator * result bool :=
  match find_markdown_files fs v with
  | Raise e => (v, Raise e)
  | Ok [] => (v, Ok true)
  | Ok markdown_files =>
      let v1 := fold_left (validate_file fs) markdown_files v in
      (v1, Ok (Nat.eqb (length (filter is_error (issues v1))) 0))
  end.

(** [main], as for the configuration validator. *)
Definition target_dir (repo_root : str) (argv : list str) : str :=
  match argv with
  | _ :: p :: _ => fspath (Path p)
  | _ => fspath (joinpath (Path repo_root) "content")
  end.

Definition exit_status (ended : result bool) : Z :=
  match ended with
  | Ok success => exit_code success
  | Raise _ => 1%Z
  end.

Definition main (repo_root : str) (argv : list str) (fs : FS)
  : ContentValidator * Z :=
  let content_dir := target_dir repo_root argv in
  let (v, ended) := validate_all fs (init content_dir) in
  (v, exit_status ended).

(** The exception that escapes [main], if one does. *)
Definition uncaught (repo_root : str) (argv : list str) (fs : FS)
  : option exn :=
  match snd (validate_all fs (init (target_dir repo_root argv))) with
  | Ok _ => None
  | Raise e => Some e
  end.

(** *** Vocabulary of the statements *)

Fixpoint lookup_file (files : list (str * result str)) (p : str) : result str :=
  match files with
  | [] => Raise "No such file or directory"
  | (q, r) :: tl => if str_eqb p q then r else lookup_file tl p
  end.

(** The findings of the link rule and of the image rule. *)
Definition non_https (file_path : str) (line_num : nat) (shown : str)
  : ContentIssue :=
  {| file_path := file_path; line_number := line_num;
     severity := warning; category := link;
     message := "Non-HTTPS link found: " ++ shown |}.

Definition empty_link_text (file_path : str) (line_num : nat) : ContentIssue :=
  {| file_path := file_path; line_number := line_num;
     severity := warning; category := accessibility;
     message := "Link has empty text - bad for screen readers" |}.

(** The fields of an entry of the list [headings]. *)
Definition level (h : nat * str * nat) : nat := fst (fst h).
Definition line (h : nat * str * nat) : nat := snd h.

(** The heading a line contributes to [headings], if it is one. *)
Definition heading_of (nl : nat * str) : list (nat * str * nat) :=
  match match_ heading_pattern (snd nl) with
  | Some heading_match =>
      [(length (group 1 heading_match), strip (group 2 heading_match), fst nl)]
  | None => []
  end.

(** The findings of the second loop of [_check_headings] when it runs
    over [hs] with [prev_level] at [prev]. *)
Fixpoint jumps (file_path : str) (prev : nat) (hs : list (nat * str * nat))
  : list ContentIssue :=
  match hs with
  | [] => []
  | h :: tl =>
      (if (prev + 1 <? level h)%nat && (0 <? prev)%nat
       then [heading_jump file_path prev (level h) (line h)] else [])
      ++ jumps file_path (level h) tl
  end.

(** A file system with one directory [dir] whose markdown files, in the
    order of the listing, are [files]; a file is given with what reading it
    yields. *)
Definition dir_fs (dir : str) (files : list (str * result str)) : FS :=
  {| path_exists := fun p => Ok (str_eqb p dir
                                 || existsb (fun f => str_eqb p (fst f)) files);
     read_text := lookup_file files;
     rglob_md := fun d => if str_eqb d dir then map fst files else [] |}.

(** A file system that agrees with [fs] on the paths [keep] and has other
    files everywhere else. *)
Definition elsewhere (keep : list str) (fs : FS) : FS :=
  {| path_exists := fun p => if existsb (str_eqb p) keep
                             then path_exists fs p else Ok true;
     read_text := fun p => if existsb (str_eqb p) keep
                           then read_text fs p else Ok ("unrelated" : str);
     rglob_md := fun d => if existsb (str_eqb d) keep
                          then rglob_md fs d else ["unrelated.md" : str] |}.

(** A file system with nothing in it where, as on Linux, a name of more
    than 255 characters is refused. *)
Definition NAME_MAX : nat := 255.

Definition name_too_long (p : str) : exn :=
  "[Errno 36] File name too long: '" ++ p ++ "'".

Definition name_max_fs : FS :=
  {| path_exists := fun p => if (NAME_MAX <? length p)%nat
                             then Raise (name_too_long p) else Ok false;
     read_text := fun p => if (NAME_MAX <? length p)%nat
                           then Raise (name_too_long p)
                           else Raise "No such file or directory";
     rglob_md := fun _ => [] |}.

(** A file system with nothing in it. *)
Definition empty_fs : FS :=
  {| path_exists := fun _ => Ok false;
     read_text := fun _ => Raise "No such file or directory";
     rglob_md := fun _ => [] |}.

(** The error findings and the count of files read: what the rules of
    [validate_file] leave untouched. *)
Definition errors (v : ContentValidator) : list ContentIssue :=
  filter is_error (issues v).

Definition same_load (v v' : ContentValidator) : Prop :=
  errors v' = errors v
  /\ files_checked (stats v') = files_checked (stats v)
  /\ content_dir v' = content_dir v.

(** The finding of a file that cannot be read. *)
Definition read_failure (file_path : str) (e : exn) : ContentIssue :=
  {| file_path := file_path; line_number := 0;
     severity := error; category := structure;
     message := "Failed to read file: " ++ e |}.

Definition load_errors (fs : FS) (file_path : str) : list ContentIssue :=
  match read_text fs file_path with
  | Ok _ => []
  | Raise e => [read_failure file_path e]
  end.

Definition readable (fs : FS) (file_path : str) : bool :=
  match read_text fs file_path with
  | Ok _ => true
  | Raise _ => false
  end.

End Content.

(* ================================================================= *)
(** ** scripts/validate_env.py *)

Module Env.

Import Re.

(** The object [subprocess.run] returns. *)
Record CompletedProcess : Type := {
  returncode : Z;
  stdout : str;
  stderr : str
}.

(** What the script sees of the machine: [shutil.which(cmd) is not None],
    [subprocess.run(argv, cwd=...)], which returns or raises (a timeout, a
    failure to launch, a decoding error), and which of the two module files
    next to the scripts' directory [exists()]. *)
Record World : Type := {
  which : str -> bool;
  subprocess_run : list str -> option str -> result CompletedProcess;
  files : str -> bool
}.

Record ToolCheck : Type := {
  tool : str;
  required : bool;
  found : bool;
  version : option str;
  message : option str
}.

(** The validator object. *)
Record EnvironmentValidator : Type := {
  checks : list ToolCheck;
  repo_root : str
}.

Definition init (root : str) : EnvironmentValidator :=
  {| checks := []; repo_root := root |}.

Definition append (c : ToolCheck) (v : EnvironmentValidator)
  : EnvironmentValidator :=
  {| checks := checks v ++ [c]; repo_root := repo_root v |}.

Definition is_empty (s : str) : bool :=
  match s with [] => true | _ => false end.

(** [x or y] on strings *)
Definition str_or (x y : str) : str := if is_empty x then y else x.

(** Truth of an [Optional[str]] *)
Definition truthy (x : option str) : bool :=
  match x with
  | Some s => negb (is_empty s)
  | None => false
  end.

(** [f"{x}"] for an [Optional[str]] *)
Definition format_opt (x : option str) : str :=
  match x with
  | Some s => s
  | None => "None"
  end.

Definition check_command (w : World) (cmd version_arg : str) (required : bool)
  : result ToolCheck :=
  let found := which w cmd in
  '(version, message) <-
    (if found then
       try_except
         (result <- subprocess_run w [cmd; version_arg] None ;;
          let output := str_or (stdout result) (stderr result) in
          let version : str :=
            if negb (is_empty output)
            then hd [] (split_nl (strip output)) else "Unknown" in
          Ok (Some version, None))
         (fun e =>
            Ok (Some ("Unknown" : str),
                Some ("Found but version check failed: " ++ e)))
     else Ok (None, Some ("Not found in PATH" : str))) ;;
  Ok {| tool := cmd; required := required; found := found;
        version := version; message := message |}.

Definition check_go_modules (w : World) (v : EnvironmentValidator)
  : result (bool * str) :=
  let go_mod := fspath (joinpath (Path (repo_root v)) "go.mod") in
  let go_sum := fspath (joinpath (Path (repo_root v)) "go.sum") in
  if negb (files w go_mod) then
    Ok (false, "go.mod not found" : str)
  else if negb (files w go_sum) then
    Ok (false, "go.sum not found - run 'hugo mod get' or 'hugo mod tidy'" : str)
  else
    try_except
      (result <- subprocess_run w ["go" : str; "mod" : str; "verify" : str]
                   (Some (repo_root v)) ;;
       if Z.eqb (returncode result) 0
       then Ok (true, "Go modules verified" : str)
       else Ok (false, "Go module verification failed: " ++ stderr result))
      (fun e => Ok (false, "Could not verify Go modules: " ++ e)).

Definition check_hugo_version (w : World) : result (bool * str) :=
  hugo_check <- check_command w "hugo" "version" true ;;
  if negb (found hugo_check) then Ok (false, "Hugo not installed" : str)
  else if truthy (version hugo_check)
          && contains "extended" (lower (format_opt (version hugo_check)))
  then Ok (true, "Hugo extended found: " ++ format_opt (version hugo_check))
  else Ok (false, "Hugo extended required but found: "
                  ++ format_opt (version hugo_check)).

(** [r'Python (\d+)\.(\d+)'] *)
Definition python_pattern : regex :=
  Cat (Lit "Python ") (Cat (Grp 1 (Plus Digit)) (Cat (Ch ".")
  (Grp 2 (Plus Digit)))).

Definition check_python_version (w : World) : result (bool * str) :=
  try_except
    (result <- subprocess_run w ["python3" : str; "--version" : str] None ;;
     let version_str := strip (stdout result) in
     match search python_pattern version_str with
     | Some m =>
         major <- int (group 1 m) ;;
         minor <- int (group 2 m) ;;
         if (3 <=? major)%N && (7 <=? minor)%N
         then Ok (true, "Python " ++ str_of_N major ++ "." ++ str_of_N minor
                        ++ " (meets requirement: 3.7+)")
         else Ok (false, "Python " ++ str_of_N major ++ "." ++ str_of_N minor
                         ++ " found but 3.7+ required")
     | None => Ok (true, version_str)
     end)
    (fun e => Ok (false, "Python check failed: " ++ e)).

(** The command lines of [check_git_config]. *)
Definition git_rev_parse : list str :=
  ["git" : str; "rev-parse" : str; "--git-dir" : str].
Definition git_user_name : list str :=
  ["git" : str; "config" : str; "user.name" : str].
Definition git_user_email : list str :=
  ["git" : str; "config" : str; "user.email" : str].

Definition check_git_config (w : World) (v : EnvironmentValidator)
  : result (bool * str) :=
  try_except
    (result <- subprocess_run w git_rev_parse (Some (repo_root v)) ;;
     if negb (Z.eqb (returncode result) 0)
     then Ok (false, "Not a git repository" : str)
     else
       name_result <- subprocess_run w git_user_name None ;;
       email_result <- subprocess_run w git_user_email None ;;
       let has_name := Z.eqb (returncode name_result) 0
                       && negb (is_empty (strip (stdout name_result))) in
       let has_email := Z.eqb (returncode email_result) 0
                        && negb (is_empty (strip (stdout email_result))) in
       if has_name && has_email
       then Ok (true, "Git user configured" : str)
       else Ok (false, "Git user.name or user.email not configured" : str))
    (fun e => Ok (false, "Git check failed: " ++ e)).

(** [validate]: the result is [all_required_ok] and the validator. *)
Definition validate (w : World) (v : EnvironmentValidator)
  : result (bool * EnvironmentValidator) :=
  '(hugo_ok, hugo_msg) <- check_hugo_version w ;;
  go_check <- check_command w "go" "version" true ;;
  let v1 := append go_check v in
  '(python_ok, python_msg) <- check_python_version w ;;
  git_check <- check_command w "git" "version" true ;;
  let v2 := append git_check v1 in
  '(git_config_ok, git_config_msg) <- check_git_config w v2 ;;
  '(go_mod_ok, go_mod_msg) <-
     (if found go_check then check_go_modules w v2
      else Ok (false, "Skipped (Go not found)" : str)) ;;
  make_check <- check_command w "make" "--version" false ;;
  let all_required_ok :=
    hugo_ok && found go_check && python_ok && found git_check && git_config_ok in
  Ok (all_required_ok, v2).

(** [main]: an exception that escapes ends the process with status 1. *)
Definition main (root : str) (w : World) : Z :=
  match validate w (init root) with
  | Ok (success, _) => exit_code success
  | Raise _ => 1%Z
  end.

(** *** Vocabulary of the statements *)

Fixpoint argv_eqb (a b : list str) : bool :=
  match a, b with
  | [], [] => true
  | x :: a', y :: b' => str_eqb x y && argv_eqb a' b'
  | _, _ => false
  end.

(** A machine given by the commands on the path and by what each command
    line prints with which status; any other command line fails to
    launch. *)
Fixpoint scripted (table : list (list str * CompletedProcess))
  (argv : list str) : result CompletedProcess :=
  match table with
  | [] => Raise "[Errno 2] No such file or directory"
  | (a, r) :: tl => if argv_eqb argv a then Ok r else scripted tl argv
  end.

Definition machine (on_path : list str)
  (table : list (list str * CompletedProcess)) : World :=
  {| which := fun cmd => existsb (str_eqb cmd) on_path;
     subprocess_run := fun argv _ => scripted table argv;
     files := fun _ => true |}.

Definition printed (status : Z) (out : str) : CompletedProcess :=
  {| returncode := status; stdout := out; stderr := [] |}.

(** A machine where [hugo] is on the path and its version command times
    out. *)
Definition hugo_hangs : World :=
  {| which := fun _ => true;
     subprocess_run := fun _ _ => Raise "Command timed out after 5 seconds";
     files := fun _ => true |}.

(** A machine with every tool but [hugo]. *)
Definition without_hugo : World :=
  machine ["go" : str; "git" : str; "python3" : str; "make" : str]
    [ (["go" : str; "version" : str], printed 0 "go version go1.21.0 linux/amd64");
      (["python3" : str; "--version" : str], printed 0 "Python 3.11.2");
      (["git" : str; "version" : str], printed 0 "git version 2.39.2");
      (git_rev_parse, printed 0 ".git");
      (git_user_name, printed 0 "Ada");
      (git_user_email, printed 0 "ada@example.com");
      (["go" : str; "mod" : str; "verify" : str], printed 0 "all modules verified");
      (["make" : str; "--version" : str], printed 0 "GNU Make 4.3") ].

(** A machine with every tool, in a git repository where [user.name] is
    set and [user.email] is not. *)
Definition without_email : World :=
  machine ["hugo" : str; "go" : str; "git" : str; "python3" : str; "make" : str]
    [ (["hugo" : str; "version" : str],
       printed 0 "hugo v0.120.4+extended linux/amd64");
      (["go" : str; "version" : str], printed 0 "go version go1.21.0 linux/amd64");
      (["python3" : str; "--version" : str], printed 0 "Python 3.11.2");
      (["git" : str; "version" : str], printed 0 "git version 2.39.2");
      (git_rev_parse, printed 0 ".git");
      (git_user_name, printed 0 "Ada");
      (git_user_email, printed 1 []);
      (["go" : str; "mod" : str; "verify" : str], printed 0 "all modules verified");
      (["make" : str; "--version" : str], printed 0 "GNU Make 4.3") ].

End Env.

(* ================================================================= *)
(** ** The report of the configuration validator *)

Module ConfigReport.

Import Config.

(** [print_report] prints lines of fixed text around the messages of the
    findings.  A printed line is given by what it is; its decoration (rules
    of [=] and [-], bullets, pictograms) is fixed by the script. *)
Inductive Section : Type := ERRORS | WARNINGS | ALL_CHECKS_PASSED.

Inductive Status : Type := FAILED | PASSED_WITH_WARNINGS | PASSED.

Inductive Line : Type :=
| Title
| Heading (s : Section)
| Bullet (message : str)
| More (n : nat)
| Blank
| Rule
| Summary (passed total : nat)
| StatusLine (s : Status).

(** The three lists of [print_report]. *)
Definition shown_errors (v : ConfigValidator) : list ValidationResult :=
  filter (fun r => severity_eqb (severity r) error && negb (passed r))
         (results v).

Definition shown_warnings (v : ConfigValidator) : list ValidationResult :=
  filter (fun r => severity_eqb (severity r) warning && negb (passed r))
         (results v).

Definition shown_info (v : ConfigValidator) : list ValidationResult :=
  filter (fun r => severity_eqb (severity r) info && passed r) (results v).

Definition nonempty {A} (l : list A) : bool :=
  match l with [] => false | _ :: _ => true end.

(** The final [if errors: ... elif warnings: ... else: ...]. *)
Definition status (v : ConfigValidator) : Status :=
  if nonempty (shown_errors v) then FAILED
  else if nonempty (shown_warnings v) then PASSED_WITH_WARNINGS
  else PASSED.

Definition print_report (v : ConfigValidator) : list Line :=
  let errors := shown_errors v in
  let warnings := shown_warnings v in
  let info := shown_info v in
  [Title]
  ++ (if nonempty errors
      then Heading ERRORS :: map (fun r => Bullet (message r)) errors ++ [Blank]
      else [])
  ++ (if nonempty warnings
      then Heading WARNINGS :: map (fun r => Bullet (message r)) warnings
           ++ [Blank]
      else [])
  ++ (if nonempty info && negb (nonempty errors || nonempty warnings)
      then Heading ALL_CHECKS_PASSED
           :: map (fun r => Bullet (message r)) (firstn 5 info)
           ++ (if (5 <? length info)%nat then [More (length info - 5)] else [])
           ++ [Blank]
      else [])
  ++ [Rule;
      Summary (length (filter passed (results v))) (length (results v));
      StatusLine (status v);
      Rule].

(** What the run of the script prints as its report: [main] calls
    [print_report] after [validate] has returned, so nothing is printed
    when an exception escapes [validate]. *)
Definition printed_report (repo_root : str) (argv : list str) (fs : FS)
  : option (list Line) :=
  match uncaught repo_root argv fs with
  | None => Some (print_report (fst (main repo_root argv fs)))
  | Some _ => None
  end.

(** *** Vocabulary of the statements *)

(** The text enables [field]: at the start of a line, after optional
    white space, comes [field], then [=], then the word [true]; white space
    may surround the [=], and anything may follow the word. *)
Definition flag_enabled (field content : str) : Prop :=
  exists pre ws1 ws2 ws3 post,
    content = pre ++ ws1 ++ field ++ ws2 ++ "=" ++ ws3 ++ "true" ++ post
    /\ line_start pre /\ all_space ws1 /\ all_space ws2 /\ all_space ws3.

Definition unsafe_notice : ValidationResult :=
  {| passed := true;
     message := "Unsafe HTML rendering enabled - ensure content is trusted";
     severity := warning |}.

Definition language_present : ValidationResult :=
  {| passed := true;
     message := "Language configuration present for accessibility";
     severity := info |}.

Definition has_message (msg : str) (r : ValidationResult) : bool :=
  str_eqb (message r) msg.

Definition unmet_warning (r : ValidationResult) : bool :=
  severity_eqb (severity r) warning && negb (passed r).

Definition shown (r : ValidationResult) : bool :=
  severity_eqb (severity r) error && negb (passed r)
  || severity_eqb (severity r) warning && negb (passed r)
  || severity_eqb (severity r) info && passed r.

(** The finding reports on the menu weights. *)
Definition about_menu (r : ValidationResult) : bool :=
  startswith "Menu" (message r).

Definition defensive_on (field : str) : ValidationResult :=
  {| passed := true;
     message := "Defensive default enabled: " ++ field;
     severity := info |}.

Definition defensive_off (field reason : str) : ValidationResult :=
  {| passed := false;
     message := "Recommended: Enable " ++ field ++ " - " ++ reason;
     severity := warning |}.

Definition defensive_messages : list str :=
  flat_map (fun fr => [message (defensive_on (fst fr));
                       message (defensive_off (fst fr) (snd fr))])
           defensive_checks.

End ConfigReport.

(* ================================================================= *)
(** ** Shapes of lines for the content validator *)

Module ContentShapes.

Import Re Content.

(** The line opens or closes a code block, and what follows the fence. *)
Definition is_fence (line : str) : bool := startswith "```" (strip line).

Definition fence_lang (line : str) : str :=
  strip (slice_from 3 (strip line)).

(** Of a list of fence lines, those that open a block, when the first one
    is met inside a block ([in_block]) or outside. *)
Fixpoint openers {A} (in_block : bool) (fences : list A) : list A :=
  match fences with
  | [] => []
  | f :: tl => if in_block then openers false tl else f :: openers true tl
  end.

Definition no_language (file_path : str) (line_num : nat) : ContentIssue :=
  {| file_path := file_path; line_number := line_num;
     severity := info; category := formatting;
     message := "Code block without language specification - consider adding for syntax highlighting" |}.

Definition no_frontmatter (file_path : str) : ContentIssue :=
  {| file_path := file_path; line_number := 1;
     severity := warning; category := structure;
     message := "No frontmatter detected - consider adding title and metadata" |}.

Definition no_slash (name : str) : Prop :=
  Forall (fun c => Ascii.eqb c "/" = false) name.

(** The line is an ATX heading for the script: one to six [#], then white
    space, then a text; a final newline may follow. *)
Definition heading_shape (line : str) : Prop :=
  exists hashes ws text tail,
    line = hashes ++ ws ++ text ++ tail
    /\ 1 <= length hashes <= 6
    /\ Forall (fun c => Ascii.eqb "#" c = true) hashes
    /\ ws <> [] /\ Forall (fun c => isspace c = true) ws
    /\ text <> [] /\ Forall (fun c => negb (Ascii.eqb c NL) = true) text
    /\ (tail = [] \/ tail = [NL]).

(** The matches of the link pattern on all lines, and how [_check_links]
    sorts one of them. *)
Definition link_matches (lines : list str) : list match_obj :=
  flat_map (fun nl => finditer link_pattern (snd nl)) (enumerate 1 lines).

Definition skipped (m : match_obj) : bool :=
  startswith "#" (group 2 m) || startswith "mailto:" (group 2 m).

Definition external (m : match_obj) : bool :=
  startswith "http://" (group 2 m) || startswith "https://" (group 2 m).

Definition code_findings (file_path : str) (in_block : bool)
  (l : list (nat * str)) : list ContentIssue :=
  map (fun nl => no_language file_path (fst nl))
      (filter (fun nl => is_empty (fence_lang (snd nl)))
              (openers in_block (filter (fun nl => is_fence (snd nl)) l))).

Definition counted_external (m : match_obj) : bool :=
  negb (skipped m) && external m.

Definition counted_internal (m : match_obj) : bool :=
  negb (skipped m) && negb (external m).

Definition link_effect (v v' : ContentValidator) (ms : list match_obj) : Prop :=
  external_links_found (stats v')
  = external_links_found (stats v) + length (filter counted_external ms)
  /\ internal_links_found (stats v')
     = internal_links_found (stats v) + length (filter counted_internal ms)
  /\ images_found (stats v') = images_found (stats v)
  /\ files_checked (stats v') = files_checked (stats v)
  /\ length (issues v) <= length (issues v')
     <= length (issues v)
        + 2 * length (filter (fun m => negb (skipped m)) ms).

Definition frontmatter_findings (file_path content : str) : list ContentIssue :=
  if negb (startswith "---" content || startswith "+++" content)
     && negb (str_eqb (path_name file_path) "_index.md")
  then [no_frontmatter file_path] else [].

Definition link_findings (file_path : str) (line_num : nat) (m : match_obj)
  : list ContentIssue :=
  if skipped m then []
  else
    (if external m then
       if startswith "http://" (group 2 m)
       then [non_https file_path line_num
               (slice_to MAX_URL_DISPLAY_LENGTH (group 2 m) ++ "...")]
       else []
     else
       if negb (startswith "/" (group 2 m))
          && negb (startswith "../" (group 2 m))
          && contains "." (group 2 m)
       then [ {| file_path := file_path; line_number := line_num;
                 severity := info; category := link;
                 message := "Relative link without path prefix: "
                            ++ group 2 m |} ]
       else [])
    ++ (if is_empty (strip (group 1 m))
        then [empty_link_text file_path line_num] else []).

Definition missing_alt (file_path : str) (line_num : nat) (image_url : str)
  : ContentIssue :=
  {| file_path := file_path; line_number := line_num;
     severity := warning; category := accessibility;
     message := image_message image_url |}.

Definition image_findings (file_path : str) (line_num : nat) (m : match_obj)
  : list ContentIssue :=
  if is_empty (strip (group 1 m))
  then [missing_alt file_path line_num (group 2 m)] else [].

Definition on_lines (lines : list str) (pattern : regex)
  (per_match : nat -> match_obj -> list ContentIssue) : list ContentIssue :=
  flat_map (fun nl => flat_map (per_match (fst nl)) (finditer pattern (snd nl)))
           (enumerate 1 lines).

(** The findings of one file, in the order of the five rules. *)
Definition file_findings (fs : FS) (file_path : str) : list ContentIssue :=
  match read_text fs file_path with
  | Raise e => [read_failure file_path e]
  | Ok content =>
      let lines := split_nl content in
      frontmatter_findings file_path content
      ++ on_lines lines link_pattern (link_findings file_path)
      ++ jumps file_path 0 (collect_headings lines)
      ++ code_findings file_path false (enumerate 1 lines)
      ++ on_lines lines image_pattern (image_findings file_path)
  end.

End ContentShapes.

(* ================================================================= *)
(** ** Machines for the statements on the environment validator *)

Module EnvWorlds.

Import Env.

(** A machine whose [python3 --version] prints [out], with every tool on
    the path and nothing else answering. *)
Definition python_prints (out : str) : World :=
  machine ["hugo" : str; "go" : str; "git" : str; "python3" : str]
    [ (["python3" : str; "--version" : str], printed 0 out) ].

(** A machine whose [hugo version] prints [out]. *)
Definition hugo_prints (out : str) : World :=
  machine ["hugo" : str] [ (["hugo" : str; "version" : str], printed 0 out) ].

(** A machine that is set up as the script asks. *)
Definition healthy : World :=
  machine ["hugo" : str; "go" : str; "git" : str; "python3" : str]
    [ (["hugo" : str; "version" : str],
       printed 0 "hugo v0.120.4+extended linux/amd64");
      (["go" : str; "version" : str], printed 0 "go version go1.21.0 linux/amd64");
      (["python3" : str; "--version" : str], printed 0 "Python 3.11.2");
      (["git" : str; "version" : str], printed 0 "git version 2.39.2");
      (git_rev_parse, printed 0 ".git");
      (git_user_name, printed 0 "Ada");
      (git_user_email, printed 0 "ada@example.com") ].

Definition is_digit_str (s : str) : Prop :=
  s <> [] /\ Forall (fun c => isdigit c = true) s.

Definition not_digit_first (s : str) : Prop :=
  match s with
  | [] => True
  | c :: _ => isdigit c = false
  end.

End EnvWorlds.

(* ================================================================= *)
(** ** Facts on the matcher *)

Module ReFacts.

Import Re.

Lemma jump_nil st : jump [] (rest st) st = st.
Proof. destruct st; reflexivity. Qed.

Lemma jump_jump w1 w2 post mid st :
  jump w2 post (jump w1 mid st) = jump (w1 ++ w2) post st.
Proof. unfold jump; simpl. now rewrite rev_app_distr, app_assoc. Qed.

Lemma step_jump c tl st : step c tl st = jump [c] tl st.
Proof. reflexivity. Qed.

(** *** The matcher finds only matches *)

Lemma star_loop_sound body g k r :
  (forall st k out, body st k = Some out ->
     exists st', matches r st st' /\ k st' = Some out) ->
  forall n st out, star_loop body g k n st = Some out ->
    exists st', matches (Star g r) st st' /\ k st' = Some out.
Proof.
  intros Hbody n; induction n as [|n IH]; intros st out H; simpl in H.
  - exists st; split; [constructor | exact H].
  - assert (Hround : forall m,
      body st (fun st1 => if progress st st1
                          then star_loop body g k n st1 else None) = Some m ->
      exists st', matches (Star g r) st st' /\ k st' = Some m).
    { intros m Hm. apply Hbody in Hm. destruct Hm as (st1 & M1 & K1).
      destruct (progress st st1) eqn:P; [|discriminate].
      apply IH in K1. destruct K1 as (st' & M2 & K2).
      exists st'; split; [eapply M_star_more; eauto | exact K2]. }
    destruct g.
    + destruct (body st _) as [m|] eqn:E.
      * inversion H; subst. now apply Hround.
      * exists st; split; [constructor | exact H].
    + destruct (k st) as [m|] eqn:E.
      * inversion H; subst. exists st; split; [constructor | exact E].
      * now apply Hround.
Qed.

Lemma run_sound r : forall st k out,
  run r st k = Some out -> exists st', matches r st st' /\ k st' = Some out.
Proof.
  induction r; intros st k out H; cbn [run] in H.
  - exists st; split; [constructor | exact H].
  - destruct (rest st) as [|c tl] eqn:R; [discriminate|].
    destruct (p c) eqn:P; [|discriminate].
    exists (step c tl st); split; [now constructor | exact H].
  - apply IHr1 in H. destruct H as (st1 & M1 & H).
    apply IHr2 in H. destruct H as (st2 & M2 & H).
    exists st2; split; [econstructor; eauto | exact H].
  - destruct (run r1 st k) as [m|] eqn:E.
    + inversion H; subst. apply IHr1 in E. destruct E as (st1 & M1 & E).
      exists st1; split; [now apply M_alt_l | exact E].
    + apply IHr2 in H. destruct H as (st1 & M1 & H).
      exists st1; split; [now apply M_alt_r | exact H].
  - eapply star_loop_sound; eauto.
  - apply IHr in H. destruct H as (st1 & M1 & H).
    exists (set_group n (span st st1) st1); split; [now constructor | exact H].
  - destruct (at_bol multiline st) eqn:B; [|discriminate].
    exists st; split; [now constructor | exact H].
  - destruct (at_eol multiline st) eqn:B; [|discriminate].
    exists st; split; [now constructor | exact H].
  - destruct (run r st Some) as [m|] eqn:E; [|discriminate].
    apply IHr in E. destruct E as (st1 & M1 & _).
    exists st; split; [eapply M_ahead; eauto | exact H].
Qed.

(** *** Inversion of [matches], one constructor at a time *)

Lemma matches_eps_inv st st' : matches Eps st st' -> st' = st.
Proof. now inversion 1. Qed.

Lemma matches_chr_inv p st st' :
  matches (Chr p) st st' ->
  exists c tl, rest st = c :: tl /\ p c = true /\ st' = step c tl st.
Proof. inversion 1; subst; eauto. Qed.

Lemma matches_cat_inv r1 r2 st st' :
  matches (Cat r1 r2) st st' ->
  exists st1, matches r1 st st1 /\ matches r2 st1 st'.
Proof. inversion 1; subst; eauto. Qed.

Lemma matches_alt_inv r1 r2 st st' :
  matches (Alt r1 r2) st st' -> matches r1 st st' \/ matches r2 st st'.
Proof. inversion 1; subst; auto. Qed.

Lemma matches_star_inv g r st st' :
  matches (Star g r) st st' ->
  st' = st \/
  exists st1, matches r st st1 /\ progress st st1 = true
              /\ matches (Star g r) st1 st'.
Proof. inversion 1; subst; eauto. Qed.

Lemma matches_grp_inv n r st st' :
  matches (Grp n r) st st' ->
  exists st1, matches r st st1 /\ st' = set_group n (span st st1) st1.
Proof. inversion 1; subst; eauto. Qed.

Lemma matches_bol_inv ml st st' :
  matches (Bol ml) st st' -> st' = st /\ at_bol ml st = true.
Proof. inversion 1; subst; auto. Qed.

Lemma matches_eol_inv ml st st' :
  matches (Eol ml) st st' -> st' = st /\ at_eol ml st = true.
Proof. inversion 1; subst; auto. Qed.

Lemma matches_ahead_inv r st st' :
  matches (Ahead r) st st' -> st' = st /\ exists st1, matches r st st1.
Proof. inversion 1; subst; eauto. Qed.

(** *** The matcher finds a match whenever there is one *)

Lemma star_loop_complete body g k r :
  (forall st st', matches r st st' ->
     forall k, k st' <> None -> body st k <> None) ->
  forall n st st', length (rest st) < n -> matches (Star g r) st st' ->
    k st' <> None -> star_loop body g k n st <> None.
Proof.
  intros Hbody n; induction n as [|n IH]; intros st st' Hn M K; [lia|].
  simpl.
  apply matches_star_inv in M. destruct M as [->|(st1 & M1 & P & M2)].
  - destruct g.
    + destruct (body st _); [discriminate | exact K].
    + destruct (k st); [discriminate | now elim K].
  - assert (Hround :
      body st (fun st1 => if progress st st1
                          then star_loop body g k n st1 else None) <> None).
    { eapply Hbody; [eassumption|]. rewrite P.
      eapply IH; [|eassumption|exact K].
      unfold progress in P. apply Nat.ltb_lt in P. lia. }
    destruct g.
    + destruct (body st _); [discriminate | now elim Hround].
    + destruct (k st); [discriminate | exact Hround].
Qed.

Lemma run_complete r : forall st st',
  matches r st st' -> forall k, k st' <> None -> run r st k <> None.
Proof.
  induction r; intros st st' M k K; cbn [run].
  - apply matches_eps_inv in M; subst; exact K.
  - apply matches_chr_inv in M. destruct M as (c & tl & R & P & ->).
    rewrite R, P. exact K.
  - apply matches_cat_inv in M. destruct M as (st1 & M1 & M2).
    eapply IHr1; [eassumption|]. eapply IHr2; eassumption.
  - apply matches_alt_inv in M.
    destruct (run r1 st k) eqn:E; [discriminate|].
    destruct M as [M|M].
    + exfalso. eapply IHr1; eassumption.
    + eapply IHr2; eassumption.
  - eapply star_loop_complete; eauto.
  - apply matches_grp_inv in M. destruct M as (st1 & M1 & ->).
    eapply IHr; [eassumption | exact K].
  - apply matches_bol_inv in M. destruct M as (-> & B). rewrite B. exact K.
  - apply matches_eol_inv in M. destruct M as (-> & B). rewrite B. exact K.
  - apply matches_ahead_inv in M. destruct M as (-> & st1 & M).
    destruct (run r st Some) eqn:E; [exact K|].
    exfalso. eapply IHr; [eassumption | | exact E]. discriminate.
Qed.

(** *** Matches read the subject from left to right *)

Lemma matches_reads r st st' :
  matches r st st' ->
  exists w, rest st = w ++ rest st' /\ before st' = rev w ++ before st.
Proof.
  induction 1.
  - exists []; auto.
  - exists [c]; simpl; auto.
  - destruct IHmatches1 as (w1 & R1 & B1), IHmatches2 as (w2 & R2 & B2).
    exists (w1 ++ w2). rewrite R1, R2, B2, B1, rev_app_distr.
    now rewrite !app_assoc.
  - assumption.
  - assumption.
  - exists []; auto.
  - destruct IHmatches1 as (w1 & R1 & B1), IHmatches2 as (w2 & R2 & B2).
    exists (w1 ++ w2). rewrite R1, R2, B2, B1, rev_app_distr.
    now rewrite !app_assoc.
  - simpl; assumption.
  - exists []; auto.
  - exists []; auto.
  - exists []; auto.
Qed.

(** The group a [Grp] sets is the text its body read. *)
Lemma span_reads st st1 w :
  before st1 = rev w ++ before st -> span st st1 = w.
Proof.
  intros B. unfold span. rewrite B, length_app, Nat.add_sub.
  rewrite firstn_app, Nat.sub_diag, firstn_all. simpl.
  now rewrite app_nil_r, rev_involutive.
Qed.

(** *** Derived forms *)

Lemma matches_Lit_inv l : forall st st',
  matches (Lit l) st st' ->
  exists post, rest st = l ++ post /\ st' = jump l post st.
Proof.
  induction l as [|c l IH]; intros st st' M; simpl in M.
  - apply matches_eps_inv in M; subst. exists (rest st).
    now rewrite jump_nil.
  - apply matches_cat_inv in M. destruct M as (st1 & M1 & M2).
    apply matches_chr_inv in M1. destruct M1 as (c' & tl & R & E & ->).
    apply Ascii.eqb_eq in E; subst c'.
    apply IH in M2. destruct M2 as (post & R2 & ->). simpl in R2.
    exists post. rewrite R, R2. split; [reflexivity|].
    rewrite step_jump. apply (jump_jump [c] l).
Qed.

Lemma matches_Lit_intro l : forall post st,
  rest st = l ++ post -> matches (Lit l) st (jump l post st).
Proof.
  induction l as [|c l IH]; intros post st R; simpl in *.
  - rewrite <- R, jump_nil. constructor.
  - apply M_cat with (st1 := step c (l ++ post) st).
    + constructor; [exact R | apply Ascii.eqb_refl].
    + rewrite step_jump.
      replace (jump (c :: l) post st)
        with (jump l post (jump [c] (l ++ post) st))
        by apply (jump_jump [c] l).
      now apply IH.
Qed.

Lemma matches_star_chr_inv g p st st' :
  matches (Star g (Chr p)) st st' ->
  exists w post, Forall (fun c => p c = true) w
                 /\ rest st = w ++ post /\ st' = jump w post st.
Proof.
  intros M. remember (Star g (Chr p)) as R eqn:ER.
  induction M; try discriminate.
  - exists [], (rest st). now rewrite jump_nil.
  - inversion ER; subst. clear IHM1.
    apply matches_chr_inv in M1. destruct M1 as (c & tl & R1 & P & ->).
    destruct (IHM2 eq_refl) as (w & post & F & R2 & ->). simpl in R2.
    exists (c :: w), post. split; [now constructor|].
    rewrite R1, R2. split; [reflexivity|].
    rewrite step_jump. apply (jump_jump [c] w).
Qed.

Lemma matches_star_chr_intro g p w : forall post st,
  Forall (fun c => p c = true) w -> rest st = w ++ post ->
  matches (Star g (Chr p)) st (jump w post st).
Proof.
  induction w as [|c w IH]; intros post st F R; simpl in *.
  - rewrite <- R, jump_nil. constructor.
  - inversion F; subst.
    apply M_star_more with (st1 := step c (w ++ post) st).
    + now constructor.
    + unfold progress. rewrite R. simpl. apply Nat.ltb_lt. lia.
    + rewrite step_jump.
      replace (jump (c :: w) post st)
        with (jump w post (jump [c] (w ++ post) st))
        by apply (jump_jump [c] w).
      now apply IH.
Qed.

Lemma matches_plus_chr_inv p st st' :
  matches (Plus (Chr p)) st st' ->
  exists w post, w <> [] /\ Forall (fun c => p c = true) w
                 /\ rest st = w ++ post /\ st' = jump w post st.
Proof.
  intros M. apply matches_cat_inv in M. destruct M as (st1 & M1 & M2).
  apply matches_chr_inv in M1. destruct M1 as (c & tl & R1 & P & ->).
  apply matches_star_chr_inv in M2.
  destruct M2 as (w & post & F & R2 & ->). simpl in R2.
  exists (c :: w), post. split; [discriminate|]. split; [now constructor|].
  rewrite R1, R2. split; [reflexivity|].
  rewrite step_jump. apply (jump_jump [c] w).
Qed.

Lemma matches_plus_chr_intro p w post st :
  w <> [] -> Forall (fun c => p c = true) w -> rest st = w ++ post ->
  matches (Plus (Chr p)) st (jump w post st).
Proof.
  intros NE F R. destruct w as [|c w]; [now elim NE|].
  inversion F; subst. simpl in R.
  apply M_cat with (st1 := step c (w ++ post) st).
  - now constructor.
  - rewrite step_jump.
    replace (jump (c :: w) post st)
      with (jump w post (jump [c] (w ++ post) st))
      by apply (jump_jump [c] w).
    now apply matches_star_chr_intro.
Qed.

(** *** [re.search] *)

Lemma search_from_sound r : forall rst bef m,
  search_from r bef rst = Some m ->
  exists pre post, rst = pre ++ post
    /\ m_start m = MState (rev pre ++ bef) post []
    /\ matches r (m_start m) (m_end m).
Proof.
  induction rst as [|c tl IH]; intros bef m H; simpl in H.
  - destruct (run r _ Some) as [e|] eqn:E; [|discriminate].
    inversion H; subst; clear H. simpl. exists [], []. repeat split.
    apply run_sound in E. destruct E as (st' & M & E).
    now inversion E; subst.
  - destruct (run r _ Some) as [e|] eqn:E.
    + inversion H; subst; clear H. simpl. exists [], (c :: tl). repeat split.
      apply run_sound in E. destruct E as (st' & M & E).
      now inversion E; subst.
    + apply IH in H. destruct H as (pre & post & -> & S & M).
      exists (c :: pre), post. simpl. rewrite <- app_assoc. auto.
Qed.

Lemma search_from_complete r : forall pre post bef st',
  matches r (MState (rev pre ++ bef) post []) st' ->
  search_from r bef (pre ++ post) <> None.
Proof.
  induction pre as [|c pre IH]; intros post bef st' M.
  - simpl in M. destruct post; simpl.
    + destruct (run r _ Some) eqn:E; [discriminate|].
      exfalso. eapply run_complete; [exact M | | exact E]. discriminate.
    + destruct (run r _ Some) eqn:E; [discriminate|].
      exfalso. eapply run_complete; [exact M | | exact E]. discriminate.
  - simpl. destruct (run r _ Some) eqn:E; [discriminate|].
    eapply IH. simpl in M. rewrite <- app_assoc in M. exact M.
Qed.

Lemma search_sound r s m :
  search r s = Some m ->
  exists pre post, s = pre ++ post
    /\ m_start m = MState (rev pre) post []
    /\ matches r (m_start m) (m_end m).
Proof.
  intros H. apply search_from_sound in H.
  destruct H as (pre & post & E & S & M). rewrite app_nil_r in S. eauto.
Qed.

Lemma search_complete r pre post st' :
  matches r (MState (rev pre) post []) st' -> search r (pre ++ post) <> None.
Proof.
  intros M. eapply search_from_complete. rewrite app_nil_r. exact M.
Qed.

Lemma span_jump w post st : span st (jump w post st) = w.
Proof. now apply span_reads. Qed.

(** *** [re.finditer] *)

Lemma finditer_from_sound r : forall fuel bef rst m,
  In m (finditer_from fuel r bef rst) ->
  groups (m_start m) = [] /\ matches r (m_start m) (m_end m).
Proof.
  induction fuel as [|fuel IH]; intros bef rst m H; simpl in H; [contradiction|].
  destruct (search_from r bef rst) as [m0|] eqn:S; [|contradiction].
  destruct H as [<-|H].
  - apply search_from_sound in S. destruct S as (pre & post & _ & St & M).
    split; [now rewrite St | exact M].
  - destruct (progress (m_start m0) (m_end m0)); [now apply IH in H|].
    destruct (rest (m_end m0)); [contradiction | now apply IH in H].
Qed.

Lemma finditer_sound r s m :
  In m (finditer r s) ->
  groups (m_start m) = [] /\ matches r (m_start m) (m_end m).
Proof. apply finditer_from_sound. Qed.

(** *** What the matcher returns where the order of the attempts leaves
    no choice *)

Lemma startswith_split p : forall s,
  startswith p s = true -> s = p ++ skipn (length p) s.
Proof.
  induction p as [|a p IH]; intros s H; [reflexivity|].
  destruct s as [|b s]; [discriminate|]. simpl in H.
  apply andb_true_iff in H. destruct H as (E & H).
  apply Ascii.eqb_eq in E. subst b. simpl. f_equal. now apply IH.
Qed.

Lemma startswith_prefix p post : startswith p (p ++ post) = true.
Proof.
  induction p as [|a p IH]; [reflexivity|]. simpl.
  now rewrite Ascii.eqb_refl.
Qed.

(** A literal either reads itself or fails. *)
Lemma run_Lit_cases l : forall st k,
  run (Lit l) st k
  = if startswith l (rest st)
    then k (jump l (skipn (length l) (rest st)) st)
    else None.
Proof.
  induction l as [|c l IH]; intros st k.
  - cbn. now rewrite jump_nil.
  - cbn [Lit fold_right run]. fold (Lit l).
    destruct (rest st) as [|b tl] eqn:R; [reflexivity|].
    cbn [startswith]. destruct (Ascii.eqb c b) eqn:E; [|reflexivity].
    apply Ascii.eqb_eq in E. subst b. cbn [andb].
    rewrite IH. cbn [rest step].
    destruct (startswith l tl) eqn:S; [|reflexivity].
    cbn [length skipn]. rewrite step_jump.
    rewrite (jump_jump [c] l). reflexivity.
Qed.


Lemma run_chr_step p st k c tl :
  rest st = c :: tl -> p c = true -> run (Chr p) st k = k (step c tl st).
Proof. intros R P. cbn [run]. now rewrite R, P. Qed.

Lemma run_chr_stop p st k :
  class_ends p (rest st) -> run (Chr p) st k = None.
Proof.
  intros E. cbn [run]. destruct (rest st); [reflexivity|].
  simpl in E. now rewrite E.
Qed.

Lemma star_greedy_chr p k out w : forall post st n,
  Forall (fun c => p c = true) w -> class_ends p post ->
  rest st = w ++ post -> length w < n ->
  k (jump w post st) = Some out ->
  star_loop (run (Chr p)) true k n st = Some out.
Proof.
  induction w as [|c w IH]; intros post st n F E R L K;
    (destruct n as [|n]; [inversion L|]); cbn [star_loop].
  - simpl in R.
    assert (Est : jump [] post st = st) by (rewrite <- R; apply jump_nil).
    rewrite Est in K. rewrite run_chr_stop by now rewrite R. exact K.
  - inversion F; subst. simpl in R.
    rewrite (run_chr_step p st _ c (w ++ post) R H1).
    assert (P : progress st (step c (w ++ post) st) = true).
    { unfold progress. cbn [rest step]. rewrite R.
      apply Nat.ltb_lt. simpl. lia. }
    rewrite P.
    rewrite (IH post (step c (w ++ post) st) n H2 E eq_refl); [reflexivity| |].
    + simpl in L. lia.
    + rewrite step_jump, (jump_jump [c] w). exact K.
Qed.

Lemma run_star_greedy p k out w post st :
  Forall (fun c => p c = true) w -> class_ends p post ->
  rest st = w ++ post ->
  k (jump w post st) = Some out ->
  run (Star true (Chr p)) st k = Some out.
Proof.
  intros F E R K.
  change (run (Star true (Chr p)) st k)
    with (star_loop (run (Chr p)) true k (S (length (rest st))) st).
  apply (star_greedy_chr p k out w post); auto.
  rewrite R, length_app. lia.
Qed.

Lemma run_plus_greedy p k out w post st :
  w <> [] -> Forall (fun c => p c = true) w -> class_ends p post ->
  rest st = w ++ post ->
  k (jump w post st) = Some out ->
  run (Plus (Chr p)) st k = Some out.
Proof.
  intros NE F E R K. destruct w as [|c w]; [now elim NE|].
  inversion F; subst. unfold Plus. simpl in R.
  change (run (Cat (Chr p) (Star true (Chr p))) st k)
    with (run (Chr p) st (fun st1 => run (Star true (Chr p)) st1 k)).
  rewrite (run_chr_step p st _ c (w ++ post) R H1).
  apply (run_star_greedy p k out w post); auto.
  rewrite step_jump, (jump_jump [c] w). exact K.
Qed.

Lemma run_Lit l : forall post st k,
  rest st = l ++ post -> run (Lit l) st k = k (jump l post st).
Proof.
  intros post st k R. rewrite run_Lit_cases, R, startswith_prefix.
  f_equal. f_equal. clear R. induction l; [reflexivity | assumption].
Qed.

Lemma search_from_first r bef rst e :
  run r (MState bef rst []) Some = Some e ->
  search_from r bef rst = Some (Match (MState bef rst []) e).
Proof. intros H. destruct rst; simpl; now rewrite H. Qed.

End ReFacts.

(* ================================================================= *)
(** ** Facts on the [str] builtins *)

Module PyFacts.

Lemma str_eqb_eq a : forall b, str_eqb a b = true <-> a = b.
Proof.
  induction a as [|x a IH]; intros [|y b]; simpl; split; try easy.
  - intros H. apply andb_true_iff in H. destruct H as (H1 & H2).
    apply Ascii.eqb_eq in H1. apply IH in H2. now subst.
  - intros H. inversion H; subst. rewrite Ascii.eqb_refl. now apply IH.
Qed.

Lemma str_eqb_refl a : str_eqb a a = true.
Proof. now apply str_eqb_eq. Qed.

(** [startswith] and [contains] against splitting the subject. *)
Lemma startswith_app p : forall s, startswith p s = true <-> exists t, s = p ++ t.
Proof.
  induction p as [|a p IH]; intros s; simpl.
  - split; eauto.
  - destruct s as [|b s]; split.
    + discriminate.
    + intros (t & H); discriminate.
    + intros H. apply andb_true_iff in H. destruct H as (H1 & H2).
      apply Ascii.eqb_eq in H1. apply IH in H2. destruct H2 as (t & ->).
      subst. eauto.
    + intros (t & H). inversion H; subst. rewrite Ascii.eqb_refl.
      apply IH. eauto.
Qed.

Lemma contains_app sub : forall s,
  contains sub s = true <-> exists a b, s = a ++ sub ++ b.
Proof.
  induction s as [|c s IH].
  - simpl. rewrite orb_false_r. rewrite startswith_app. split.
    + intros (t & H). exists [], t. exact H.
    + intros (a & b & H). destruct a; [simpl in H; eauto|discriminate].
  - cbn [contains]. rewrite orb_true_iff, startswith_app, IH. split.
    + intros [(t & H)|(a & b & H)].
      * exists [], t. exact H.
      * exists (c :: a), b. now rewrite H.
    + intros (a & b & H). destruct a as [|x a]; simpl in H.
      * left; eauto.
      * right. inversion H; subst. eauto.
Qed.

(** Every piece of [split_nl] sits between a line start and a line end. *)
Lemma split_nl_lines s : forall l0 ls,
  split_nl s = l0 :: ls ->
  (exists post, s = l0 ++ post
     /\ (post = [] \/ exists t, post = NL :: t)
     /\ Forall (fun c => negb (Ascii.eqb c NL) = true) l0)
  /\ (forall l, In l ls ->
        exists p post, s = (p ++ [NL]) ++ l ++ post
          /\ (post = [] \/ exists t, post = NL :: t)
          /\ Forall (fun c => negb (Ascii.eqb c NL) = true) l).
Proof.
  induction s as [|c s IH]; intros l0 ls H; simpl in H.
  - inversion H; subst. split; [|intros l []].
    exists []. auto.
  - destruct (Ascii.eqb c NL) eqn:E.
    + apply Ascii.eqb_eq in E; subst c. inversion H; subst; clear H.
      split.
      * exists (NL :: s). simpl. repeat split; eauto.
      * intros l Hl. destruct (split_nl s) as [|l1 ls1] eqn:S; [easy|].
        destruct (IH l1 ls1 eq_refl) as ((post & E1 & L1 & N1) & IH2).
        destruct Hl as [<-|Hl].
        -- exists [], post. simpl. rewrite E1. auto.
        -- destruct (IH2 l Hl) as (p & post' & E2 & L2 & N2).
           exists (NL :: p), post'. simpl. rewrite E2. auto.
    + destruct (split_nl s) as [|l1 ls1] eqn:S.
      * inversion H; subst. split; [|intros l []].
        exfalso. clear -S. destruct s; simpl in S; [discriminate|].
        destruct (Ascii.eqb a NL); [discriminate|].
        destruct (split_nl s); discriminate.
      * inversion H; subst; clear H.
        destruct (IH l1 ls eq_refl) as ((post & E1 & L1 & N1) & IH2).
        split.
        -- exists post. simpl. rewrite E1. repeat split; auto.
           constructor; [now rewrite E | exact N1].
        -- intros l Hl. destruct (IH2 l Hl) as (p & post' & E2 & L2 & N2).
           exists (c :: p), post'. simpl. rewrite E2. auto.
Qed.

Lemma split_nl_in s l :
  In l (split_nl s) ->
  exists pre post, s = pre ++ l ++ post
    /\ (pre = [] \/ exists p, pre = p ++ [NL])
    /\ (post = [] \/ exists t, post = NL :: t)
    /\ Forall (fun c => negb (Ascii.eqb c NL) = true) l.
Proof.
  destruct (split_nl s) as [|l0 ls] eqn:S; [easy|].
  destruct (split_nl_lines s l0 ls S) as ((post & E1 & L1 & N1) & H2).
  intros [<-|Hl].
  - exists [], post. auto.
  - destruct (H2 l Hl) as (p & post' & E2 & L2 & N2).
    exists (p ++ [NL]), post'. eauto 8.
Qed.

(** [len(set(ws)) == len(ws)] says that [ws] has no duplicate. *)
Lemma nodup_length_le (l : list N) : length (nodup N.eq_dec l) <= length l.
Proof.
  induction l as [|a l IH]; simpl; [lia|].
  destruct (in_dec N.eq_dec a l); simpl; lia.
Qed.

Lemma nodup_length_iff (l : list N) :
  length (nodup N.eq_dec l) = length l <-> NoDup l.
Proof.
  split.
  - induction l as [|a l IH]; simpl; [constructor|].
    destruct (in_dec N.eq_dec a l) as [HI|HI]; simpl; intros H.
    + pose proof (nodup_length_le l). lia.
    + constructor; [exact HI | apply IH; lia].
  - intros H. now rewrite nodup_fixed_point.
Qed.

Lemma int_within d : within_limit d -> int d = Ok (int_of_digits d).
Proof.
  unfold within_limit, int. intros H.
  apply N.ltb_ge in H. now rewrite H.
Qed.

Lemma int_beyond d :
  ~ within_limit d -> int d = Raise (too_many_digits (length d)).
Proof.
  unfold within_limit, int. intros H.
  apply N.nle_gt, N.ltb_lt in H. now rewrite H.
Qed.

End PyFacts.

(* ================================================================= *)
(** ** Facts on the configuration validator *)

Module ConfigFacts.

Import Re ReFacts Config.

Lemma at_bol_line_start pre post gs :
  at_bol true (MState (rev pre) post gs) = true <-> line_start pre.
Proof.
  unfold at_bol, line_start; simpl. split.
  - destruct (rev pre) as [|c l] eqn:E.
    + intros _. left. apply (f_equal (@rev ascii)) in E.
      now rewrite rev_involutive in E.
    + simpl. intros H. apply Ascii.eqb_eq in H; subst c. right.
      exists (rev l). apply (f_equal (@rev ascii)) in E.
      now rewrite rev_involutive in E.
  - intros [->|(p & ->)]; [reflexivity|].
    rewrite rev_app_distr. reflexivity.
Qed.

Lemma at_eol_line_end st : at_eol true st = true <-> line_end (rest st).
Proof.
  unfold at_eol, line_end. destruct (rest st) as [|c tl]; split.
  - now left.
  - reflexivity.
  - rewrite andb_true_r. intros H. apply Ascii.eqb_eq in H; subst. right; eauto.
  - intros [H|(t & H)]; [discriminate|]. inversion H; subst. reflexivity.
Qed.

(** The test of [validate_required_fields] succeeds exactly on the texts
    that assign the field. *)
Lemma required_present_iff field content :
  search (required_pattern field) content <> None
  <-> field_assigned field content.
Proof.
  split.
  - destruct (search _ _) as [m|] eqn:S; [intros _ | now intros H; elim H].
    apply search_sound in S. destruct S as (pre & post0 & -> & St & M).
    rewrite St in M. clear St. unfold required_pattern in M.
    apply matches_cat_inv in M. destruct M as (s1 & M1 & M).
    apply matches_bol_inv in M1. destruct M1 as (-> & B).
    apply at_bol_line_start in B.
    apply matches_cat_inv in M. destruct M as (s2 & M2 & M).
    apply matches_star_chr_inv in M2. destruct M2 as (ws1 & p1 & F1 & R1 & ->).
    apply matches_cat_inv in M. destruct M as (s3 & M3 & M).
    apply matches_Lit_inv in M3. destruct M3 as (p2 & R2 & ->).
    apply matches_cat_inv in M. destruct M as (s4 & M4 & M).
    apply matches_star_chr_inv in M4. destruct M4 as (ws2 & p3 & F2 & R3 & ->).
    apply matches_cat_inv in M. destruct M as (s5 & M5 & M).
    apply matches_chr_inv in M5. destruct M5 as (c & p4 & R4 & E & ->).
    apply Ascii.eqb_eq in E; subst c.
    apply matches_cat_inv in M. destruct M as (s6 & M6 & M).
    apply matches_star_chr_inv in M6. destruct M6 as (ws3 & p5 & F3 & R5 & ->).
    apply matches_cat_inv in M. destruct M as (s7 & M7 & M).
    apply matches_plus_chr_inv in M7.
    destruct M7 as (value & p6 & NE & F4 & R6 & ->).
    apply matches_eol_inv in M. destruct M as (_ & L).
    apply at_eol_line_end in L. simpl in *.
    exists pre, ws1, ws2, ws3, value, p6.
    subst. repeat split; auto.
  - intros (pre & ws1 & ws2 & ws3 & value & post & -> & LS & F1 & F2 & F3
            & NE & F4 & LE).
    eapply search_complete.
    unfold required_pattern.
    eapply M_cat; [apply M_bol; now apply at_bol_line_start|].
    eapply M_cat; [apply (matches_star_chr_intro true isspace ws1);
                   [exact F1 | reflexivity]|].
    eapply M_cat; [apply (matches_Lit_intro field); reflexivity|].
    eapply M_cat; [apply (matches_star_chr_intro true isspace ws2);
                   [exact F2 | reflexivity]|].
    eapply M_cat; [apply M_chr; [reflexivity | reflexivity]|].
    eapply M_cat; [apply (matches_star_chr_intro true isspace ws3);
                   [exact F3 | reflexivity]|].
    eapply M_cat; [apply (matches_plus_chr_intro _ value post);
                   [exact NE | exact F4 | reflexivity]|].
    apply M_eol. now apply at_eol_line_end.
Qed.

(** *** Each rule appends its findings and leaves the text alone *)

Lemma extend_nil v : extend v [] = v.
Proof. destruct v; unfold extend; simpl. now rewrite app_nil_r. Qed.

Lemma append_extend r v : append r v = extend v [r].
Proof. reflexivity. Qed.

Lemma extend_extend v a b : extend (extend v a) b = extend v (a ++ b).
Proof. unfold extend; simpl. now rewrite app_assoc. Qed.

Lemma check_required_extend v fr :
  check_required v fr = extend v [required_finding (config_content v) fr].
Proof.
  unfold check_required, required_finding. destruct fr as (field, reason).
  destruct (search _ _); reflexivity.
Qed.

Lemma validate_required_fields_extend v :
  validate_required_fields v
  = extend v (map (required_finding (config_content v)) required_fields).
Proof.
  unfold validate_required_fields, required_fields.
  cbn [fold_left map].
  rewrite !check_required_extend. cbn [extend config_content].
  rewrite !extend_extend. reflexivity.
Qed.

Lemma validate_security_settings_extend v :
  validate_security_settings v
  = extend v (security_findings (config_content v)).
Proof.
  unfold validate_security_settings, security_findings.
  destruct (contains "unsafe = true" (config_content v));
    cbn [config_content append];
    destruct (contains "rel=" (config_content v)); cbn [andb];
    try destruct (_ || _);
    rewrite ?append_extend, ?extend_extend; cbn [app];
    rewrite ?extend_nil; reflexivity.
Qed.

Lemma check_defensive_extend v fr :
  check_defensive v fr = extend v [defensive_finding (config_content v) fr].
Proof.
  unfold check_defensive, defensive_finding. destruct fr as (field, reason).
  destruct (search _ _); reflexivity.
Qed.

Lemma validate_defensive_defaults_extend v :
  validate_defensive_defaults v
  = extend v (map (defensive_finding (config_content v)) defensive_checks).
Proof.
  unfold validate_defensive_defaults, defensive_checks.
  cbn [fold_left map].
  rewrite !check_defensive_extend. cbn [extend config_content].
  rewrite !extend_extend. reflexivity.
Qed.

Lemma validate_menu_structure_extend v :
  validate_menu_structure v
  = match menu_weights (config_content v) with
    | Ok _ => Ok (extend v (menu_findings (config_content v)))
    | Raise e => Raise e
    end.
Proof.
  unfold validate_menu_structure, menu_findings.
  destruct (menu_weights (config_content v)) as [[|w ws]|e]; cbn [bind];
    [now rewrite extend_nil| |reflexivity].
  destruct (Nat.eqb _ _); reflexivity.
Qed.

Lemma validate_accessibility_extend v :
  validate_accessibility v
  = extend v (accessibility_findings (config_content v)).
Proof.
  unfold validate_accessibility, accessibility_findings.
  destruct (_ || _); cbn [config_content append];
    destruct (search _ _);
    rewrite ?append_extend, ?extend_extend; cbn [app];
    rewrite ?extend_nil; reflexivity.
Qed.

Lemma run_rules_extend v :
  run_rules v
  = (extend v (findings (config_content v)),
     match menu_weights (config_content v) with
     | Ok _ => Ok tt
     | Raise e => Raise e
     end).
Proof.
  unfold run_rules, findings.
  rewrite validate_required_fields_extend.
  rewrite validate_security_settings_extend. cbn [extend config_content].
  rewrite validate_defensive_defaults_extend. cbn [extend config_content].
  rewrite validate_menu_structure_extend. cbn [extend config_content].
  destruct (menu_weights (config_content v)) as [ws|e] eqn:W.
  - rewrite validate_accessibility_extend. cbn [extend config_content].
    unfold extend. cbn [config_path config_content results].
    now rewrite <- !app_assoc.
  - unfold menu_findings. rewrite W.
    unfold extend. cbn [config_path config_content results].
    now rewrite <- !app_assoc.
Qed.

(** The run on a text that loads. *)
Lemma main_loaded repo_root argv fs content :
  path_exists fs (target_path repo_root argv) = Ok true ->
  read_text fs (target_path repo_root argv) = Ok content ->
  main repo_root argv fs
  = ({| config_path := target_path repo_root argv;
        config_content := content;
        results := findings content |},
     loaded_status content).
Proof.
  intros He Hr. unfold main, loaded_status.
  unfold validate, load_config. cbn [init config_path].
  rewrite He, Hr. cbn [negb].
  rewrite run_rules_extend. cbn [config_content set_content].
  destruct (menu_weights content); reflexivity.
Qed.

(** The exception that escapes the run on a text that loads is the one
    the menu rule raises. *)
Lemma uncaught_loaded repo_root argv fs content :
  path_exists fs (target_path repo_root argv) = Ok true ->
  read_text fs (target_path repo_root argv) = Ok content ->
  uncaught repo_root argv fs
  = match menu_weights content with
    | Ok _ => None
    | Raise e => Some e
    end.
Proof.
  intros He Hr. unfold uncaught.
  unfold validate, load_config. cbn [init config_path].
  rewrite He, Hr. cbn [negb].
  rewrite run_rules_extend. cbn [config_content set_content].
  destruct (menu_weights content); reflexivity.
Qed.

Lemma loaded_status_returns content ws :
  menu_weights content = Ok ws ->
  loaded_status content
  = exit_code (negb (existsb unmet_error (findings content))).
Proof. unfold loaded_status. now intros ->. Qed.

(** *** Where the findings of each severity come from *)

Lemma findings_errors content r :
  In r (findings content) -> severity r = error ->
  exists fr, In fr required_fields
             /\ search (required_pattern (fst fr)) content = None
             /\ r = required_finding content fr.
Proof.
  unfold findings. rewrite !in_app_iff.
  intros [H|[H|[H|[H|H]]]] E.
  - apply in_map_iff in H. destruct H as ((f, reason) & <- & Hin).
    exists (f, reason). split; [exact Hin|]. split; [|reflexivity].
    simpl. unfold required_finding in E.
    destruct (search _ _); [discriminate E | reflexivity].
  - exfalso. unfold security_findings in H. apply in_app_iff in H.
    destruct H as [H|H];
      [destruct (contains _ _) | destruct (_ && _)];
      simpl in H; try contradiction;
      destruct H as [<-|[]]; discriminate E.
  - exfalso. apply in_map_iff in H. destruct H as ((f, reason) & <- & _).
    unfold defensive_finding in E. destruct (search _ _); discriminate E.
  - exfalso. unfold menu_findings in H.
    destruct (menu_weights content) as [[|w ws]|e]; try contradiction.
    destruct (Nat.eqb _ _); destruct H as [<-|[]]; discriminate E.
  - exfalso. destruct (menu_weights content); [|contradiction].
    unfold accessibility_findings in H. apply in_app_iff in H.
    destruct H as [H|H];
      [destruct (_ || _) | destruct (search _ _)];
      simpl in H; try contradiction;
      destruct H as [<-|[]]; discriminate E.
Qed.

Lemma findings_duplicate_warnings content :
  filter is_duplicate_warning (findings content)
  = filter is_duplicate_warning (menu_findings content).
Proof.
  unfold findings. rewrite !filter_app.
  assert (R : filter is_duplicate_warning
                (map (required_finding content) required_fields) = []).
  { unfold required_fields, required_finding. cbn [map].
    repeat destruct (search _ _); reflexivity. }
  assert (S : filter is_duplicate_warning (security_findings content) = []).
  { unfold security_findings.
    destruct (contains _ _); destruct (_ && _); reflexivity. }
  assert (D : filter is_duplicate_warning
                (map (defensive_finding content) defensive_checks) = []).
  { unfold defensive_checks, defensive_finding. cbn [map].
    repeat destruct (search _ _); reflexivity. }
  assert (A : filter is_duplicate_warning
                match menu_weights content with
                | Ok _ => accessibility_findings content
                | Raise _ => []
                end = []).
  { destruct (menu_weights content); [|reflexivity].
    unfold accessibility_findings.
    destruct (_ || _); destruct (search _ _); reflexivity. }
  rewrite R, S, D, A. cbn [app]. now rewrite app_nil_r.
Qed.

Lemma exit_code_pass_iff ok : exit_code ok = 0%Z <-> ok = true.
Proof. destruct ok; simpl; split; congruence. Qed.

Lemma exit_code_fail_iff ok : exit_code ok = 1%Z <-> ok = false.
Proof. destruct ok; simpl; split; congruence. Qed.

Lemma not_assigned_search field content :
  ~ field_assigned field content ->
  search (required_pattern field) content = None.
Proof.
  intros H. destruct (search _ _) eqn:E; [|reflexivity].
  exfalso. apply H. apply required_present_iff. rewrite E. discriminate.
Qed.

Lemma line_assigns field value content :
  value <> [] ->
  In (field ++ " = " ++ value) (split_nl content) ->
  field_assigned field content.
Proof.
  intros NE H. apply PyFacts.split_nl_in in H.
  destruct H as (pre & post & E & LS & LE & NN).
  exists pre, [], [" "%char], [" "%char], value, post.
  split; [rewrite E; now rewrite <- !app_assoc|].
  split; [exact LS|]. split; [constructor|].
  split; [repeat constructor|]. split; [repeat constructor|].
  split; [exact NE|]. split; [|exact LE].
  apply Forall_app in NN. destruct NN as (_ & NN).
  apply Forall_app in NN. now destruct NN as (_ & NN).
Qed.

Lemma one_file_loads path text :
  path_exists (one_file path text) path = Ok true
  /\ read_text (one_file path text) path = Ok text.
Proof. unfold one_file; simpl. now rewrite PyFacts.str_eqb_refl. Qed.

End ConfigFacts.

(* ================================================================= *)
(** ** The menu rule reads the declared weights *)

Module MenuFacts.

Import Re ReFacts Config ConfigFacts MenuText.

(** *** The blocks *)

Lemma lookahead_cases st k :
  run (Ahead (Alt (Lit header) (Eol false))) st k
  = if block_ends (rest st) then k st else None.
Proof.
  cbn [run]. rewrite run_Lit_cases. unfold block_ends, at_eol.
  destruct (startswith header (rest st)); [reflexivity|]. cbn [orb].
  destruct (rest st) as [|c [|d tl]]; try reflexivity.
  - cbn [orb]. rewrite andb_true_r. destruct (Ascii.eqb c NL); reflexivity.
  - cbn [orb]. rewrite andb_false_r. reflexivity.
Qed.

Lemma block_ends_nil s : block_ends s = true -> block s = [].
Proof. destruct s; simpl; [reflexivity|]. now intros ->. Qed.

Lemma block_more c tl :
  block_ends (c :: tl) = false -> block (c :: tl) = c :: block tl.
Proof. simpl. now intros ->. Qed.

(** The lazy repetition stops at the first place where the block ends. *)
Lemma lazy_block F K :
  (forall st, K st = if block_ends (rest st) then Some (F st) else None) ->
  forall n st, length (rest st) < n ->
  star_loop (run DotAll) false K n st
  = Some (F (jump (block (rest st))
                  (skipn (length (block (rest st))) (rest st)) st)).
Proof.
  intros HK. induction n as [|n IH]; intros st L; [lia|].
  cbn [star_loop]. rewrite HK.
  destruct (block_ends (rest st)) eqn:B.
  - rewrite (block_ends_nil _ B). cbn [length skipn]. now rewrite jump_nil.
  - destruct (rest st) as [|c tl] eqn:R; [discriminate B|].
    rewrite (block_more _ _ B). unfold DotAll.
    rewrite (run_chr_step _ st _ c tl R eq_refl).
    assert (P : progress st (step c tl st) = true).
    { unfold progress. cbn [rest step]. rewrite R.
      apply Nat.ltb_lt. simpl. lia. }
    rewrite P. fold DotAll. rewrite IH by (cbn [rest step]; simpl in L; lia).
    cbn [rest step length skipn]. rewrite step_jump, (jump_jump [c]).
    reflexivity.
Qed.

Lemma run_menu_pattern st :
  run menu_pattern st Some
  = if startswith header (rest st) then Some (menu_end st) else None.
Proof.
  change (run menu_pattern st Some)
    with (run (Lit header) st
            (fun st1 =>
               star_loop (run DotAll) false
                 (fun st2 =>
                    run (Ahead (Alt (Lit header) (Eol false)))
                        (set_group 1 (span st1 st2) st2) Some)
                 (S (length (rest st1))) st1)).
  rewrite run_Lit_cases.
  destruct (startswith header (rest st)); [|reflexivity].
  set (st1 := jump header (skipn (length header) (rest st)) st).
  rewrite (lazy_block (fun st2 => set_group 1 (span st1 st2) st2)).
  - rewrite span_jump. unfold menu_end, st1. cbn [rest jump].
    now rewrite jump_jump.
  - intros st2. now rewrite lookahead_cases.
  - lia.
Qed.

Lemma blocks_skip_block : forall r,
  blocks r = blocks (skipn (length (block r)) r).
Proof.
  induction r as [|c tl IH]; [reflexivity|].
  destruct (block_ends (c :: tl)) eqn:B.
  - now rewrite (block_ends_nil _ B).
  - rewrite (block_more _ _ B). cbn [length skipn]. rewrite <- IH.
    cbn [blocks]. unfold block_ends in B. apply orb_false_iff in B.
    destruct B as (-> & _). reflexivity.
Qed.

Lemma blocks_header r :
  blocks (header ++ r) = block r :: blocks (skipn (length (block r)) r).
Proof.
  rewrite <- blocks_skip_block. reflexivity.
Qed.

Lemma skipn_shorter {A} n (l : list A) : length (skipn n l) <= length l.
Proof. rewrite length_skipn. lia. Qed.

Lemma finditer_menu : forall fuel rst bef,
  length rst < fuel ->
  map (group 1) (finditer_from fuel menu_pattern bef rst) = blocks rst.
Proof.
  induction fuel as [|f IHf]; intros rst bef L; [lia|].
  cbn [finditer_from].
  revert bef L. induction rst as [|c tl IH]; intros bef L.
  - cbn [search_from]. rewrite run_menu_pattern. reflexivity.
  - cbn [search_from]. rewrite run_menu_pattern. cbn [rest].
    destruct (startswith header (c :: tl)) eqn:S.
    + pose proof (startswith_split _ _ S) as E.
      set (r := skipn (length header) (c :: tl)) in *.
      pose proof (f_equal (@length ascii) E) as Len.
      rewrite length_app in Len.
      pose proof (skipn_shorter (length (block r)) r) as Sh.
      cbn [m_start m_end map].
      assert (P : progress (MState bef (c :: tl) []) (menu_end (MState bef (c :: tl) []))
                  = true).
      { unfold progress, menu_end. cbn [rest set_group jump]. fold r.
        apply Nat.ltb_lt. simpl in *. lia. }
      rewrite P. rewrite IHf.
      * unfold group, menu_end.
        cbn [m_end rest set_group jump groups lookup_group Nat.eqb]. fold r.
        rewrite E. now rewrite blocks_header.
      * unfold menu_end. cbn [rest set_group jump]. fold r.
        simpl in *. lia.
    + rewrite IH by (simpl in L; lia). cbn [blocks]. now rewrite S.
Qed.

Lemma findall_menu content : findall menu_pattern content = blocks content.
Proof. unfold findall, finditer. apply finditer_menu. lia. Qed.


(** *** The weight of a block *)

Lemma digit_not_space c : isdigit c = true -> isspace c = false.
Proof.
  destruct c as [[] [] [] [] [] [] [] []]; vm_compute; congruence.
Qed.

Lemma lstrip_split : forall s,
  exists ws, s = ws ++ lstrip s
             /\ Forall (fun c => isspace c = true) ws
             /\ class_ends isspace (lstrip s).
Proof.
  induction s as [|c tl IH].
  - exists []. repeat split. constructor.
  - cbn [lstrip]. destruct (isspace c) eqn:E.
    + destruct IH as (ws & E1 & F & C). exists (c :: ws).
      split; [simpl; now rewrite <- E1|]. split; [now constructor | exact C].
    + exists []. repeat split; [constructor | exact E].
Qed.

Lemma lstrip_spaces ws s :
  Forall (fun c => isspace c = true) ws -> class_ends isspace s ->
  lstrip (ws ++ s) = s.
Proof.
  induction 1 as [|c ws Hc _ IH]; intros C.
  - destruct s as [|c tl]; [reflexivity|]. simpl in *. now rewrite C.
  - simpl. rewrite Hc. now apply IH.
Qed.

Lemma take_digits_split : forall s,
  exists post, s = take_digits s ++ post
               /\ Forall (fun c => isdigit c = true) (take_digits s)
               /\ class_ends isdigit post.
Proof.
  induction s as [|c tl IH].
  - exists []. repeat split. constructor.
  - cbn [take_digits]. destruct (isdigit c) eqn:E.
    + destruct IH as (post & E1 & F & C). exists post.
      split; [simpl; now rewrite <- E1|]. split; [now constructor | exact C].
    + exists (c :: tl). repeat split; [constructor | exact E].
Qed.

(** The weight pattern, tried at [st], finds the weight written there. *)
Lemma run_weight_here st d :
  weight_here (rest st) = Some d ->
  exists e, run weight_pattern st Some = Some e
            /\ lookup_group 1 (groups e) = d.
Proof.
  unfold weight_here. destruct (startswith "weight" (rest st)) eqn:S;
    [|discriminate].
  apply startswith_split in S. set (r1 := skipn (length ("weight" : str)) (rest st)) in *.
  change (skipn 6 (rest st)) with r1.
  destruct (lstrip_split r1) as (ws1 & E1 & F1 & C1).
  destruct (lstrip r1) as [|c tl]; [discriminate|].
  destruct (Ascii.eqb c "=") eqn:Ec; [|discriminate].
  apply Ascii.eqb_eq in Ec. subst c.
  destruct (lstrip_split tl) as (ws2 & E2 & F2 & C2).
  destruct (take_digits_split (lstrip tl)) as (post & E3 & F3 & C3).
  destruct (take_digits (lstrip tl)) as [|d0 ds] eqn:D; [discriminate|].
  intros X. inversion X; subst d. clear X.
  assert (C2' : class_ends isspace ((d0 :: ds) ++ post)).
  { simpl. apply digit_not_space. now inversion F3. }
  eexists. split.
  - unfold weight_pattern.
    change (run (Cat (Lit "weight") ?r) st Some)
      with (run (Lit "weight") st (fun st1 => run r st1 Some)).
    rewrite run_Lit_cases.
    replace (startswith "weight" (rest st)) with true
      by (rewrite S; symmetry; apply startswith_prefix).
    fold r1.
    match goal with
    | |- run (Cat (Star true Space) ?r) ?s Some = _ =>
        change (run (Cat (Star true Space) r) s Some)
          with (run (Star true (Chr isspace)) s (fun st1 => run r st1 Some))
    end.
    eapply (run_star_greedy isspace _ _ ws1 ("="%char :: tl));
      [exact F1 | reflexivity | exact E1 |].
    match goal with
    | |- run (Cat (Ch "=") ?r) ?s Some = _ =>
        change (run (Cat (Ch "=") r) s Some)
          with (run (Chr (Ascii.eqb "=")) s (fun st1 => run r st1 Some))
    end.
    erewrite (run_chr_step _ _ _ "="%char tl); [|reflexivity|reflexivity].
    match goal with
    | |- run (Cat (Star true Space) ?r) ?s Some = _ =>
        change (run (Cat (Star true Space) r) s Some)
          with (run (Star true (Chr isspace)) s (fun st1 => run r st1 Some))
    end.
    eapply (run_star_greedy isspace _ _ ws2 ((d0 :: ds) ++ post));
      [exact F2 | exact C2' | cbn [rest step]; now rewrite <- E3 |].
    match goal with
    | |- run (Grp 1 (Plus Digit)) ?s Some = _ =>
        change (run (Grp 1 (Plus Digit)) s Some)
          with (run (Plus (Chr isdigit)) s
                  (fun st1 => Some (set_group 1 (span s st1) st1)))
    end.
    eapply (run_plus_greedy isdigit _ _ (d0 :: ds) post);
      [discriminate | exact F3 | exact C3 | reflexivity | reflexivity].
  - cbn [set_group groups lookup_group Nat.eqb]. apply span_jump.
Qed.

Lemma weight_here_written ws1 ws2 w post :
  Forall (fun c => isspace c = true) ws1 ->
  Forall (fun c => isspace c = true) ws2 ->
  w <> [] -> Forall (fun c => isdigit c = true) w ->
  weight_here ("weight" ++ ws1 ++ "=" ++ ws2 ++ w ++ post) <> None.
Proof.
  intros F1 F2 NE F3. unfold weight_here.
  rewrite startswith_prefix.
  change (skipn 6 ("weight" ++ ws1 ++ "=" ++ ws2 ++ w ++ post))
    with (ws1 ++ "="%char :: ws2 ++ w ++ post).
  rewrite (lstrip_spaces ws1) by (auto; reflexivity).
  cbn [Ascii.eqb Bool.eqb andb].
  destruct w as [|d0 ds]; [now elim NE|]. inversion F3; subst.
  rewrite (lstrip_spaces ws2) by (auto; simpl; now apply digit_not_space).
  simpl. rewrite H1. discriminate.
Qed.

Lemma run_weight_none st :
  weight_here (rest st) = None -> run weight_pattern st Some = None.
Proof.
  intros W. destruct (run weight_pattern st Some) as [e|] eqn:E;
    [exfalso | reflexivity].
  apply run_sound in E. destruct E as (st' & M & _).
  unfold weight_pattern in M.
  apply matches_cat_inv in M. destruct M as (s1 & M1 & M).
  apply matches_Lit_inv in M1. destruct M1 as (p1 & R1 & ->).
  apply matches_cat_inv in M. destruct M as (s2 & M2 & M).
  apply matches_star_chr_inv in M2. destruct M2 as (ws1 & p2 & F1 & R2 & ->).
  apply matches_cat_inv in M. destruct M as (s3 & M3 & M).
  apply matches_chr_inv in M3. destruct M3 as (c & p3 & R3 & Ec & ->).
  apply Ascii.eqb_eq in Ec. subst c.
  apply matches_cat_inv in M. destruct M as (s4 & M4 & M).
  apply matches_star_chr_inv in M4. destruct M4 as (ws2 & p4 & F2 & R4 & ->).
  apply matches_grp_inv in M. destruct M as (s5 & M5 & _).
  apply matches_plus_chr_inv in M5. destruct M5 as (w & p5 & NE & F3 & R5 & _).
  simpl in *. subst.
  rewrite R1 in W. revert W.
  apply (weight_here_written ws1 ws2 w p5); assumption.
Qed.

(** [re.search] of the weight pattern finds the first weight. *)
Lemma search_weight : forall s bef,
  match search_from weight_pattern bef s with
  | Some m => first_weight s = Some (group 1 m)
  | None => first_weight s = None
  end.
Proof.
  assert (Here : forall s bef,
            match run weight_pattern (MState bef s []) Some with
            | Some e => weight_here s = Some (lookup_group 1 (groups e))
            | None => weight_here s = None
            end).
  { intros s bef. destruct (weight_here s) as [d|] eqn:W.
    - destruct (run_weight_here (MState bef s []) d W) as (e & -> & G).
      now rewrite G.
    - now rewrite (run_weight_none (MState bef s []) W). }
  induction s as [|c tl IH]; intros bef.
  - specialize (Here [] bef). cbn [search_from first_weight].
    destruct (run weight_pattern _ Some); [|now rewrite Here].
    rewrite Here. reflexivity.
  - specialize (Here (c :: tl) bef). cbn [search_from first_weight].
    destruct (run weight_pattern _ Some).
    + rewrite Here. reflexivity.
    + rewrite Here. apply IH.
Qed.

(** *** The weights of a text *)

Lemma add_weight_block acc b :
  add_weight acc b
  = match first_weight b with
    | Some d => convert acc d
    | None => acc
    end.
Proof.
  unfold add_weight, convert, search.
  pose proof (search_weight b []) as H.
  destruct (search_from weight_pattern [] b) as [m|]; rewrite H;
    destruct acc; reflexivity.
Qed.

Lemma fold_add_weight bs : forall acc,
  fold_left add_weight bs acc
  = fold_left convert
      (flat_map (fun b => match first_weight b with
                          | Some d => [d]
                          | None => []
                          end) bs) acc.
Proof.
  induction bs as [|b bs IH]; intros acc; [reflexivity|].
  cbn [fold_left flat_map]. rewrite fold_left_app, IH, add_weight_block.
  destruct (first_weight b); reflexivity.
Qed.

(** The loop of the rule converts the declared weights one by one. *)
Lemma menu_weights_declared content :
  menu_weights content = fold_left convert (declared_weights content) (Ok []).
Proof.
  unfold menu_weights, declared_weights.
  now rewrite findall_menu, fold_add_weight.
Qed.

Lemma convert_raise ds : forall e, fold_left convert ds (Raise e) = Raise e.
Proof. induction ds as [|d ds IH]; intros e; [reflexivity | apply IH]. Qed.

Lemma convert_within ds : forall ws,
  Forall within_limit ds ->
  fold_left convert ds (Ok ws) = Ok (ws ++ map int_of_digits ds).
Proof.
  induction ds as [|d ds IH]; intros ws F.
  - simpl. now rewrite app_nil_r.
  - inversion F; subst. cbn [fold_left map]. unfold convert at 2.
    cbn [bind]. rewrite (PyFacts.int_within d) by assumption. cbn [bind].
    rewrite IH by assumption. now rewrite <- app_assoc.
Qed.

Lemma convert_beyond ds : forall ws,
  ~ Forall within_limit ds ->
  exists e, fold_left convert ds (Ok ws) = Raise e.
Proof.
  induction ds as [|d ds IH]; intros ws F.
  - exfalso. apply F. constructor.
  - cbn [fold_left]. unfold convert at 2. cbn [bind].
    destruct (N.le_gt_cases (N.of_nat (length d)) MAX_STR_DIGITS) as [W|W].
    + rewrite (PyFacts.int_within d W). cbn [bind]. apply IH.
      intros F'. apply F. now constructor.
    + rewrite (PyFacts.int_beyond d) by (unfold within_limit; lia).
      cbn [bind]. eexists. apply convert_raise.
Qed.

(** The rule returns exactly when every declared weight is within the
    limit of [int], and the weights are then the values declared. *)
Lemma menu_weights_returns content :
  Forall within_limit (declared_weights content) ->
  menu_weights content = Ok (weight_values content).
Proof.
  intros F. rewrite menu_weights_declared.
  now rewrite (convert_within _ [] F).
Qed.

Lemma menu_weights_raises content :
  ~ Forall within_limit (declared_weights content) ->
  exists e, menu_weights content = Raise e.
Proof.
  intros F. rewrite menu_weights_declared. now apply convert_beyond.
Qed.

Lemma all_within_limit_iff ds :
  all_within_limit ds = true <-> Forall within_limit ds.
Proof.
  unfold all_within_limit, within_limit. rewrite forallb_forall, Forall_forall.
  split; intros H d Hd; apply N.leb_le; now apply H.
Qed.

Lemma menu_weights_cases content :
  (Forall within_limit (declared_weights content)
   /\ menu_weights content = Ok (weight_values content))
  \/ (~ Forall within_limit (declared_weights content)
      /\ exists e, menu_weights content = Raise e).
Proof.
  assert (D : forall ds, Forall within_limit ds \/ ~ Forall within_limit ds).
  { induction ds as [|d ds [IH|IH]].
    - left. constructor.
    - destruct (N.le_gt_cases (N.of_nat (length d)) MAX_STR_DIGITS) as [W|W].
      + left. now constructor.
      + right. intros F. inversion F; subst. unfold within_limit in *. lia.
    - right. intros F. inversion F; subst. now apply IH. }
  destruct (D (declared_weights content)) as [F|F].
  - left. split; [exact F | now apply menu_weights_returns].
  - right. split; [exact F | now apply menu_weights_raises].
Qed.

End MenuFacts.

(* ================================================================= *)
(** ** Statements on the configuration validator *)

Module ConfigSpec.

Import Re ReFacts Config ConfigFacts MenuText MenuFacts ConfigReport.

Lemma loaded_status_within content :
  Forall within_limit (declared_weights content) ->
  loaded_status content
  = exit_code (negb (existsb unmet_error (findings content))).
Proof.
  intros F. apply (loaded_status_returns _ (weight_values content)).
  now apply menu_weights_returns.
Qed.

Lemma loaded_status_beyond content :
  ~ Forall within_limit (declared_weights content) ->
  loaded_status content = 1%Z.
Proof.
  intros F. destruct (menu_weights_raises content F) as (e & E).
  unfold loaded_status. now rewrite E.
Qed.

Lemma no_error_findings content :
  field_assigned "baseURL" content -> field_assigned "title" content ->
  field_assigned "languageCode" content ->
  forall r, In r (findings content) -> severity r <> error.
Proof.
  intros B T L. apply required_present_iff in B, T, L.
  intros r Hin E. apply findings_errors in Hin; [|exact E].
  destruct Hin as (fr & Hfr & Hs & _).
  unfold required_fields in Hfr. simpl in Hfr.
  destruct Hfr as [<-|[<-|[<-|[]]]]; cbn [fst] in Hs;
    [now elim B | now elim T | now elim L].
Qed.

Lemma no_error_no_unmet content :
  (forall r, In r (findings content) -> severity r <> error) ->
  existsb unmet_error (findings content) = false.
Proof.
  intros Hno. destruct (existsb _ _) eqn:E; [|reflexivity].
  apply existsb_exists in E. destruct E as (r & Hin & U).
  exfalso. apply (Hno r Hin).
  unfold unmet_error in U. apply andb_true_iff in U. destruct U as (U & _).
  simpl in U. destruct (severity r); simpl in U; congruence.
Qed.

(** C6.  On a configuration text that loads: when the text does not
    assign [baseURL], the report has an unmet finding of severity [error]
    whose message names [baseURL], and the exit code is 1; when the text has
    the line [baseURL = "https://example.com"], the report has the passed
    [info] finding for [baseURL] and no [error] finding that names it; when
    the text assigns the other two required fields as well, the report has
    no [error] finding at all, and yet the exit code is 0 only when every
    menu weight the text declares has at most 4300 digits: otherwise [int]
    raises in the menu rule and the process ends with status 1. *)
Theorem C6_required_baseURL repo_root argv fs content :
  path_exists fs (target_path repo_root argv) = Ok true ->
  read_text fs (target_path repo_root argv) = Ok content ->
  let report := results (fst (main repo_root argv fs)) in
  let code := snd (main repo_root argv fs) in
  (~ field_assigned "baseURL" content ->
     (exists r, In r report /\ severity r = error /\ passed r = false
                /\ contains "baseURL" (message r) = true)
     /\ code = 1%Z)
  /\
  (In baseURL_line (split_nl content) ->
     In baseURL_present report
     /\ (forall r, In r report -> severity r = error ->
                   contains "baseURL" (message r) = false)
     /\ (field_assigned "title" content ->
         field_assigned "languageCode" content ->
         (forall r, In r report -> severity r <> error)
         /\ (Forall within_limit (declared_weights content) -> code = 0%Z)
         /\ (~ Forall within_limit (declared_weights content) ->
             code = 1%Z))).
Proof.
  intros He Hr report code. subst report code.
  rewrite (main_loaded _ _ _ _ He Hr). cbn [fst snd results].
  split.
  - intros Hmiss. apply not_assigned_search in Hmiss.
    assert (Hin : In (required_finding content
                        ("baseURL" : str,
                         "Base URL must be defined for proper site generation" : str))
                     (findings content)).
    { unfold findings, required_fields. cbn [map]. now left. }
    unfold required_finding in Hin. rewrite Hmiss in Hin.
    split.
    + eexists; split; [exact Hin|]. repeat split.
    + destruct (menu_weights_cases content) as [(F & _)|(F & _)];
        [|now apply loaded_status_beyond].
      rewrite (loaded_status_within _ F).
      apply exit_code_fail_iff. apply negb_false_iff.
      apply existsb_exists. eexists; split; [exact Hin | reflexivity].
  - intros Hline.
    assert (Hb : field_assigned "baseURL" content).
    { apply (line_assigns "baseURL" ([DQUOTE] ++ "https://example.com" ++ [DQUOTE]));
        [discriminate | exact Hline]. }
    pose proof Hb as Hs. apply required_present_iff in Hs.
    split; [|split].
    + unfold findings, required_fields. cbn [map]. left.
      unfold required_finding. destruct (search _ _); [reflexivity | now elim Hs].
    + intros r Hin E. apply findings_errors in Hin; [|exact E].
      destruct Hin as (fr & Hfr & Hn & ->).
      unfold required_fields in Hfr. simpl in Hfr.
      destruct Hfr as [<-|[<-|[<-|[]]]]; cbn [fst] in Hn.
      * now elim Hs.
      * unfold required_finding. rewrite Hn. reflexivity.
      * unfold required_finding. rewrite Hn. reflexivity.
    + intros Ht Hl.
      pose proof (no_error_findings content Hb Ht Hl) as Hno.
      split; [exact Hno|]. split.
      * intros F. rewrite (loaded_status_within _ F).
        now rewrite (no_error_no_unmet _ Hno).
      * apply loaded_status_beyond.
Qed.

(** The three runs of C6: a text without [baseURL]; a text with the line
    and the other fields; and the same with a menu weight of 4301 digits,
    which ends with status 1 although no finding has severity [error]. *)
Lemma C6_required_baseURL_witness :
  let missing := main "/repo" [] (one_file "/repo/config.toml" config_without_baseURL) in
  let present := main "/repo" [] (one_file "/repo/config.toml" (config_with_weights "1" "2" "3")) in
  let overlong := main "/repo" [] (one_file "/repo/config.toml" config_with_overlong_weight) in
  ((exists r, In r (results (fst missing)) /\ severity r = error
              /\ passed r = false /\ contains "baseURL" (message r) = true)
   /\ snd missing = 1%Z)
  /\ (In baseURL_present (results (fst present)) /\ snd present = 0%Z)
  /\ (In baseURL_present (results (fst overlong))
      /\ (forall r, In r (results (fst overlong)) -> severity r <> error)
      /\ snd overlong = 1%Z).
Proof.
  intros missing present overlong. subst missing present overlong.
  split; [|split].
  - destruct (one_file_loads "/repo/config.toml" config_without_baseURL)
      as (E1 & E2).
    destruct (C6_required_baseURL "/repo" [] _ _ E1 E2) as (H & _).
    apply H. intros A. apply required_present_iff in A. apply A.
    vm_compute. reflexivity.
  - destruct (one_file_loads "/repo/config.toml" (config_with_weights "1" "2" "3"))
      as (E1 & E2).
    destruct (C6_required_baseURL "/repo" [] _ _ E1 E2) as (_ & H).
    destruct H as (H1 & _ & H2); [vm_compute; now left|].
    split; [exact H1|].
    destruct H2 as (_ & H2 & _);
      try (apply required_present_iff; vm_compute; discriminate).
    apply H2. apply all_within_limit_iff. vm_compute. reflexivity.
  - destruct (one_file_loads "/repo/config.toml" config_with_overlong_weight)
      as (E1 & E2).
    destruct (C6_required_baseURL "/repo" [] _ _ E1 E2) as (_ & H).
    destruct H as (H1 & _ & H2); [vm_compute; now left|].
    split; [exact H1|].
    destruct H2 as (H2 & _ & H3);
      try (apply required_present_iff; vm_compute; discriminate).
    split; [exact H2|]. apply H3. intros F.
    apply all_within_limit_iff in F. vm_compute in F. discriminate F.
Defined.

(** *** The menu rule *)

Lemma menu_findings_within content :
  Forall within_limit (declared_weights content) ->
  menu_findings content
  = match weight_values content with
    | [] => []
    | _ :: _ =>
        if Nat.eqb (length (weight_values content))
                   (len_set (weight_values content))
        then [unique_weights_info (length (weight_values content))]
        else [duplicate_weights_warning]
    end.
Proof.
  intros F. unfold menu_findings. now rewrite (menu_weights_returns _ F).
Qed.

(** The other rules do not report on the menu weights. *)
Lemma menu_messages content r :
  In r (findings content) -> about_menu r = true ->
  In r (menu_findings content).
Proof.
  intros Hin A.
  assert (X : forall l, existsb about_menu l = false -> ~ In r l).
  { intros l E H.
    assert (Y : existsb about_menu l = true)
      by (apply existsb_exists; eauto).
    congruence. }
  unfold findings in Hin. rewrite !in_app_iff in Hin.
  destruct Hin as [H|[H|[H|[H|H]]]]; [| | |exact H|]; exfalso;
    revert H; apply X.
  - unfold required_fields, required_finding. cbn [map].
    repeat destruct (search _ _); reflexivity.
  - unfold security_findings.
    destruct (contains _ _); destruct (_ && _); reflexivity.
  - unfold defensive_checks, defensive_finding. cbn [map].
    repeat destruct (search _ _); reflexivity.
  - destruct (menu_weights content); [|reflexivity].
    unfold accessibility_findings.
    destruct (_ || _); destruct (search _ _); reflexivity.
Qed.

(** C7, as the code has it.  The weights of a text are those it
    declares: the first run of digits written after [weight =] in each
    block that follows a [[[menu.main]]] header (a sign, a fraction or an
    underscore is not read).  On a configuration text that loads and whose
    declared weights have at most 4300 digits each: when two of the values
    are equal, the report has the duplicate-weight warning exactly once;
    when there is a weight and the values are pairwise distinct, the report
    has no duplicate-weight warning and has the passed [info] finding that
    reports unique weights; when the text declares no weight, the report
    has neither. *)
Theorem C7_menu_weights repo_root argv fs content :
  path_exists fs (target_path repo_root argv) = Ok true ->
  read_text fs (target_path repo_root argv) = Ok content ->
  Forall within_limit (declared_weights content) ->
  let weights := weight_values content in
  let report := results (fst (main repo_root argv fs)) in
  (~ NoDup weights ->
     filter is_duplicate_warning report = [duplicate_weights_warning])
  /\
  (NoDup weights -> weights <> [] ->
     filter is_duplicate_warning report = []
     /\ In (unique_weights_info (length weights)) report
     /\ passed (unique_weights_info (length weights)) = true
     /\ severity (unique_weights_info (length weights)) = info)
  /\
  (weights = [] ->
     filter is_duplicate_warning report = []
     /\ forall n, ~ In (unique_weights_info n) report).
Proof.
  intros He Hr F weights report. subst report.
  rewrite (main_loaded _ _ _ _ He Hr). cbn [fst results].
  rewrite findings_duplicate_warnings.
  assert (Hin : forall r, In r (menu_findings content) -> In r (findings content)).
  { intros r H. unfold findings. rewrite !in_app_iff. tauto. }
  pose proof (menu_messages content) as Only.
  rewrite (menu_findings_within _ F) in *. fold weights in Hin, Only |- *.
  destruct weights as [|w ws] eqn:W.
  - split; [intros H; elim H; constructor|].
    split; [intros _ H; now elim H|]. intros _.
    split; [reflexivity|]. intros n H.
    apply (Only _ H). reflexivity.
  - unfold len_set in *. destruct (Nat.eqb _ _) eqn:E.
    + apply Nat.eqb_eq in E. symmetry in E.
      apply PyFacts.nodup_length_iff in E.
      split; [intros H; now elim H|].
      split; [|discriminate]. intros _ _.
      split; [reflexivity|]. split; [apply Hin; now left|]. split; reflexivity.
    + apply Nat.eqb_neq in E. split; [intros _; reflexivity|].
      split; [|discriminate].
      intros H. apply PyFacts.nodup_length_iff in H. exfalso. apply E.
      now rewrite H.
Qed.

(** C7 as stated fails.  Three menu entries with the weights [-1], [-1]
    and [2] have a duplicate, and the report has no duplicate-weight warning:
    it says that the weights are unique, counting one.  Three entries with
    the distinct weights [1.5], [1.7] and [2] get the warning. *)
Lemma C7_weights_are_digit_runs :
  let run weights :=
    results (fst (main "/repo" []
                    (one_file "/repo/config.toml" weights))) in
  let signed := run (config_with_weights "-1" "-1" "2") in
  let fractional := run (config_with_weights "1.5" "1.7" "2") in
  ~ (filter is_duplicate_warning signed = [duplicate_weights_warning])
  /\ In (unique_weights_info 1) signed
  /\ ~ (filter is_duplicate_warning fractional = []).
Proof.
  cbv zeta. split; [|split].
  - intros H. vm_compute in H. discriminate H.
  - vm_compute. tauto.
  - intros H. vm_compute in H. discriminate H.
Qed.

Lemma C7_menu_weights_witness :
  let run weights :=
    results (fst (main "/repo" []
                    (one_file "/repo/config.toml" weights))) in
  let duplicated := run (config_with_weights "1" "2" "2") in
  let distinct := run (config_with_weights "1" "2" "3") in
  let signed := run (config_with_weights "-1" "-2" "-2") in
  filter is_duplicate_warning duplicated = [duplicate_weights_warning]
  /\ (filter is_duplicate_warning distinct = []
      /\ In (unique_weights_info 3) distinct)
  /\ (filter is_duplicate_warning signed = []
      /\ forall n, ~ In (unique_weights_info n) signed).
Proof.
  cbv zeta.
  assert (W1 : weight_values (config_with_weights "1" "2" "2") = [1; 2; 2]%N)
    by (vm_compute; reflexivity).
  assert (W2 : weight_values (config_with_weights "1" "2" "3") = [1; 2; 3]%N)
    by (vm_compute; reflexivity).
  assert (W3 : weight_values (config_with_weights "-1" "-2" "-2") = [])
    by (vm_compute; reflexivity).
  split; [|split].
  - destruct (one_file_loads "/repo/config.toml" (config_with_weights "1" "2" "2"))
      as (E1 & E2).
    pose proof (C7_menu_weights "/repo" [] _ _ E1 E2) as H.
    cbv zeta in H. rewrite W1 in H.
    destruct H as (H & _); [apply all_within_limit_iff; vm_compute; reflexivity|].
    apply H. intros ND. inversion ND as [|? ? _ ND1].
    inversion ND1 as [|? ? N2 _]. apply N2. now left.
  - destruct (one_file_loads "/repo/config.toml" (config_with_weights "1" "2" "3"))
      as (E1 & E2).
    pose proof (C7_menu_weights "/repo" [] _ _ E1 E2) as H.
    cbv zeta in H. rewrite W2 in H.
    destruct H as (_ & H & _); [apply all_within_limit_iff; vm_compute; reflexivity|].
    destruct H as (H1 & H2 & _); [|discriminate|].
    + repeat constructor; simpl; intuition discriminate.
    + split; [exact H1 | exact H2].
  - destruct (one_file_loads "/repo/config.toml" (config_with_weights "-1" "-2" "-2"))
      as (E1 & E2).
    pose proof (C7_menu_weights "/repo" [] _ _ E1 E2) as H.
    cbv zeta in H. rewrite W3 in H.
    destruct H as (_ & _ & H); [apply all_within_limit_iff; vm_compute; reflexivity|].
    apply H. reflexivity.
Defined.

End ConfigSpec.

(* ================================================================= *)
(** ** Facts on the content validator *)

Module ContentFacts.

Import Re ReFacts Content.

Lemma same_load_refl v : same_load v v.
Proof. now repeat split. Qed.

Lemma same_load_trans v1 v2 v3 :
  same_load v1 v2 -> same_load v2 v3 -> same_load v1 v3.
Proof.
  intros (A1 & B1 & C1) (A2 & B2 & C2).
  repeat split; congruence.
Qed.

Lemma same_load_append i v :
  is_error i = false -> same_load v (append i v).
Proof.
  intros H. repeat split. unfold errors, append; simpl.
  rewrite filter_app; simpl. rewrite H. apply app_nil_r.
Qed.

Lemma same_load_stats f v :
  files_checked (f (stats v)) = files_checked (stats v) ->
  same_load v (with_stats f v).
Proof. intros H. now repeat split. Qed.

Lemma fold_left_invariant {A S : Type} (f : S -> A -> S) (I : S -> Prop) :
  (forall s a, I s -> I (f s a)) ->
  forall l s, I s -> I (fold_left f l s).
Proof.
  intros Hf l; induction l as [|a l IH]; intros s Hs; simpl; auto.
Qed.

Create HintDb load.
#[local] Hint Resolve same_load_refl same_load_append same_load_stats : load.

Ltac split_ifs :=
  repeat match goal with
         | |- context [if ?b then _ else _] => destruct b
         end.

Lemma check_link_same_load fp n v m : same_load v (check_link fp n v m).
Proof.
  unfold check_link. split_ifs;
    repeat (first [ apply same_load_refl
                  | eapply same_load_trans;
                    [| apply same_load_append; reflexivity ]
                  | apply same_load_stats; reflexivity ]).
Qed.

Lemma check_image_same_load fp n v m : same_load v (check_image fp n v m).
Proof.
  unfold check_image. split_ifs;
    repeat (first [ apply same_load_refl
                  | eapply same_load_trans;
                    [| apply same_load_append; reflexivity ]
                  | apply same_load_stats; reflexivity ]).
Qed.

Lemma _check_frontmatter_same_load fp c ls v :
  same_load v (_check_frontmatter fp c ls v).
Proof.
  unfold _check_frontmatter. split_ifs; auto with load.
Qed.

Lemma _check_links_same_load fp c ls v : same_load v (_check_links fp c ls v).
Proof.
  unfold _check_links.
  apply (fold_left_invariant _ (same_load v)); [|apply same_load_refl].
  intros s a Hs.
  apply (fold_left_invariant _ (same_load v)); [|exact Hs].
  intros s' m Hs'. eapply same_load_trans; [exact Hs'|].
  apply check_link_same_load.
Qed.

Lemma _check_accessibility_same_load fp c ls v :
  same_load v (_check_accessibility fp c ls v).
Proof.
  unfold _check_accessibility.
  apply (fold_left_invariant _ (same_load v)); [|apply same_load_refl].
  intros s a Hs.
  apply (fold_left_invariant _ (same_load v)); [|exact Hs].
  intros s' m Hs'. eapply same_load_trans; [exact Hs'|].
  apply check_image_same_load.
Qed.

Lemma _check_headings_same_load fp c ls v :
  same_load v (_check_headings fp c ls v).
Proof.
  unfold _check_headings.
  destruct (collect_headings ls) as [|h hs]; [apply same_load_refl|].
  apply (fold_left_invariant (check_heading fp) (fun s => same_load v (snd s)));
    [|apply same_load_refl].
  intros (prev, s) ((level, text), line_num) Hs. unfold check_heading.
  cbn [snd] in *.
  destruct (_ && _); [|exact Hs].
  eapply same_load_trans; [exact Hs|]. now apply same_load_append.
Qed.

Lemma _check_code_blocks_same_load fp c ls v :
  same_load v (_check_code_blocks fp c ls v).
Proof.
  unfold _check_code_blocks.
  apply (fold_left_invariant (check_code_line fp)
           (fun s => same_load v (snd s)));
    [|apply same_load_refl].
  intros ((inb, start), s) (n, line) Hs. unfold check_code_line.
  cbn [snd] in *.
  destruct (startswith "```" (strip line)); [|exact Hs].
  destruct inb; cbn [negb snd]; [exact Hs|].
  destruct (is_empty _); [|exact Hs].
  eapply same_load_trans; [exact Hs|]. now apply same_load_append.
Qed.

Lemma validate_file_load fs v f :
  errors (validate_file fs v f) = errors v ++ load_errors fs f
  /\ files_checked (stats (validate_file fs v f))
     = files_checked (stats v) + (if readable fs f then 1 else 0)
  /\ content_dir (validate_file fs v f) = content_dir v.
Proof.
  unfold validate_file, load_errors, readable.
  destruct (read_text fs f) as [content|e].
  - set (v0 := with_stats count_file v).
    assert (H : same_load v0
      (_check_accessibility f content (split_nl content)
         (_check_code_blocks f content (split_nl content)
            (_check_headings f content (split_nl content)
               (_check_links f content (split_nl content)
                  (_check_frontmatter f content (split_nl content) v0)))))).
    { eapply same_load_trans; [|apply _check_accessibility_same_load].
      eapply same_load_trans; [|apply _check_code_blocks_same_load].
      eapply same_load_trans; [|apply _check_headings_same_load].
      eapply same_load_trans; [|apply _check_links_same_load].
      apply _check_frontmatter_same_load. }
    destruct H as (A & B & C). rewrite A, B, C. subst v0.
    unfold errors; simpl. rewrite app_nil_r. repeat split. lia.
  - unfold errors, append; simpl. rewrite filter_app. simpl.
    repeat split. lia.
Qed.

Lemma validate_files_load fs files : forall v,
  errors (fold_left (validate_file fs) files v)
  = errors v ++ flat_map (load_errors fs) files
  /\ files_checked (stats (fold_left (validate_file fs) files v))
     = files_checked (stats v) + length (filter (readable fs) files)
  /\ content_dir (fold_left (validate_file fs) files v) = content_dir v.
Proof.
  induction files as [|f files IH]; intros v; simpl.
  - rewrite app_nil_r. repeat split. lia.
  - destruct (IH (validate_file fs v f)) as (A & B & C).
    destruct (validate_file_load fs v f) as (A1 & B1 & C1).
    rewrite A, B, C, A1, B1, C1. rewrite <- app_assoc.
    repeat split. destruct (readable fs f); simpl; lia.
Qed.

End ContentFacts.

(* ================================================================= *)
(** ** Statements on the runs of the two file validators *)

Module RunSpec.

Import ContentFacts ConfigFacts.

Lemma unmet_error_iff {F} `{Finding F} (f : F) :
  unmet_error f = true <-> unmet f.
Proof.
  unfold unmet_error, unmet. rewrite andb_true_iff, negb_true_iff.
  destruct (finding_severity f); simpl; intuition congruence.
Qed.

Lemma existsb_errors_only {F} `{Finding F} (l : list F) :
  existsb unmet_error (filter (has_severity error) l) = existsb unmet_error l.
Proof.
  induction l as [|f l IH]; simpl; [reflexivity|].
  unfold has_severity at 1. destruct (severity_eqb _ _) eqn:E; simpl.
  - now rewrite IH.
  - rewrite IH. unfold unmet_error at 2. now rewrite E.
Qed.

Lemma verdict_of_exit_code {F} `{Finding F} (report : list F) :
  verdict report (exit_code (negb (existsb unmet_error report))).
Proof.
  unfold verdict. rewrite existsb_errors_only.
  destruct (existsb unmet_error report) eqn:E; simpl.
  - apply existsb_exists in E. destruct E as (f & Hin & U).
    apply unmet_error_iff in U.
    split; [|split; [|reflexivity]]; split; try discriminate; eauto.
    intros Hall. exfalso. eapply Hall; eauto.
  - split; [|split; [|reflexivity]]; split; try discriminate; auto.
    + intros _ f Hin U. apply unmet_error_iff in U.
      assert (X : existsb unmet_error report = true)
        by (apply existsb_exists; eauto).
      congruence.
    + intros (f & Hin & U). apply unmet_error_iff in U.
      assert (X : existsb unmet_error report = true)
        by (apply existsb_exists; eauto).
      congruence.
Qed.

Lemma config_main_exit_code repo_root argv fs :
  Config.uncaught repo_root argv fs = None ->
  snd (Config.main repo_root argv fs)
  = exit_code (negb (existsb unmet_error
                       (Config.results (fst (Config.main repo_root argv fs))))).
Proof.
  unfold Config.main, Config.uncaught, Config.validate, Config.load_config.
  cbn [Config.init Config.config_path].
  destruct (path_exists fs _) as [[|]|e];
    [destruct (read_text fs _)| |];
    cbv beta iota zeta delta [negb fst snd]; try reflexivity.
  rewrite run_rules_extend.
  destruct (Config.menu_weights _); [reflexivity | discriminate].
Qed.

Lemma config_main_raises repo_root argv fs e :
  Config.uncaught repo_root argv fs = Some e ->
  snd (Config.main repo_root argv fs) = 1%Z.
Proof.
  unfold Config.main, Config.uncaught.
  destruct (Config.validate fs _) as (v, [ok|e']); cbn [snd];
    [discriminate | reflexivity].
Qed.

Lemma content_errors_verdict (l : list Content.ContentIssue) :
  Nat.eqb (length (filter Content.is_error l)) 0
  = negb (existsb unmet_error l).
Proof.
  induction l as [|i l IH]; simpl; [reflexivity|].
  unfold unmet_error at 1. cbn [finding_severity finding_passed
                                 Content.ContentIssue_Finding negb].
  unfold Content.is_error at 1. rewrite andb_true_r.
  destruct (severity_eqb _ _); simpl; [reflexivity | exact IH].
Qed.

(** The run of the content validator, by what [find_markdown_files]
    does. *)
Lemma content_main_listed repo_root argv fs files :
  Content.find_markdown_files fs (Content.init (Content.target_dir repo_root argv))
  = Ok files ->
  Content.main repo_root argv fs
  = (fold_left (Content.validate_file fs) files
       (Content.init (Content.target_dir repo_root argv)),
     exit_code (negb (existsb unmet_error
                        (Content.issues
                           (fold_left (Content.validate_file fs) files
                              (Content.init (Content.target_dir repo_root argv))))))).
Proof.
  intros E. unfold Content.main, Content.validate_all. rewrite E.
  destruct files as [|f files]; [reflexivity|].
  cbn [Content.exit_status]. now rewrite content_errors_verdict.
Qed.

Lemma content_main_raises repo_root argv fs e :
  Content.uncaught repo_root argv fs = Some e ->
  Content.main repo_root argv fs
  = (Content.init (Content.target_dir repo_root argv), 1%Z).
Proof.
  unfold Content.main, Content.uncaught, Content.validate_all.
  destruct (Content.find_markdown_files fs _) as [[|f files]|e'];
    cbn [snd]; try discriminate. reflexivity.
Qed.

Lemma content_returns repo_root argv fs :
  Content.uncaught repo_root argv fs = None ->
  exists files,
    Content.find_markdown_files fs
      (Content.init (Content.target_dir repo_root argv)) = Ok files.
Proof.
  unfold Content.uncaught, Content.validate_all.
  destruct (Content.find_markdown_files fs _) as [files|e].
  - intros _. now exists files.
  - cbn [snd]. discriminate.
Qed.

(** C1.  A run that no exception escapes from ends with the verdict on
    its report: the exit code is 0 exactly when the report has no finding
    of severity [error] that is not passed, 1 exactly when it has one, and
    the same with the findings of severity [warning] and [info] taken out.
    A run that an exception escapes from ends with status 1 whatever the
    report holds: in the configuration validator that is the conversion of
    a menu weight by [int], which is not inside a [try]; in the content
    validator it is the test [exists()] on the directory, and the report is
    then empty. *)
Theorem C1_overall_verdict repo_root argv fs :
  (Config.uncaught repo_root argv fs = None ->
     verdict (Config.results (fst (Config.main repo_root argv fs)))
             (snd (Config.main repo_root argv fs)))
  /\ (Content.uncaught repo_root argv fs = None ->
        verdict (Content.issues (fst (Content.main repo_root argv fs)))
                (snd (Content.main repo_root argv fs)))
  /\ (forall e, Config.uncaught repo_root argv fs = Some e ->
        snd (Config.main repo_root argv fs) = 1%Z)
  /\ (forall e, Content.uncaught repo_root argv fs = Some e ->
        Content.issues (fst (Content.main repo_root argv fs)) = []
        /\ snd (Content.main repo_root argv fs) = 1%Z).
Proof.
  split; [|split; [|split]].
  - intros U. rewrite (config_main_exit_code _ _ _ U).
    apply verdict_of_exit_code.
  - intros U. destruct (content_returns _ _ _ U) as (files & E).
    rewrite (content_main_listed _ _ _ _ E). cbn [fst snd].
    apply verdict_of_exit_code.
  - intros e U. exact (config_main_raises _ _ _ _ U).
  - intros e U. rewrite (content_main_raises _ _ _ _ U). split; reflexivity.
Qed.

(** The two runs the verdict fails on: the configuration text with the
    three required fields and a menu weight of 4301 digits, and a content
    directory whose name the file system refuses.  Both end with status 1
    and no unmet finding in the report.  A run that completes follows the
    verdict. *)
Lemma C1_overall_verdict_witness :
  let config := Config.main "/repo" []
                  (Config.one_file "/repo/config.toml"
                     Config.config_with_overlong_weight) in
  let content := Content.main "/repo"
                   ["validate_content.py" : str; repeat "d"%char 300]
                   Content.name_max_fs in
  let missing := Config.main "/repo" [] Content.empty_fs in
  (snd config = 1%Z
   /\ forall f, In f (Config.results (fst config)) -> ~ unmet f)
  /\ (snd content = 1%Z /\ Content.issues (fst content) = [])
  /\ verdict (Config.results (fst missing)) (snd missing).
Proof.
  cbv zeta.
  destruct (one_file_loads "/repo/config.toml" Config.config_with_overlong_weight)
    as (E1 & E2).
  split; [|split].
  - split.
    + destruct (C1_overall_verdict "/repo" []
                  (Config.one_file "/repo/config.toml"
                     Config.config_with_overlong_weight))
        as (_ & _ & H & _).
      destruct (MenuFacts.menu_weights_raises Config.config_with_overlong_weight)
        as (e & W).
      { intros F. apply MenuFacts.all_within_limit_iff in F.
        vm_compute in F. discriminate F. }
      apply (H e). rewrite (uncaught_loaded "/repo" [] _ _ E1 E2).
      now rewrite W.
    + intros f Hin (U & _).
      rewrite (main_loaded "/repo" [] _ _ E1 E2) in Hin.
      cbn [fst Config.results] in Hin. revert U.
      apply (ConfigSpec.no_error_findings Config.config_with_overlong_weight);
        try (apply required_present_iff; vm_compute; discriminate).
      exact Hin.
  - destruct (C1_overall_verdict "/repo"
                ["validate_content.py" : str; repeat "d"%char 300]
                Content.name_max_fs) as (_ & _ & _ & H).
    destruct (H (Content.name_too_long (repeat "d"%char 300)))
      as (A & B); [vm_compute; reflexivity|].
    split; [exact B | exact A].
  - destruct (C1_overall_verdict "/repo" [] Content.empty_fs) as (H & _).
    apply H. vm_compute. reflexivity.
Defined.

(** *** Load failures *)

Lemma content_main_load repo_root argv fs files :
  Content.find_markdown_files fs (Content.init (Content.target_dir repo_root argv))
  = Ok files ->
  let run := Content.main repo_root argv fs in
  Content.errors (fst run) = flat_map (Content.load_errors fs) files
  /\ Content.files_checked (Content.stats (fst run))
     = length (filter (Content.readable fs) files).
Proof.
  intros E. cbv zeta. rewrite (content_main_listed _ _ _ _ E). cbn [fst].
  destruct (validate_files_load fs files
              (Content.init (Content.target_dir repo_root argv)))
    as (A & B & _).
  rewrite A, B. split; reflexivity.
Qed.

Lemma load_errors_nil_iff fs files :
  flat_map (Content.load_errors fs) files = []
  <-> forall f, In f files -> Content.readable fs f = true.
Proof.
  induction files as [|f files IH]; simpl.
  - split; [intros _ f [] | reflexivity].
  - unfold Content.load_errors at 1, Content.readable. split.
    + intros H g [<-|Hg].
      * destruct (read_text fs f); [reflexivity | discriminate H].
      * destruct (read_text fs f); [|discriminate H].
        simpl in H. now apply IH.
    + intros H. pose proof (H f (or_introl eq_refl)) as Hf.
      destruct (read_text fs f); [|discriminate Hf].
      simpl. apply IH. intros g Hg. apply H. now right.
Qed.

Lemma unreadable_listed fs files :
  flat_map (Content.load_errors fs) files <> []
  <-> exists f, In f files /\ Content.readable fs f = false.
Proof.
  rewrite load_errors_nil_iff. split.
  - intros H.
    destruct (existsb (fun f => negb (Content.readable fs f)) files) eqn:X.
    + apply existsb_exists in X. destruct X as (f & Hin & Hf).
      exists f. split; [exact Hin | now apply negb_true_iff].
    + exfalso. apply H. intros f Hin.
      destruct (Content.readable fs f) eqn:R; [reflexivity|].
      assert (Y : existsb (fun f => negb (Content.readable fs f)) files = true).
      { apply existsb_exists. exists f. split; [exact Hin | now rewrite R]. }
      congruence.
  - intros (f & Hin & Hf) H. rewrite (H f Hin) in Hf. discriminate.
Qed.

(** C3, as the code has it.  Configuration validator: a file that is
    missing, or that cannot be read (the test [exists()] or the read
    raises), gives a report of exactly one finding, of severity [error] and
    not passed; no rule runs; the exit code is 1.  The finding names the
    path as [pathlib] writes it.  Content validator, when the directory is
    listed: the findings of severity [error] are exactly one per listed
    file that cannot be read, in the order of the listing; the other files
    are all scanned; the exit code is 1 exactly when a listed file cannot
    be read.  A content directory of which [exists()] says that it does not
    exist gives an empty report and the exit code 0. *)
Theorem C3_load_failures repo_root argv fs :
  let path := Config.target_path repo_root argv in
  let dir := Content.target_dir repo_root argv in
  let config := Config.main repo_root argv fs in
  let content := Content.main repo_root argv fs in
  (path_exists fs path = Ok false ->
     Config.results (fst config) = [Config.config_not_found path]
     /\ snd config = 1%Z)
  /\ (forall e,
        path_exists fs path = Raise e
        \/ (path_exists fs path = Ok true /\ read_text fs path = Raise e) ->
        Config.results (fst config) = [Config.config_unreadable e]
        /\ snd config = 1%Z)
  /\ (forall files,
        Content.find_markdown_files fs (Content.init dir) = Ok files ->
        Content.errors (fst content) = flat_map (Content.load_errors fs) files
        /\ Content.files_checked (Content.stats (fst content))
           = length (filter (Content.readable fs) files)
        /\ (snd content = 1%Z <->
            exists f, In f files /\ Content.readable fs f = false))
  /\ (path_exists fs dir = Ok false ->
        Content.issues (fst content) = [] /\ snd content = 0%Z).
Proof.
  cbv zeta. split; [|split; [|split]].
  - intros He. unfold Config.main, Config.validate, Config.load_config.
    cbn [Config.init Config.config_path]. rewrite He.
    cbv beta iota zeta delta [negb fst snd]. split; reflexivity.
  - intros e [He|(He & Hr)];
      unfold Config.main, Config.validate, Config.load_config;
      cbn [Config.init Config.config_path]; rewrite He; [|rewrite Hr];
      cbv beta iota zeta delta [negb fst snd]; split; reflexivity.
  - intros files E.
    destruct (content_main_load repo_root argv fs files E) as (A & B).
    split; [exact A|]. split; [exact B|].
    rewrite <- unreadable_listed, <- A.
    rewrite (content_main_listed _ _ _ _ E). cbn [fst snd].
    rewrite <- content_errors_verdict. unfold Content.errors.
    destruct (filter Content.is_error _); simpl; split;
      congruence.
  - intros He. unfold Content.main, Content.validate_all,
      Content.find_markdown_files.
    cbn [Content.init Content.content_dir]. rewrite He.
    cbv beta iota zeta delta [negb fst snd bind]. split; reflexivity.
Qed.

(** C3 as stated fails: with no content directory the content validator
    records no finding and exits with 0. *)
Lemma C3_missing_directory_passes :
  let run := Content.main "/repo" [] Content.empty_fs in
  ~ (length (filter (has_severity error) (Content.issues (fst run))) = 1
     /\ snd run = 1%Z).
Proof.
  cbv zeta. intros (H & _). vm_compute in H. discriminate H.
Qed.

Lemma C3_load_failures_witness :
  let fs := Content.dir_fs "/repo/content"
              [ ("/repo/content/a.md" : str, Raise ("invalid start byte" : str));
                ("/repo/content/b.md" : str, Ok ("---" : str)) ] in
  let content := Content.main "/repo" [] fs in
  let config := Config.main "/repo" [] fs in
  let typed := Config.main "/repo"
                 ["validate_config.py" : str; "./conf//config.toml" : str] fs in
  Content.errors (fst content)
  = [Content.read_failure "/repo/content/a.md" "invalid start byte"]
  /\ Content.files_checked (Content.stats (fst content)) = 1
  /\ snd content = 1%Z
  /\ Config.results (fst config) = [Config.config_not_found "/repo/config.toml"]
  /\ snd config = 1%Z
  /\ Config.results (fst typed) = [Config.config_not_found "conf/config.toml"].
Proof.
  cbv zeta.
  pose proof (C3_load_failures "/repo" []
                (Content.dir_fs "/repo/content"
                   [ ("/repo/content/a.md" : str, Raise ("invalid start byte" : str));
                     ("/repo/content/b.md" : str, Ok ("---" : str)) ])) as H.
  cbv zeta in H. destruct H as (H1 & _ & H2 & _).
  destruct (H2 [ "/repo/content/a.md" : str; "/repo/content/b.md" : str ])
    as (H3 & H4 & H5); [vm_compute; reflexivity|].
  split; [rewrite H3; vm_compute; reflexivity|].
  split; [rewrite H4; vm_compute; reflexivity|].
  split; [apply H5; exists ("/repo/content/a.md" : str);
          split; [vm_compute; now left | vm_compute; reflexivity]|].
  split; [apply H1; vm_compute; reflexivity|].
  split; [apply H1; vm_compute; reflexivity|].
  pose proof (C3_load_failures "/repo"
                ["validate_config.py" : str; "./conf//config.toml" : str]
                (Content.dir_fs "/repo/content"
                   [ ("/repo/content/a.md" : str, Raise ("invalid start byte" : str));
                     ("/repo/content/b.md" : str, Ok ("---" : str)) ])) as H.
  cbv zeta in H. destruct H as (H6 & _).
  destruct H6 as (H6 & _); [vm_compute; reflexivity|].
  rewrite H6. vm_compute. reflexivity.
Defined.

(** *** The report depends on the artifact alone *)

Lemma validate_files_ext fs1 fs2 files : forall v,
  (forall f, In f files -> read_text fs1 f = read_text fs2 f) ->
  fold_left (Content.validate_file fs1) files v
  = fold_left (Content.validate_file fs2) files v.
Proof.
  induction files as [|f files IH]; intros v H; simpl; [reflexivity|].
  assert (E : Content.validate_file fs1 v f = Content.validate_file fs2 v f).
  { unfold Content.validate_file. now rewrite (H f (or_introl eq_refl)). }
  rewrite E. apply IH. intros g Hg. apply H. now right.
Qed.

(** C9.  Two runs of a validator that see the same artifact give the same
    validator object, hence the same findings in the same order with the
    same messages, and the same exit code, whatever else differs between
    the two file systems.  For the configuration validator the artifact is
    the file at the target path; for the content validator it is the
    listing of the directory and the files listed.  The findings of a
    configuration text that loads are a function of the text. *)
Theorem C9_same_artifact_same_report repo_root argv fs1 fs2 :
  let path := Config.target_path repo_root argv in
  let dir := Content.target_dir repo_root argv in
  (path_exists fs1 path = path_exists fs2 path ->
   read_text fs1 path = read_text fs2 path ->
   Config.main repo_root argv fs1 = Config.main repo_root argv fs2)
  /\ (forall content,
        path_exists fs1 path = Ok true -> read_text fs1 path = Ok content ->
        Config.results (fst (Config.main repo_root argv fs1))
        = Config.findings content)
  /\ (path_exists fs1 dir = path_exists fs2 dir ->
      rglob_md fs1 dir = rglob_md fs2 dir ->
      (forall f, In f (rglob_md fs1 dir) -> read_text fs1 f = read_text fs2 f) ->
      Content.main repo_root argv fs1 = Content.main repo_root argv fs2).
Proof.
  cbv zeta. split; [|split].
  - intros He Hr. unfold Config.main, Config.validate, Config.load_config.
    cbn [Config.init Config.config_path]. now rewrite He, Hr.
  - intros content He Hr. now rewrite (main_loaded _ _ _ _ He Hr).
  - intros He Hl Hr. unfold Content.main, Content.validate_all,
      Content.find_markdown_files.
    cbn [Content.init Content.content_dir]. rewrite <- He, <- Hl.
    destruct (path_exists fs1 _) as [[|]|e]; cbn [bind negb];
      [|reflexivity|reflexivity].
    destruct (rglob_md fs1 _) as [|f files] eqn:L; [reflexivity|].
    now rewrite (validate_files_ext fs1 fs2 (f :: files) _ Hr).
Qed.

Lemma C9_same_artifact_same_report_witness :
  let cfg := Config.one_file "/repo/config.toml"
               (Config.config_with_weights "1" "2" "2") in
  let cfg' := Content.elsewhere ["/repo/config.toml" : str] cfg in
  let docs := Content.dir_fs "/repo/content"
                [ ("/repo/content/a.md" : str, Ok ("# A" ++ [NL] ++ "### B"));
                  ("/repo/content/b.md" : str, Raise ("invalid start byte" : str)) ] in
  let docs' := Content.elsewhere
                 [ "/repo/content" : str; "/repo/content/a.md" : str;
                   "/repo/content/b.md" : str ] docs in
  path_exists cfg "/elsewhere" <> path_exists cfg' "/elsewhere"
  /\ Config.main "/repo" [] cfg = Config.main "/repo" [] cfg'
  /\ path_exists docs "/elsewhere" <> path_exists docs' "/elsewhere"
  /\ Content.main "/repo" [] docs = Content.main "/repo" [] docs'.
Proof.
  intros cfg cfg' docs docs'.
  split; [vm_compute; discriminate|].
  split.
  - destruct (C9_same_artifact_same_report "/repo" [] cfg cfg') as (H & _).
    apply H; vm_compute; reflexivity.
  - split; [vm_compute; discriminate|].
    destruct (C9_same_artifact_same_report "/repo" [] docs docs')
      as (_ & _ & H).
    apply H; try (vm_compute; reflexivity).
    intros f Hf. vm_compute in Hf. destruct Hf as [<-|[<-|[]]];
      vm_compute; reflexivity.
Defined.

End RunSpec.

(* ================================================================= *)
(** ** Statements on the rules of the content validator *)

Module ContentSpec.

Import Re ReFacts Content ContentFacts.

(** *** What the matcher reads, by length *)

Lemma matches_shrinks r st st' :
  matches r st st' -> length (rest st') <= length (rest st).
Proof.
  intros M. apply matches_reads in M. destruct M as (w & R & _).
  rewrite R, length_app. lia.
Qed.

Lemma matches_chr_len p st st' :
  matches (Chr p) st st' -> length (rest st) = 1 + length (rest st').
Proof.
  intros M. apply matches_chr_inv in M. destruct M as (c & tl & R & _ & ->).
  now rewrite R.
Qed.

Lemma matches_times_len p n : forall st st',
  matches (Times n (Chr p)) st st' ->
  length (rest st) = n + length (rest st').
Proof.
  induction n as [|n IH]; intros st st' M; simpl in M.
  - apply matches_eps_inv in M. now subst.
  - apply matches_cat_inv in M. destruct M as (s1 & M1 & M2).
    apply matches_chr_len in M1. apply IH in M2. lia.
Qed.

Lemma matches_upto_len p n : forall st st',
  matches (Upto n (Chr p)) st st' ->
  length (rest st) <= n + length (rest st').
Proof.
  induction n as [|n IH]; intros st st' M; simpl in M.
  - apply matches_eps_inv in M. subst. lia.
  - apply matches_alt_inv in M. destruct M as [M|M].
    + apply matches_cat_inv in M. destruct M as (s1 & M1 & M2).
      apply matches_chr_len in M1. apply IH in M2. lia.
    + apply matches_eps_inv in M. subst. lia.
Qed.

Lemma span_length st st' r :
  matches r st st' -> length (span st st') = read_len st st'.
Proof.
  intros M. apply matches_reads in M. destruct M as (w & R & B).
  rewrite (span_reads st st' w B). unfold read_len.
  rewrite R, length_app. lia.
Qed.

(** The level of a heading the pattern accepts is between 1 and 6. *)
Lemma heading_level_bounds line m :
  match_ heading_pattern line = Some m ->
  1 <= length (group 1 m) <= 6.
Proof.
  unfold match_. destruct (run _ _ Some) as [e|] eqn:E; [|discriminate].
  intros H; inversion H; subst; clear H.
  apply run_sound in E. destruct E as (st' & M & E). inversion E; subst; clear E.
  unfold heading_pattern in M.
  apply matches_cat_inv in M. destruct M as (s1 & M1 & M).
  apply matches_bol_inv in M1. destruct M1 as (-> & _).
  apply matches_cat_inv in M. destruct M as (s2 & M2 & M).
  apply matches_grp_inv in M2. destruct M2 as (s2' & MR & ->).
  apply matches_cat_inv in M. destruct M as (s3 & M3 & M).
  apply matches_plus_chr_inv in M3. destruct M3 as (w & post & _ & _ & _ & ->).
  apply matches_cat_inv in M. destruct M as (s4 & M4 & M).
  apply matches_grp_inv in M4. destruct M4 as (s4' & MD & ->).
  apply matches_plus_chr_inv in MD. destruct MD as (w' & post' & _ & _ & _ & ->).
  apply matches_eol_inv in M. destruct M as (-> & _).
  unfold group. cbn [m_end set_group jump groups lookup_group Nat.eqb].
  rewrite (span_length _ _ _ MR). unfold read_len.
  unfold Repeat in MR. apply matches_cat_inv in MR.
  destruct MR as (t & T1 & T2).
  pose proof (matches_shrinks _ _ _ T2) as S2.
  apply matches_times_len in T1. apply matches_upto_len in T2.
  simpl in T1, T2, S2 |- *. lia.
Qed.

(** *** The list [headings] *)

Lemma collect_headings_flat_map lines :
  collect_headings lines = flat_map heading_of (enumerate 1 lines).
Proof.
  unfold collect_headings. generalize (enumerate 1 lines) as l.
  assert (G : forall l acc,
    fold_left
      (fun headings nl =>
         match match_ heading_pattern (snd nl) with
         | Some heading_match =>
             headings ++ [(length (group 1 heading_match),
                           strip (group 2 heading_match), fst nl)]
         | None => headings
         end) l acc
    = acc ++ flat_map heading_of l).
  { induction l as [|nl l IH]; intros acc; simpl.
    - now rewrite app_nil_r.
    - rewrite IH. unfold heading_of at 2.
      destruct (match_ heading_pattern (snd nl)); simpl.
      + now rewrite <- app_assoc.
      + reflexivity. }
  intros l. apply (G l []).
Qed.

Lemma headings_levels lines :
  Forall (fun h => 1 <= level h <= 6) (collect_headings lines).
Proof.
  rewrite collect_headings_flat_map. generalize (enumerate 1 lines) as l.
  induction l as [|nl l IH]; simpl; [constructor|].
  apply Forall_app. split; [|exact IH].
  unfold heading_of. destruct (match_ _ _) as [m|] eqn:E; [|constructor].
  constructor; [|constructor]. unfold level; simpl.
  eapply heading_level_bounds; eassumption.
Qed.

Lemma headings_lines_from lines : forall n,
  Forall (fun h => n <= line h) (flat_map heading_of (enumerate n lines))
  /\ StronglySorted (fun a b => line a < line b)
       (flat_map heading_of (enumerate n lines)).
Proof.
  induction lines as [|x xs IH]; intros n; simpl.
  - split; constructor.
  - destruct (IH (Datatypes.S n)) as (F & Hs).
    assert (F' : Forall (fun h => n < line h)
                   (flat_map heading_of (enumerate (Datatypes.S n) xs))).
    { eapply Forall_impl; [|exact F]. simpl. intros h Hh. lia. }
    unfold heading_of at 1 3. simpl.
    destruct (match_ heading_pattern x); simpl.
    + split.
      * constructor; [unfold line; simpl; lia|].
        eapply Forall_impl; [|exact F]. simpl. intros h Hh. lia.
      * constructor; [exact Hs|]. exact F'.
    + split; [|exact Hs].
      eapply Forall_impl; [|exact F]. simpl. intros h Hh. lia.
Qed.

Lemma headings_sorted lines :
  StronglySorted (fun a b => line a < line b) (collect_headings lines).
Proof.
  rewrite collect_headings_flat_map. apply headings_lines_from.
Qed.

(** *** The second loop *)

Lemma heading_loop fp : forall hs prev v,
  issues (snd (fold_left (check_heading fp) hs (prev, v)))
  = issues v ++ jumps fp prev hs.
Proof.
  induction hs as [|((l, t), n) hs IH]; intros prev v; simpl.
  - now rewrite app_nil_r.
  - rewrite IH. unfold level, line; simpl.
    destruct (_ && _); simpl.
    + now rewrite <- app_assoc.
    + reflexivity.
Qed.

Lemma _check_headings_issues fp content lines v :
  issues (_check_headings fp content lines v)
  = issues v ++ jumps fp 0 (collect_headings lines).
Proof.
  unfold _check_headings.
  destruct (collect_headings lines) as [|h hs] eqn:E.
  - simpl. now rewrite app_nil_r.
  - apply heading_loop.
Qed.

Lemma jumps_in fp i : forall hs prev,
  In i (jumps fp prev hs) <->
  (exists h tl, hs = h :: tl /\ 0 < prev /\ prev + 1 < level h
                /\ i = heading_jump fp prev (level h) (line h))
  \/ (exists a h1 h2 b, hs = a ++ h1 :: h2 :: b
                        /\ 0 < level h1 /\ level h1 + 1 < level h2
                        /\ i = heading_jump fp (level h1) (level h2) (line h2)).
Proof.
  induction hs as [|h hs IH]; intros prev; simpl.
  - split; [intros [] | intros [(h & tl & E & _)|(a & h1 & h2 & b & E & _)]].
    + discriminate.
    + destruct a; discriminate.
  - rewrite in_app_iff, IH. split.
    + intros [H|[H|H]].
      * destruct (_ && _) eqn:C; [|contradiction].
        apply andb_true_iff in C. destruct C as (C1 & C2).
        apply Nat.ltb_lt in C1, C2. destruct H as [<-|[]].
        left. exists h, hs. auto.
      * destruct H as (h' & tl & -> & P & Q & ->).
        right. exists [], h, h', tl. auto.
      * destruct H as (a & h1 & h2 & b & -> & P & Q & ->).
        right. exists (h :: a), h1, h2, b. auto.
    + intros [(h' & tl & E & P & Q & ->)|(a & h1 & h2 & b & E & P & Q & ->)].
      * inversion E; subst. left.
        assert (C : ((prev + 1 <? level h') && (0 <? prev))%nat = true).
        { apply andb_true_iff. split; now apply Nat.ltb_lt. }
        rewrite C. now left.
      * right. destruct a as [|x a]; simpl in E; inversion E; subst.
        -- left. exists h2, b. auto.
        -- right. exists a, h1, h2, b. auto.
Qed.

(** C10.  The findings [_check_headings] adds are exactly the level jumps
    between two consecutive headings: one finding for each heading [h2]
    that directly follows a heading [h1] with [level h2 > level h1 + 1].
    Hence none is for the first heading of the document, whatever its
    level, and a document whose only heading is [### Title] gets none. *)
Theorem C10_heading_jumps file_path content lines v :
  let headings := collect_headings lines in
  exists added,
    issues (_check_headings file_path content lines v) = issues v ++ added
    /\ (forall i, In i added <->
          exists earlier h1 h2 later,
            headings = earlier ++ h1 :: h2 :: later
            /\ level h1 + 1 < level h2
            /\ i = heading_jump file_path (level h1) (level h2) (line h2))
    /\ (forall first others i,
          headings = first :: others -> In i added ->
          line_number i <> line first)
    /\ (lines = ["### Title" : str] -> added = []).
Proof.
  intros headings. exists (jumps file_path 0 headings).
  split; [apply _check_headings_issues|].
  assert (Hin : forall i, In i (jumps file_path 0 headings) <->
            exists earlier h1 h2 later,
              headings = earlier ++ h1 :: h2 :: later
              /\ level h1 + 1 < level h2
              /\ i = heading_jump file_path (level h1) (level h2) (line h2)).
  { intros i. rewrite jumps_in. split.
    - intros [(h & tl & _ & P & _)|(a & h1 & h2 & b & E & _ & Q & R)]; [lia|].
      exists a, h1, h2, b. auto.
    - intros (a & h1 & h2 & b & E & Q & R). right.
      exists a, h1, h2, b. repeat split; auto.
      pose proof (headings_levels lines) as L. fold headings in L.
      rewrite E in L. apply Forall_app in L. destruct L as (_ & L).
      inversion L; subst. lia. }
  split; [exact Hin|]. split.
  - intros first others i E Hi. apply Hin in Hi.
    destruct Hi as (a & h1 & h2 & b & E2 & _ & ->).
    cbn [heading_jump line_number].
    pose proof (headings_sorted lines) as S. fold headings in S.
    rewrite E in S. inversion S as [|? ? _ F]; subst.
    assert (I2 : In h2 others).
    { rewrite E in E2. destruct a as [|x a]; simpl in E2; inversion E2; subst.
      - now left.
      - apply in_app_iff. right. right. now left. }
    rewrite Forall_forall in F. specialize (F h2 I2). lia.
  - intros ->. subst headings. reflexivity.
Qed.

Lemma C10_heading_jumps_witness :
  exists added,
    issues (_check_headings "doc.md" [] ["# A" : str; "### B" : str]
              (init "content"))
    = issues (init "content") ++ added
    /\ In (heading_jump "doc.md" 1 3 2) added.
Proof.
  destruct (C10_heading_jumps "doc.md" [] ["# A" : str; "### B" : str]
              (init "content")) as (added & E & Hin & _).
  exists added. split; [exact E|].
  apply Hin.
  exists [], (1, "A" : str, 1), (3, "B" : str, 2), [].
  split; [vm_compute; reflexivity|]. split; [vm_compute; lia | reflexivity].
Defined.

(** *** The link rule and the display cap *)

Ltac eval_rule v :=
  destruct v as [? ? []]; vm_compute; reflexivity.

(** What a match of the link pattern captures: a text and an URL that are
    both non-empty. *)
Lemma link_match_groups m :
  groups (m_start m) = [] ->
  matches link_pattern (m_start m) (m_end m) ->
  group 1 m <> [] /\ group 2 m <> [].
Proof.
  intros G M. unfold link_pattern in M.
  apply matches_cat_inv in M. destruct M as (s1 & M1 & M).
  apply matches_chr_inv in M1. destruct M1 as (c1 & t1 & R1 & _ & ->).
  apply matches_cat_inv in M. destruct M as (s2 & M2 & M).
  apply matches_grp_inv in M2. destruct M2 as (s2' & MT & ->).
  apply matches_plus_chr_inv in MT.
  destruct MT as (text & p2 & NT & _ & _ & ->).
  apply matches_cat_inv in M. destruct M as (s3 & M3 & M).
  apply matches_chr_inv in M3. destruct M3 as (c3 & t3 & R3 & _ & ->).
  apply matches_cat_inv in M. destruct M as (s4 & M4 & M).
  apply matches_chr_inv in M4. destruct M4 as (c4 & t4 & R4 & _ & ->).
  apply matches_cat_inv in M. destruct M as (s5 & M5 & M).
  apply matches_grp_inv in M5. destruct M5 as (s5' & MU & ->).
  apply matches_plus_chr_inv in MU.
  destruct MU as (url & p5 & NU & _ & _ & ->).
  apply matches_chr_inv in M. destruct M as (c6 & t6 & R6 & _ & E6).
  unfold group. rewrite E6. rewrite !span_jump.
  cbn [jump step set_group groups lookup_group Nat.eqb].
  split; assumption.
Qed.

(** C2, the code at the inputs of the claim.  A line with
    [[text](http://example.com)] gets the non-HTTPS warning of category
    [link]; a line with [[text](https://example.com)] gets no finding; a
    line with [[](https://example.com)] gets no finding either, because the
    link pattern asks for at least one character between the brackets and
    does not match: no match of the pattern, on any line, has an empty
    text.  The warning for empty link text is reached only by a text of
    white space, as in [[ ](https://example.com)]. *)
Theorem C2_link_rule_at_examples file_path content v :
  issues (_check_links file_path content ["[text](http://example.com)" : str] v)
  = issues v ++ [non_https file_path 1 "http://example.com..."]
  /\ issues (_check_links file_path content ["[text](https://example.com)" : str] v)
     = issues v
  /\ finditer link_pattern "[](https://example.com)" = []
  /\ _check_links file_path content ["[](https://example.com)" : str] v = v
  /\ (forall line m, In m (finditer link_pattern line) -> group 1 m <> [])
  /\ issues (_check_links file_path content ["[ ](https://example.com)" : str] v)
     = issues v ++ [empty_link_text file_path 1].
Proof.
  split; [eval_rule v|]. split; [eval_rule v|].
  split; [vm_compute; reflexivity|]. split; [eval_rule v|].
  split; [|eval_rule v].
  intros line m H. apply finditer_sound in H. destruct H as (G & M).
  now apply link_match_groups.
Qed.

(** The link rule shows every URL that starts with [http://] with [...]
    after it, whatever its length. *)
Lemma check_link_http_message file_path line_num v m :
  startswith "http://" (group 2 m) = true ->
  In (non_https file_path line_num
        (slice_to MAX_URL_DISPLAY_LENGTH (group 2 m) ++ "..."))
     (issues (check_link file_path line_num v m)).
Proof.
  intros H. unfold check_link.
  assert (A : startswith "#" (group 2 m) || startswith "mailto:" (group 2 m)
              = false).
  { destruct (proj1 (PyFacts.startswith_app _ _) H) as (t & E).
    rewrite E. reflexivity. }
  rewrite A, H. cbn [orb].
  destruct (is_empty (strip (group 1 m))); unfold append, non_https;
    cbn [issues]; rewrite !in_app_iff; simpl; tauto.
Qed.

Lemma image_message_capped url :
  (length url <= MAX_URL_DISPLAY_LENGTH ->
     image_message url
     = "Image without alt text: " ++ url ++ " (bad for screen readers)")
  /\ (MAX_URL_DISPLAY_LENGTH < length url ->
        image_message url
        = "Image without alt text: " ++ firstn MAX_URL_DISPLAY_LENGTH url
          ++ "..." ++ " (bad for screen readers)").
Proof.
  unfold image_message, slice_to. split; intros H.
  - apply Nat.ltb_ge in H. rewrite H. reflexivity.
  - apply Nat.ltb_lt in H. rewrite H. reflexivity.
Qed.

(** C4, the code at the inputs of the claim.  The image rule follows the
    claim: an URL of at most 50 characters is shown as it is, a longer one
    is cut to 50 characters and followed by [...].  The link rule does not:
    it appends [...] to every URL it shows, of any length, so the URL
    [http://example.com], of 18 characters, is shown as
    [http://example.com...]. *)
Theorem C4_display_cap_at_examples file_path content v :
  length ("http://example.com" : str) <= MAX_URL_DISPLAY_LENGTH
  /\ issues (_check_links file_path content ["[text](http://example.com)" : str] v)
     = issues v ++ [non_https file_path 1 ("http://example.com" ++ "...")]
  /\ (forall line_num m,
        startswith "http://" (group 2 m) = true ->
        In (non_https file_path line_num
              (slice_to MAX_URL_DISPLAY_LENGTH (group 2 m) ++ "..."))
           (issues (check_link file_path line_num v m)))
  /\ issues (_check_accessibility file_path content ["![](http://example.com)" : str] v)
     = issues v
       ++ [ {| file_path := file_path; line_number := 1;
               severity := warning; category := accessibility;
               message := "Image without alt text: " ++ "http://example.com"
                          ++ " (bad for screen readers)" |} ]
  /\ (forall url,
        (length url <= MAX_URL_DISPLAY_LENGTH ->
           image_message url
           = "Image without alt text: " ++ url ++ " (bad for screen readers)")
        /\ (MAX_URL_DISPLAY_LENGTH < length url ->
              image_message url
              = "Image without alt text: " ++ firstn MAX_URL_DISPLAY_LENGTH url
                ++ "..." ++ " (bad for screen readers)")).
Proof.
  split; [vm_compute; lia|]. split; [eval_rule v|].
  split; [intros; now apply check_link_http_message|].
  split; [eval_rule v|].
  apply image_message_capped.
Qed.

End ContentSpec.

(* ================================================================= *)
(** ** Statements on the environment validator *)

Module EnvSpec.

Import Env.

Lemma check_command_ok w cmd version_arg required :
  exists probe,
    check_command w cmd version_arg required = Ok probe
    /\ found probe = which w cmd
    /\ (which w cmd = false ->
          version probe = None
          /\ message probe = Some ("Not found in PATH" : str))
    /\ (forall e, which w cmd = true ->
          subprocess_run w [cmd; version_arg] None = Raise e ->
          version probe = Some ("Unknown" : str)
          /\ message probe = Some ("Found but version check failed: " ++ e)).
Proof.
  unfold check_command.
  destruct (which w cmd) eqn:W.
  - destruct (subprocess_run w [cmd; version_arg] None) as [r|e] eqn:R;
      cbn [bind try_except]; eexists; (split; [reflexivity|]);
      cbn [found version message];
      (split; [reflexivity|]); (split; [discriminate|]).
    + intros e _ H. discriminate H.
    + intros e' _ H. inversion H; subst. split; reflexivity.
  - cbn [bind]. eexists. split; [reflexivity|]. cbn [found version message].
    split; [reflexivity|]. split; [intros _; split; reflexivity|].
    intros e H. discriminate H.
Qed.

(** C5, as the code has it.  [check_command] never raises: it returns a
    probe for every machine and every command.  The probe has
    [found = True] exactly when the command is on the path.  When the
    command is on the path and its version command times out or fails to
    launch, the probe keeps [found = True], with the version ["Unknown"] and
    the message [Found but version check failed: ...]; [found = False], with
    the message [Not found in PATH], is for a command that is not on the
    path. *)
Theorem C5_check_command_never_raises w cmd version_arg required :
  exists probe,
    check_command w cmd version_arg required = Ok probe
    /\ found probe = which w cmd
    /\ (which w cmd = false ->
          version probe = None
          /\ message probe = Some ("Not found in PATH" : str))
    /\ (forall e, which w cmd = true ->
          subprocess_run w [cmd; version_arg] None = Raise e ->
          found probe = true
          /\ version probe = Some ("Unknown" : str)
          /\ message probe = Some ("Found but version check failed: " ++ e)).
Proof.
  destruct (check_command_ok w cmd version_arg required)
    as (probe & E & F & N & T).
  exists probe. repeat split; try tauto.
  - congruence.
  - now apply (T e).
  - now apply (T e).
Qed.

(** C5 as stated fails: when the version command of a tool on the path
    times out, the probe says [found = True]. *)
Lemma C5_timeout_is_reported_found :
  subprocess_run hugo_hangs ["hugo" : str; "version" : str] None
  = Raise "Command timed out after 5 seconds"
  /\ ~ (forall probe,
          check_command hugo_hangs "hugo" "version" true = Ok probe ->
          found probe = false).
Proof.
  split; [reflexivity|]. intros H.
  specialize (H _ eq_refl). discriminate H.
Qed.

Lemma C5_check_command_never_raises_witness :
  exists probe,
    check_command hugo_hangs "hugo" "version" true = Ok probe
    /\ found probe = true
    /\ message probe
       = Some ("Found but version check failed: Command timed out after 5 seconds" : str).
Proof.
  destruct (C5_check_command_never_raises hugo_hangs "hugo" "version" true)
    as (probe & E & _ & _ & T).
  exists probe. split; [exact E|].
  destruct (T "Command timed out after 5 seconds" eq_refl eq_refl)
    as (F & _ & M).
  split; [exact F | exact M].
Defined.

(** *** Every check returns *)

Lemma check_hugo_version_ok w :
  exists r, check_hugo_version w = Ok r
            /\ (which w "hugo" = false -> r = (false, "Hugo not installed" : str)).
Proof.
  unfold check_hugo_version.
  destruct (check_command_ok w "hugo" "version" true) as (p & E & F & _).
  rewrite E. cbn [bind]. rewrite F.
  destruct (which w "hugo"); cbn [negb].
  - destruct (_ && _); eexists; split; try reflexivity; discriminate.
  - eexists; split; reflexivity.
Qed.

Lemma check_python_version_ok w : exists r, check_python_version w = Ok r.
Proof.
  unfold check_python_version.
  destruct (subprocess_run w _ None) as [r|e]; cbn [bind try_except].
  - destruct (Re.search _ _) as [m|]; [|cbn [try_except]; eauto].
    destruct (int (Re.group 1 m)); cbn [bind try_except]; [|eauto].
    destruct (int (Re.group 2 m)); cbn [bind try_except]; [|eauto].
    destruct (_ && _); cbn [try_except]; eauto.
  - eauto.
Qed.

Lemma check_git_config_ok w v : exists r, check_git_config w v = Ok r.
Proof.
  unfold check_git_config.
  destruct (subprocess_run w git_rev_parse (Some (repo_root v))) as [r|e];
    cbn [bind try_except]; [|eauto].
  destruct (negb _); cbn [try_except]; [eauto|].
  destruct (subprocess_run w git_user_name None) as [n|e];
    cbn [bind try_except]; [|eauto].
  destruct (subprocess_run w git_user_email None) as [m|e];
    cbn [bind try_except]; [|eauto].
  match goal with
  | |- context [if ?b then _ else _] => destruct b
  end; cbn [try_except]; eexists; reflexivity.
Qed.

Lemma check_go_modules_ok w v : exists r, check_go_modules w v = Ok r.
Proof.
  unfold check_go_modules.
  destruct (negb (files w _)); [eexists; reflexivity|].
  destruct (negb (files w _));
    [eexists; reflexivity|].
  destruct (subprocess_run w _ _) as [r|e]; cbn [bind try_except];
    [|eexists; reflexivity].
  destruct (Z.eqb _ _); cbn [try_except]; eexists; reflexivity.
Qed.

(** The run of [validate]: every check returns, and the result is the
    conjunction of the five required checks. *)
Lemma validate_ok w v :
  exists hugo go py git gc,
    check_hugo_version w = Ok hugo
    /\ check_command w "go" "version" true = Ok go
    /\ check_python_version w = Ok py
    /\ check_command w "git" "version" true = Ok git
    /\ check_git_config w (append git (append go v)) = Ok gc
    /\ validate w v
       = Ok (fst hugo && found go && fst py && found git && fst gc,
             append git (append go v)).
Proof.
  destruct (check_hugo_version_ok w) as ((h1, h2) & Eh & _).
  destruct (check_command_ok w "go" "version" true) as (go & Ego & _).
  destruct (check_python_version_ok w) as ((p1, p2) & Ep).
  destruct (check_command_ok w "git" "version" true) as (git & Egit & _).
  destruct (check_git_config_ok w (append git (append go v)))
    as ((g1, g2) & Eg).
  destruct (check_go_modules_ok w (append git (append go v)))
    as ((m1, m2) & Em).
  destruct (check_command_ok w "make" "--version" false) as (mk & Emk & _).
  exists (h1, h2), go, (p1, p2), git, (g1, g2).
  repeat (split; [assumption|]).
  unfold validate. rewrite Eh. cbn [bind]. rewrite Ego. cbn [bind].
  rewrite Ep. cbn [bind]. rewrite Egit. cbn [bind]. rewrite Eg. cbn [bind].
  destruct (found go); [rewrite Em|]; cbn [bind]; rewrite Emk; reflexivity.
Qed.

Lemma main_of_validate root w ok v :
  validate w (init root) = Ok (ok, v) -> main root w = exit_code ok.
Proof. unfold main. now intros ->. Qed.

(** C8.  When [hugo] is not on the path, its probe has [found = False],
    the Hugo check fails with [Hugo not installed], and the run fails with
    exit code 1.  In a git repository where [user.name] is set and
    [user.email] is not (the query for it fails or prints nothing), the Git
    Configuration check fails with
    [Git user.name or user.email not configured], and the run fails with
    exit code 1. *)
Theorem C8_missing_hugo_or_email root w :
  (which w "hugo" = false ->
     (exists probe, check_command w "hugo" "version" true = Ok probe
                    /\ found probe = false)
     /\ check_hugo_version w = Ok (false, "Hugo not installed" : str)
     /\ (exists v, validate w (init root) = Ok (false, v))
     /\ main root w = 1%Z)
  /\
  (forall repo name email,
     subprocess_run w git_rev_parse (Some root) = Ok repo ->
     returncode repo = 0%Z ->
     subprocess_run w git_user_name None = Ok name ->
     returncode name = 0%Z -> strip (stdout name) <> [] ->
     subprocess_run w git_user_email None = Ok email ->
     returncode email <> 0%Z \/ strip (stdout email) = [] ->
     (forall v, repo_root v = root ->
        check_git_config w v
        = Ok (false, "Git user.name or user.email not configured" : str))
     /\ (exists v, validate w (init root) = Ok (false, v))
     /\ main root w = 1%Z).
Proof.
  split.
  - intros W.
    destruct (check_command_ok w "hugo" "version" true) as (p & Ep & Fp & _).
    destruct (check_hugo_version_ok w) as (r & Er & Hr).
    specialize (Hr W). subst r.
    destruct (validate_ok w (init root))
      as (hugo & go & py & git & gc & Eh & _ & _ & _ & _ & Ev).
    rewrite Er in Eh. inversion Eh; subst hugo. cbn [fst andb] in Ev.
    split; [exists p; split; [exact Ep | congruence]|].
    split; [exact Er|]. split; [eauto|].
    now rewrite (main_of_validate _ _ _ _ Ev).
  - intros repo name email Rr Rc Rn Nc Nn Re Em.
    assert (G : forall v, repo_root v = root ->
              check_git_config w v
              = Ok (false, "Git user.name or user.email not configured" : str)).
    { intros v Hv. unfold check_git_config. rewrite Hv, Rr. cbn [bind].
      rewrite Rc. cbn [Z.eqb negb]. rewrite Rn, Re. cbn [bind].
      rewrite Nc. cbn [Z.eqb andb].
      assert (X : Z.eqb (returncode email) 0
                  && negb (is_empty (strip (stdout email))) = false).
      { destruct Em as [Em|Em].
        - apply Z.eqb_neq in Em. now rewrite Em.
        - rewrite Em. apply andb_false_r. }
      rewrite X, andb_false_r. reflexivity. }
    split; [exact G|].
    destruct (validate_ok w (init root))
      as (hugo & go & py & git & gc & _ & _ & _ & _ & Eg & Ev).
    rewrite G in Eg by reflexivity. inversion Eg; subst gc.
    cbn [fst] in Ev. rewrite andb_false_r in Ev.
    split; [eauto|].
    now rewrite (main_of_validate _ _ _ _ Ev).
Qed.

Lemma C8_missing_hugo_or_email_witness :
  check_hugo_version without_hugo = Ok (false, "Hugo not installed" : str)
  /\ main "/repo" without_hugo = 1%Z
  /\ check_git_config without_email (init "/repo")
     = Ok (false, "Git user.name or user.email not configured" : str)
  /\ main "/repo" without_email = 1%Z.
Proof.
  destruct (C8_missing_hugo_or_email "/repo" without_hugo) as (H & _).
  destruct H as (_ & H1 & _ & H2); [reflexivity|].
  destruct (C8_missing_hugo_or_email "/repo" without_email) as (_ & H).
  destruct (H (printed 0 ".git") (printed 0 "Ada") (printed 1 []))
    as (H3 & _ & H4);
    try reflexivity; try discriminate; [left; discriminate|].
  split; [exact H1|]. split; [exact H2|]. split; [|exact H4].
  apply H3. reflexivity.
Defined.

End EnvSpec.

(* ================================================================= *)
(** ** Further statements on the configuration validator *)

Module ConfigMore.

Import Re ReFacts Config ConfigFacts ConfigReport MenuText MenuFacts.

(** The test of [validate_defensive_defaults] succeeds exactly on the
    texts that enable the field. *)
Lemma defensive_present_iff field content :
  search (defensive_pattern field) content <> None
  <-> flag_enabled field content.
Proof.
  split.
  - destruct (search _ _) as [m|] eqn:S; [intros _ | now intros H; elim H].
    apply search_sound in S. destruct S as (pre & post0 & -> & St & M).
    rewrite St in M. clear St. unfold defensive_pattern in M.
    apply matches_cat_inv in M. destruct M as (s1 & M1 & M).
    apply matches_bol_inv in M1. destruct M1 as (-> & B).
    apply at_bol_line_start in B.
    apply matches_cat_inv in M. destruct M as (s2 & M2 & M).
    apply matches_star_chr_inv in M2. destruct M2 as (ws1 & p1 & F1 & R1 & ->).
    apply matches_cat_inv in M. destruct M as (s3 & M3 & M).
    apply matches_Lit_inv in M3. destruct M3 as (p2 & R2 & ->).
    apply matches_cat_inv in M. destruct M as (s4 & M4 & M).
    apply matches_star_chr_inv in M4. destruct M4 as (ws2 & p3 & F2 & R3 & ->).
    apply matches_cat_inv in M. destruct M as (s5 & M5 & M).
    apply matches_chr_inv in M5. destruct M5 as (c & p4 & R4 & E & ->).
    apply Ascii.eqb_eq in E; subst c.
    apply matches_cat_inv in M. destruct M as (s6 & M6 & M).
    apply matches_star_chr_inv in M6. destruct M6 as (ws3 & p5 & F3 & R5 & ->).
    apply matches_Lit_inv in M. destruct M as (p6 & R6 & _).
    simpl in *. exists pre, ws1, ws2, ws3, p6.
    subst. repeat split; auto.
  - intros (pre & ws1 & ws2 & ws3 & post & -> & LS & F1 & F2 & F3).
    eapply search_complete.
    unfold defensive_pattern.
    eapply M_cat; [apply M_bol; now apply at_bol_line_start|].
    eapply M_cat; [apply (matches_star_chr_intro true isspace ws1);
                   [exact F1 | reflexivity]|].
    eapply M_cat; [apply (matches_Lit_intro field); reflexivity|].
    eapply M_cat; [apply (matches_star_chr_intro true isspace ws2);
                   [exact F2 | reflexivity]|].
    eapply M_cat; [apply M_chr; [reflexivity | reflexivity]|].
    eapply M_cat; [apply (matches_star_chr_intro true isspace ws3);
                   [exact F3 | reflexivity]|].
    apply (matches_Lit_intro "true" post). reflexivity.
Qed.

Lemma required_search_cases field content :
  (search (required_pattern field) content = None /\ ~ field_assigned field content)
  \/ (search (required_pattern field) content <> None /\ field_assigned field content).
Proof.
  destruct (search (required_pattern field) content) eqn:E.
  - right. split; [discriminate|]. apply required_present_iff.
    rewrite E. discriminate.
  - left. split; [reflexivity|]. intros H. apply required_present_iff in H.
    now elim H.
Qed.

Lemma defensive_search_cases field content :
  (search (defensive_pattern field) content = None /\ ~ flag_enabled field content)
  \/ (search (defensive_pattern field) content <> None /\ flag_enabled field content).
Proof.
  destruct (search (defensive_pattern field) content) eqn:E.
  - right. split; [discriminate|]. apply defensive_present_iff.
    rewrite E. discriminate.
  - left. split; [reflexivity|]. intros H. apply defensive_present_iff in H.
    now elim H.
Qed.

Lemma no_unmet_error_iff content :
  existsb unmet_error (findings content) = false
  <-> field_assigned "baseURL" content /\ field_assigned "title" content
      /\ field_assigned "languageCode" content.
Proof.
  split.
  - intros H.
    assert (A : forall fr, In fr required_fields ->
                field_assigned (fst fr) content).
    { intros (f, reason) Hin. cbn [fst].
      destruct (required_search_cases f content) as [(S & _)|(_ & A)];
        [|exact A].
      exfalso.
      assert (X : existsb unmet_error (findings content) = true).
      { apply existsb_exists. exists (required_finding content (f, reason)).
        split.
        - unfold findings. apply in_app_iff. left. now apply in_map.
        - unfold required_finding. rewrite S. reflexivity. }
      congruence. }
    unfold required_fields in A.
    pose proof (A _ (or_introl eq_refl)) as A1.
    pose proof (A _ (or_intror (or_introl eq_refl))) as A2.
    pose proof (A _ (or_intror (or_intror (or_introl eq_refl)))) as A3.
    exact (conj A1 (conj A2 A3)).
  - intros (B & T & L). apply required_present_iff in B, T, L.
    destruct (existsb _ _) eqn:E; [|reflexivity].
    apply existsb_exists in E. destruct E as (r & Hin & U).
    assert (Er : severity r = error).
    { unfold unmet_error in U. apply andb_true_iff in U. destruct U as (U & _).
      simpl in U. destruct (severity r); simpl in U; congruence. }
    apply findings_errors in Hin; [|exact Er].
    destruct Hin as (fr & Hfr & Hs & _).
    unfold required_fields in Hfr. simpl in Hfr.
    destruct Hfr as [<-|[<-|[<-|[]]]]; cbn [fst] in Hs;
      [now elim B | now elim T | now elim L].
Qed.

(** X1.  On a configuration text that loads, the exit code is 0 exactly
    when the text assigns the three required fields [baseURL], [title] and
    [languageCode] and every menu weight it declares has at most 4300
    digits, and it is 1 otherwise; what the other rules find, and the values
    of the weights, have no say. *)
Theorem X1_exit_code_is_required_fields repo_root argv fs content :
  path_exists fs (target_path repo_root argv) = Ok true ->
  read_text fs (target_path repo_root argv) = Ok content ->
  let passes :=
    field_assigned "baseURL" content /\ field_assigned "title" content
    /\ field_assigned "languageCode" content
    /\ Forall within_limit (declared_weights content) in
  (snd (main repo_root argv fs) = 0%Z <-> passes)
  /\ (snd (main repo_root argv fs) = 1%Z <-> ~ passes).
Proof.
  intros He Hr passes. subst passes.
  rewrite (main_loaded _ _ _ _ He Hr). cbn [snd].
  destruct (menu_weights_cases content) as [(F & _)|(F & _)].
  - rewrite (ConfigSpec.loaded_status_within _ F).
    rewrite exit_code_pass_iff, exit_code_fail_iff, negb_true_iff,
      negb_false_iff.
    pose proof (no_unmet_error_iff content) as (N1 & N2).
    destruct (existsb unmet_error (findings content)).
    + assert (X : ~ (field_assigned "baseURL" content
                     /\ field_assigned "title" content
                     /\ field_assigned "languageCode" content))
        by (intros A; discriminate (N2 A)).
      split; split; try discriminate; try reflexivity; tauto.
    + destruct (N1 eq_refl) as (B & T & L).
      split; split; try discriminate; try reflexivity; tauto.
  - rewrite (ConfigSpec.loaded_status_beyond _ F).
    split; split; try discriminate; try tauto.
Qed.

Lemma X1_exit_code_is_required_fields_witness :
  snd (main "/repo" [] (one_file "/repo/config.toml" config_without_baseURL))
  = 1%Z
  /\ snd (main "/repo" [] (one_file "/repo/config.toml" config_with_overlong_weight))
     = 1%Z
  /\ snd (main "/repo" [] (one_file "/repo/config.toml" (config_with_weights "1" "2" "2")))
     = 0%Z.
Proof.
  split; [|split].
  - destruct (one_file_loads "/repo/config.toml" config_without_baseURL)
      as (E1 & E2).
    destruct (X1_exit_code_is_required_fields "/repo" [] _ _ E1 E2) as (_ & H).
    apply H. intros (B & _). apply required_present_iff in B. apply B.
    vm_compute. reflexivity.
  - destruct (one_file_loads "/repo/config.toml" config_with_overlong_weight)
      as (E1 & E2).
    destruct (X1_exit_code_is_required_fields "/repo" [] _ _ E1 E2) as (_ & H).
    apply H. intros (_ & _ & _ & F).
    apply all_within_limit_iff in F. vm_compute in F. discriminate F.
  - destruct (one_file_loads "/repo/config.toml" (config_with_weights "1" "2" "2"))
      as (E1 & E2).
    destruct (X1_exit_code_is_required_fields "/repo" [] _ _ E1 E2) as (H & _).
    apply H.
    repeat split;
      try (apply required_present_iff; vm_compute; discriminate).
    apply all_within_limit_iff. vm_compute. reflexivity.
Defined.

(** *** Which rule a message or a severity comes from *)

Lemma in_has_message r l :
  In r l -> existsb (has_message (message r)) l = true.
Proof.
  intros H. apply existsb_exists. exists r. split; [exact H|].
  apply PyFacts.str_eqb_refl.
Qed.

Ltac each_message H :=
  unfold defensive_messages, defensive_checks in H; cbn in H;
  destruct H as [<-|[<-|[<-|[<-|[]]]]].

Lemma defensive_message_elsewhere content msg :
  In msg defensive_messages ->
  existsb (has_message msg) (map (required_finding content) required_fields) = false
  /\ existsb (has_message msg) (security_findings content) = false
  /\ existsb (has_message msg) (menu_findings content) = false
  /\ existsb (has_message msg) (accessibility_findings content) = false.
Proof.
  intros H. split; [|split; [|split]].
  - unfold required_fields, required_finding. cbn [map].
    repeat destruct (search _ _); each_message H; reflexivity.
  - unfold security_findings.
    destruct (contains _ _); destruct (_ && _); each_message H; reflexivity.
  - unfold menu_findings. destruct (menu_weights content) as [[|w ws]|e];
      [|destruct (Nat.eqb _ _)|]; each_message H; reflexivity.
  - unfold accessibility_findings.
    destruct (_ || _); destruct (search _ _); each_message H; reflexivity.
Qed.

Lemma defensive_message_source content msg r :
  In msg defensive_messages ->
  In r (findings content) -> message r = msg ->
  In r (map (defensive_finding content) defensive_checks).
Proof.
  intros Hm Hin E.
  destruct (defensive_message_elsewhere content msg Hm) as (A & B & C & D).
  unfold findings in Hin. rewrite !in_app_iff in Hin.
  destruct Hin as [H|[H|[H|[H|H]]]]; [| |exact H| |];
    try (destruct (menu_weights content); [|contradiction]);
    exfalso; apply in_has_message in H; rewrite E in H; congruence.
Qed.

(** X2.  On a configuration text that loads, each of the two defensive
    defaults gives exactly one of two findings: when the text enables the
    field (a line that starts with the field, [=] and the word [true]) the
    report has the passed [info] finding for it and not the warning;
    otherwise it has the warning, not passed, and not the [info]
    finding. *)
Theorem X2_defensive_defaults repo_root argv fs content field reason :
  path_exists fs (target_path repo_root argv) = Ok true ->
  read_text fs (target_path repo_root argv) = Ok content ->
  In (field, reason) defensive_checks ->
  let report := results (fst (main repo_root argv fs)) in
  (flag_enabled field content ->
     In (defensive_on field) report /\ ~ In (defensive_off field reason) report)
  /\ (~ flag_enabled field content ->
        In (defensive_off field reason) report
        /\ ~ In (defensive_on field) report).
Proof.
  intros He Hr Hf report. subst report.
  rewrite (main_loaded _ _ _ _ He Hr). cbn [fst results].
  assert (Hd : In (defensive_finding content (field, reason)) (findings content)).
  { unfold findings. rewrite !in_app_iff. right. right. left.
    now apply in_map. }
  assert (Hon : In (message (defensive_on field)) defensive_messages).
  { unfold defensive_messages. apply in_flat_map. exists (field, reason).
    split; [exact Hf | now left]. }
  assert (Hoff : In (message (defensive_off field reason)) defensive_messages).
  { unfold defensive_messages. apply in_flat_map. exists (field, reason).
    split; [exact Hf | right; now left]. }
  assert (Other : forall r, In r (map (defensive_finding content) defensive_checks) ->
            (message r = message (defensive_on field)
             \/ message r = message (defensive_off field reason)) ->
            r = defensive_finding content (field, reason)).
  { intros r Hr' Hm. unfold defensive_checks in Hr', Hf. cbn [map] in Hr'.
    unfold defensive_finding in *.
    destruct Hf as [Hf|[Hf|[]]]; inversion Hf; subst; clear Hf;
      destruct Hr' as [<-|[<-|[]]]; try reflexivity; exfalso;
      repeat destruct (search _ _); destruct Hm as [Hm|Hm];
      apply PyFacts.str_eqb_eq in Hm; vm_compute in Hm; discriminate Hm. }
  unfold defensive_finding in Hd, Other.
  destruct (defensive_search_cases field content) as [(S & N)|(S & Y)].
  - rewrite S in Hd, Other. split; [intros Y; now elim N|]. intros _.
    split; [exact Hd|]. intros Hin.
    pose proof (defensive_message_source _ _ _ Hon Hin eq_refl) as Hs.
    apply Other in Hs; [|now left]. discriminate Hs.
  - destruct (search (defensive_pattern field) content) eqn:E; [|now elim S].
    split; [|intros N; now elim N]. intros _.
    split; [exact Hd|]. intros Hin.
    pose proof (defensive_message_source _ _ _ Hoff Hin eq_refl) as Hs.
    apply Other in Hs; [|now right]. discriminate Hs.
Qed.

Lemma X2_defensive_defaults_witness :
  let report := results (fst (main "/repo" []
                  (one_file "/repo/config.toml" (config_with_weights "1" "2" "3")))) in
  In (defensive_off "enableGitInfo"
        "Git info provides useful metadata for debugging") report
  /\ ~ In (defensive_on "enableGitInfo") report.
Proof.
  destruct (one_file_loads "/repo/config.toml" (config_with_weights "1" "2" "3"))
    as (E1 & E2).
  destruct (X2_defensive_defaults "/repo" [] _ _
              "enableGitInfo" "Git info provides useful metadata for debugging"
              E1 E2) as (_ & H).
  - right. now left.
  - apply H. intros A. apply defensive_present_iff in A. apply A.
    vm_compute. reflexivity.
Defined.

(** X3.  On a configuration text that loads, in a run that no exception
    escapes from: whenever the required-field check for [languageCode]
    passes, the accessibility rule records its language finding as well, so
    the two rules never disagree in that direction.  When the menu rule
    raises, the accessibility rule is not reached and the finding is
    absent. *)
Theorem X3_language_rules_agree repo_root argv fs content :
  path_exists fs (target_path repo_root argv) = Ok true ->
  read_text fs (target_path repo_root argv) = Ok content ->
  (uncaught repo_root argv fs = None ->
   field_assigned "languageCode" content ->
   In language_present (results (fst (main repo_root argv fs))))
  /\ (forall e, uncaught repo_root argv fs = Some e ->
        ~ In language_present (results (fst (main repo_root argv fs)))).
Proof.
  intros He Hr. rewrite (main_loaded _ _ _ _ He Hr). cbn [fst results].
  rewrite (uncaught_loaded _ _ _ _ He Hr). split.
  - intros U A.
    assert (C : contains "languageCode" content = true).
    { destruct A as (pre & ws1 & ws2 & ws3 & value & post & -> & _).
      apply PyFacts.contains_app. exists (pre ++ ws1). eexists.
      rewrite <- app_assoc. reflexivity. }
    unfold findings, accessibility_findings. rewrite C. cbn [orb].
    destruct (menu_weights content); [|discriminate U].
    rewrite !in_app_iff. right. right. right. right. left. now left.
  - intros e U Hin.
    assert (X : existsb (has_message (message language_present))
                  (findings content) = true)
      by (apply existsb_exists; exists language_present; split;
          [exact Hin | reflexivity]).
    revert X. unfold findings. rewrite !existsb_app.
    assert (R : existsb (has_message (message language_present))
                  (map (required_finding content) required_fields) = false).
    { unfold required_fields, required_finding. cbn [map].
      repeat destruct (search _ _); reflexivity. }
    assert (S : existsb (has_message (message language_present))
                  (security_findings content) = false).
    { unfold security_findings.
      destruct (contains _ _); destruct (_ && _); reflexivity. }
    assert (D : existsb (has_message (message language_present))
                  (map (defensive_finding content) defensive_checks) = false).
    { unfold defensive_checks, defensive_finding. cbn [map].
      repeat destruct (search _ _); reflexivity. }
    rewrite R, S, D. unfold menu_findings.
    destruct (menu_weights content); [discriminate U|]. discriminate.
Qed.

Lemma X3_language_rules_agree_witness :
  In language_present
     (results (fst (main "/repo" []
        (one_file "/repo/config.toml" (config_with_weights "1" "2" "3")))))
  /\ ~ In language_present
       (results (fst (main "/repo" []
          (one_file "/repo/config.toml" config_with_overlong_weight)))).
Proof.
  split.
  - destruct (one_file_loads "/repo/config.toml" (config_with_weights "1" "2" "3"))
      as (E1 & E2).
    destruct (X3_language_rules_agree "/repo" [] _ _ E1 E2) as (H & _).
    apply H; [vm_compute; reflexivity|].
    apply required_present_iff. vm_compute. discriminate.
  - destruct (one_file_loads "/repo/config.toml" config_with_overlong_weight)
      as (E1 & E2).
    destruct (X3_language_rules_agree "/repo" [] _ _ E1 E2) as (_ & H).
    destruct (menu_weights_raises config_with_overlong_weight) as (e & W).
    { intros F. apply all_within_limit_iff in F.
      vm_compute in F. discriminate F. }
    apply (H e). rewrite (uncaught_loaded "/repo" [] _ _ E1 E2).
    now rewrite W.
Defined.

(** *** The report *)

Lemma nonempty_filter {A} (P : A -> bool) (l : list A) :
  nonempty (filter P l) = existsb P l.
Proof.
  induction l as [|a l IH]; simpl; [reflexivity|].
  destruct (P a); simpl; [reflexivity | exact IH].
Qed.

Lemma status_cases v :
  (status v = FAILED <-> existsb unmet_error (results v) = true)
  /\ (status v = PASSED <->
      existsb unmet_error (results v) = false
      /\ existsb unmet_warning (results v) = false).
Proof.
  unfold status, shown_errors, shown_warnings. rewrite !nonempty_filter.
  change (existsb (fun r => severity_eqb (severity r) error && negb (passed r))
            (results v))
    with (existsb unmet_error (results v)).
  change (existsb (fun r => severity_eqb (severity r) warning && negb (passed r))
            (results v))
    with (existsb unmet_warning (results v)).
  destruct (existsb unmet_error (results v));
    destruct (existsb unmet_warning (results v));
    split; split; try discriminate; try tauto; intros (? & ?); discriminate.
Qed.

Lemma no_unmet_warning_iff content :
  Forall within_limit (declared_weights content) ->
  (existsb unmet_warning (findings content) = false
   <-> flag_enabled "enableRobotsTXT" content
       /\ flag_enabled "enableGitInfo" content
       /\ NoDup (weight_values content)).
Proof.
  intros F. unfold findings. rewrite !existsb_app.
  rewrite (ConfigSpec.menu_findings_within _ F).
  rewrite (menu_weights_returns _ F).
  assert (R : existsb unmet_warning
                (map (required_finding content) required_fields) = false).
  { unfold required_fields, required_finding. cbn [map].
    repeat destruct (search _ _); reflexivity. }
  assert (S : existsb unmet_warning (security_findings content) = false).
  { unfold security_findings.
    destruct (contains _ _); destruct (_ && _); reflexivity. }
  assert (A : existsb unmet_warning (accessibility_findings content) = false).
  { unfold accessibility_findings.
    destruct (_ || _); destruct (search _ _); reflexivity. }
  rewrite R, S, A. cbn [orb]. rewrite orb_false_r.
  assert (M : existsb unmet_warning
                match weight_values content with
                | [] => []
                | _ :: _ =>
                    if Nat.eqb (length (weight_values content))
                               (len_set (weight_values content))
                    then [unique_weights_info (length (weight_values content))]
                    else [duplicate_weights_warning]
                end = false
              <-> NoDup (weight_values content)).
  { unfold len_set.
    destruct (weight_values content) as [|w ws] eqn:W.
    - split; [constructor | reflexivity].
    - destruct (Nat.eqb _ _) eqn:E.
      + apply Nat.eqb_eq in E. symmetry in E.
        apply PyFacts.nodup_length_iff in E. split; [now intros _ | reflexivity].
      + apply Nat.eqb_neq in E. split; [discriminate|].
        intros H. apply PyFacts.nodup_length_iff in H. exfalso. apply E.
        now rewrite H. }
  unfold defensive_checks, defensive_finding. cbn [map].
  destruct (defensive_search_cases "enableRobotsTXT" content) as [(S1 & N1)|(S1 & Y1)];
    destruct (defensive_search_cases "enableGitInfo" content) as [(S2 & N2)|(S2 & Y2)].
  - rewrite S1, S2. cbn. split; [discriminate | tauto].
  - rewrite S1. cbn. split; [discriminate | tauto].
  - rewrite S2. destruct (search (defensive_pattern "enableRobotsTXT") content);
      cbn; (split; [discriminate | tauto]).
  - destruct (search (defensive_pattern "enableRobotsTXT") content);
      [|now elim S1].
    destruct (search (defensive_pattern "enableGitInfo") content);
      [|now elim S2].
    cbn. rewrite M. tauto.
Qed.

(** X4.  When an exception escapes [main] no report is printed and the
    process ends with status 1.  Otherwise the report is printed, it has
    the status line, and the status line agrees with the exit code: it is
    [FAILED] exactly when the exit code is 1.  On a text that loads and
    whose declared menu weights have at most 4300 digits each, the status is
    [PASSED], without warnings, exactly when the text assigns the three
    required fields, enables both defensive defaults and declares no two
    menu weights of equal value. *)
Theorem X4_report_status repo_root argv fs :
  let run := main repo_root argv fs in
  (forall e, uncaught repo_root argv fs = Some e ->
     printed_report repo_root argv fs = None /\ snd run = 1%Z)
  /\ (uncaught repo_root argv fs = None ->
      printed_report repo_root argv fs = Some (print_report (fst run))
      /\ In (StatusLine (status (fst run))) (print_report (fst run))
      /\ (status (fst run) = FAILED <-> snd run = 1%Z))
  /\ (forall content,
        path_exists fs (target_path repo_root argv) = Ok true ->
        read_text fs (target_path repo_root argv) = Ok content ->
        Forall within_limit (declared_weights content) ->
        (status (fst run) = PASSED <->
         field_assigned "baseURL" content /\ field_assigned "title" content
         /\ field_assigned "languageCode" content
         /\ flag_enabled "enableRobotsTXT" content
         /\ flag_enabled "enableGitInfo" content
         /\ NoDup (weight_values content))).
Proof.
  intros run. subst run. split; [|split].
  - intros e U. unfold printed_report. rewrite U. split; [reflexivity|].
    exact (RunSpec.config_main_raises _ _ _ _ U).
  - intros U. unfold printed_report. rewrite U. split; [reflexivity|]. split.
    + unfold print_report. rewrite !in_app_iff. right. right. right. right.
      right. right. now left.
    + destruct (status_cases (fst (main repo_root argv fs))) as (F & _).
      rewrite F, (RunSpec.config_main_exit_code _ _ _ U), exit_code_fail_iff.
      now rewrite negb_false_iff.
  - intros content He Hr F.
    destruct (status_cases (fst (main repo_root argv fs))) as (_ & P).
    rewrite P, (main_loaded _ _ _ _ He Hr). cbn [fst results].
    rewrite no_unmet_error_iff, (no_unmet_warning_iff _ F). tauto.
Qed.

Lemma shown_unsafe_nowhere content :
  existsb (fun r => has_message (message unsafe_notice) r && shown r)
          (findings content) = false.
Proof.
  unfold findings. rewrite !existsb_app.
  assert (R : existsb (fun r => has_message (message unsafe_notice) r && shown r)
                (map (required_finding content) required_fields) = false).
  { unfold required_fields, required_finding. cbn [map].
    repeat destruct (search _ _); reflexivity. }
  assert (S : existsb (fun r => has_message (message unsafe_notice) r && shown r)
                (security_findings content) = false).
  { unfold security_findings.
    destruct (contains _ _); destruct (_ && _); reflexivity. }
  assert (D : existsb (fun r => has_message (message unsafe_notice) r && shown r)
                (map (defensive_finding content) defensive_checks) = false).
  { unfold defensive_checks, defensive_finding. cbn [map].
    repeat destruct (search _ _); reflexivity. }
  assert (M : existsb (fun r => has_message (message unsafe_notice) r && shown r)
                (menu_findings content) = false).
  { unfold menu_findings. destruct (menu_weights content) as [[|w ws]|e];
      [|destruct (Nat.eqb _ _)|]; reflexivity. }
  assert (A : existsb (fun r => has_message (message unsafe_notice) r && shown r)
                match menu_weights content with
                | Ok _ => accessibility_findings content
                | Raise _ => []
                end = false).
  { destruct (menu_weights content); [|reflexivity].
    unfold accessibility_findings.
    destruct (_ || _); destruct (search _ _); reflexivity. }
  now rewrite R, S, D, M, A.
Qed.

Lemma in_firstn {A} (x : A) : forall n l, In x (firstn n l) -> In x l.
Proof.
  induction n as [|n IH]; intros [|a l] H; simpl in H; try contradiction.
  destruct H as [->|H]; [now left | right; now apply IH].
Qed.

Lemma bullet_source v msg :
  In (Bullet msg) (print_report v) ->
  exists r, In r (results v) /\ message r = msg /\ shown r = true.
Proof.
  unfold print_report. rewrite !in_app_iff.
  assert (G : forall P l,
            In (Bullet msg) (map (fun r => Bullet (message r)) (filter P l)) ->
            exists r, In r l /\ message r = msg /\ P r = true).
  { intros P l H. apply in_map_iff in H. destruct H as (r & E & Hin).
    apply filter_In in Hin. inversion E. exists r. tauto. }
  intros [H|[H|[H|[H|H]]]].
  - destruct H as [H|[]]; discriminate H.
  - destruct (nonempty (shown_errors v)); [|contradiction].
    destruct H as [H|H]; [discriminate H|]. apply in_app_iff in H.
    destruct H as [H|[H|[]]]; [|discriminate H].
    apply G in H. destruct H as (r & Hin & E & P). exists r.
    unfold shown. rewrite P. auto.
  - destruct (nonempty (shown_warnings v)); [|contradiction].
    destruct H as [H|H]; [discriminate H|]. apply in_app_iff in H.
    destruct H as [H|[H|[]]]; [|discriminate H].
    apply G in H. destruct H as (r & Hin & E & P). exists r.
    unfold shown. rewrite P. rewrite orb_true_r. auto.
  - destruct (_ && _); [|contradiction].
    destruct H as [H|H]; [discriminate H|]. rewrite !in_app_iff in H.
    destruct H as [H|[H|[H|[]]]]; [| |discriminate H].
    + apply in_map_iff in H. destruct H as (r & E & Hin).
      apply in_firstn in Hin. apply filter_In in Hin. inversion E.
      exists r. unfold shown. destruct Hin as (Hin & P). rewrite P.
      rewrite orb_true_r. auto.
    + destruct (_ <? _)%nat; [destruct H as [H|[]]; discriminate H|contradiction].
  - simpl in H. decompose [or] H; try discriminate; contradiction.
Qed.

(** X5.  A finding is printed only if it is an unmet error, an unmet
    warning or a passed [info] finding.  So the notice that
    [unsafe = true] is set, which is recorded as a passed warning, is never
    printed: on a text that loads and contains [unsafe = true] the finding
    is in the results, and no line of the report carries its message. *)
Theorem X5_unsafe_notice_is_never_printed repo_root argv fs content :
  path_exists fs (target_path repo_root argv) = Ok true ->
  read_text fs (target_path repo_root argv) = Ok content ->
  let v := fst (main repo_root argv fs) in
  (forall msg, In (Bullet msg) (print_report v) ->
     exists r, In r (results v) /\ message r = msg /\ shown r = true)
  /\ (contains "unsafe = true" content = true -> In unsafe_notice (results v))
  /\ ~ In (Bullet (message unsafe_notice)) (print_report v).
Proof.
  intros He Hr v. subst v. split; [|split].
  - intros msg. apply bullet_source.
  - rewrite (main_loaded _ _ _ _ He Hr). cbn [fst results]. intros C.
    unfold findings, security_findings. rewrite C.
    rewrite !in_app_iff. right. left. left. now left.
  - intros H. apply bullet_source in H. destruct H as (r & Hin & E & S).
    rewrite (main_loaded _ _ _ _ He Hr) in Hin. cbn [fst results] in Hin.
    assert (X : existsb (fun r => has_message (message unsafe_notice) r && shown r)
                  (findings content) = true).
    { apply existsb_exists. exists r. split; [exact Hin|].
      unfold has_message. rewrite E, S. now rewrite PyFacts.str_eqb_refl. }
    rewrite shown_unsafe_nowhere in X. discriminate X.
Qed.

Lemma X5_unsafe_notice_is_never_printed_witness :
  let text := config_with_weights "1" "2" "3" ++ "unsafe = true" in
  let v := fst (main "/repo" [] (one_file "/repo/config.toml" text)) in
  In unsafe_notice (results v)
  /\ ~ In (Bullet (message unsafe_notice)) (print_report v).
Proof.
  intros text v. subst v.
  destruct (one_file_loads "/repo/config.toml" text) as (E1 & E2).
  destruct (X5_unsafe_notice_is_never_printed "/repo" [] _ _ E1 E2)
    as (_ & H1 & H2).
  split; [apply H1; vm_compute; reflexivity | exact H2].
Defined.

Lemma X4_report_status_witness :
  let duplicated := one_file "/repo/config.toml" (config_with_weights "1" "2" "2") in
  let overlong := one_file "/repo/config.toml" config_with_overlong_weight in
  status (fst (main "/repo" [] duplicated)) <> PASSED
  /\ printed_report "/repo" [] overlong = None
  /\ snd (main "/repo" [] overlong) = 1%Z.
Proof.
  cbv zeta. split.
  - destruct (one_file_loads "/repo/config.toml" (config_with_weights "1" "2" "2"))
      as (E1 & E2).
    destruct (X4_report_status "/repo" []
                (one_file "/repo/config.toml" (config_with_weights "1" "2" "2")))
      as (_ & _ & H).
    intros P. apply (H _ E1 E2) in P;
      [|apply all_within_limit_iff; vm_compute; reflexivity].
    destruct P as (_ & _ & _ & _ & _ & ND).
    assert (W : weight_values (config_with_weights "1" "2" "2") = [1; 2; 2]%N)
      by (vm_compute; reflexivity).
    rewrite W in ND. inversion ND as [|? ? _ ND1].
    inversion ND1 as [|? ? N2 _]. apply N2. now left.
  - destruct (one_file_loads "/repo/config.toml" config_with_overlong_weight)
      as (E1 & E2).
    destruct (X4_report_status "/repo" []
                (one_file "/repo/config.toml" config_with_overlong_weight))
      as (H & _).
    destruct (menu_weights_raises config_with_overlong_weight) as (e & W).
    { intros F. apply all_within_limit_iff in F.
      vm_compute in F. discriminate F. }
    apply (H e). rewrite (uncaught_loaded "/repo" [] _ _ E1 E2).
    now rewrite W.
Defined.

End ConfigMore.

(* ================================================================= *)
(** ** Further statements on the content validator *)

Module ContentMore.

Import Re ReFacts Content ContentFacts ContentShapes.

(** *** Front matter *)

Lemma path_name_from_no_slash name : forall acc,
  no_slash name -> path_name_from acc name = acc ++ name.
Proof.
  induction name as [|c name IH]; intros acc H; simpl.
  - now rewrite app_nil_r.
  - inversion H; subst. rewrite H2. rewrite IH by assumption.
    now rewrite <- app_assoc.
Qed.

Lemma path_name_join dir name :
  no_slash name -> path_name (dir ++ "/" ++ name) = name.
Proof.
  intros H. unfold path_name. generalize (@nil ascii) as acc.
  induction dir as [|c dir IH]; intros acc; simpl.
  - now rewrite path_name_from_no_slash.
  - destruct (Ascii.eqb c "/"); apply IH.
Qed.

(** X6.  The front-matter rule looks at the start of the text and at the
    file name only.  For a file [dir/name]: a text that starts with [---]
    or [+++] gets no finding; a file named [_index.md] gets none, whatever
    its text and its directory; any other file gets exactly one warning, at
    line 1. *)
Theorem X6_frontmatter_rule dir name content lines v :
  no_slash name ->
  let file_path := dir ++ "/" ++ name in
  let exempt := startswith "---" content || startswith "+++" content
                || str_eqb name "_index.md" in
  issues (_check_frontmatter file_path content lines v)
  = issues v ++ (if exempt then [] else [no_frontmatter file_path]).
Proof.
  intros H file_path exempt. subst file_path exempt.
  unfold _check_frontmatter. rewrite (path_name_join dir name H).
  destruct (startswith "---" content || startswith "+++" content);
    cbn [negb orb].
  - symmetry. apply app_nil_r.
  - destruct (str_eqb name "_index.md"); cbn [negb];
      [symmetry; apply app_nil_r | reflexivity].
Qed.

Lemma X6_frontmatter_rule_witness :
  issues (_check_frontmatter ("content/docs" ++ "/" ++ "_index.md")
            "# Welcome" ["# Welcome" : str] (init "content")) = []
  /\ issues (_check_frontmatter ("content/docs" ++ "/" ++ "page.md")
               "# Welcome" ["# Welcome" : str] (init "content"))
     = [no_frontmatter ("content/docs" ++ "/" ++ "page.md")].
Proof.
  split.
  - rewrite (X6_frontmatter_rule "content/docs" "_index.md");
      [reflexivity | repeat constructor].
  - rewrite (X6_frontmatter_rule "content/docs" "page.md");
      [reflexivity | repeat constructor].
Defined.

(** *** Code blocks *)

Lemma code_loop fp : forall l inb start v,
  issues (snd (fold_left (check_code_line fp) l (inb, start, v)))
  = issues v ++ code_findings fp inb l.
Proof.
  induction l as [|(n, line) l IH]; intros inb start v.
  - simpl. now rewrite app_nil_r.
  - cbn [fold_left]. unfold code_findings. cbn [filter snd].
    unfold check_code_line at 2. fold (is_fence line).
    destruct (is_fence line) eqn:F.
    + destruct inb; cbn [negb openers].
      * rewrite IH. reflexivity.
      * fold (fence_lang line). cbn [filter snd fst].
        destruct (is_empty (fence_lang line)); rewrite IH.
        -- cbn [map fst]. unfold append; cbn [issues].
           now rewrite <- app_assoc.
        -- reflexivity.
    + rewrite IH. reflexivity.
Qed.

Lemma openers_length {A} (l : list A) : forall inb,
  2 * length (openers inb l) <= length l + (if inb then 0 else 1).
Proof.
  induction l as [|a l IH]; intros inb; simpl.
  - destruct inb; lia.
  - destruct inb; simpl.
    + pose proof (IH false) as X. simpl in X. lia.
    + pose proof (IH true) as X. simpl in X. lia.
Qed.

(** X7.  The code-block rule treats the fence lines (the lines that start
    with three backquotes once stripped) as opening and closing in turn,
    whatever follows the backquotes: the first, third, fifth fence line
    open a block.  Its findings are exactly the opening fence lines with no
    language after the backquotes, so a closing fence is never reported,
    and there is at most one finding for every two fence lines. *)
Theorem X7_code_fences_alternate file_path content lines v :
  let fences := filter (fun nl => is_fence (snd nl)) (enumerate 1 lines) in
  let added :=
    map (fun nl => no_language file_path (fst nl))
        (filter (fun nl => is_empty (fence_lang (snd nl)))
                (openers false fences)) in
  issues (_check_code_blocks file_path content lines v) = issues v ++ added
  /\ 2 * length added <= length fences + 1.
Proof.
  intros fences added. split.
  - unfold _check_code_blocks. apply code_loop.
  - subst added. rewrite length_map.
    pose proof (openers_length fences false) as H. simpl in H.
    pose proof (filter_length_le (fun nl => is_empty (fence_lang (snd nl)))
                  (openers false fences)).
    lia.
Qed.

(** *** Link counters *)

Lemma link_effect_one fp n v m : link_effect v (check_link fp n v m) [m].
Proof.
  unfold link_effect, check_link, counted_external, counted_internal,
    skipped, external. cbn [filter].
  destruct (startswith "#" (group 2 m) || startswith "mailto:" (group 2 m));
    cbn [negb andb length].
  - repeat split; lia.
  - destruct (startswith "http://" (group 2 m) || startswith "https://" (group 2 m));
      cbn [negb andb length];
      repeat match goal with
             | |- context [if ?b then _ else _] => destruct b
             end;
      cbn; rewrite ?length_app; cbn; repeat split; lia.
Qed.

Lemma link_effect_trans v1 v2 v3 ms1 ms2 :
  link_effect v1 v2 ms1 -> link_effect v2 v3 ms2 ->
  link_effect v1 v3 (ms1 ++ ms2).
Proof.
  unfold link_effect. rewrite !filter_app, !length_app.
  intros (A1 & B1 & C1 & D1 & E1) (A2 & B2 & C2 & D2 & E2).
  repeat split; lia.
Qed.

Lemma link_effect_refl v : link_effect v v [].
Proof. unfold link_effect; simpl. repeat split; lia. Qed.

Lemma link_effect_line fp n : forall ms v,
  link_effect v (fold_left (check_link fp n) ms v) ms.
Proof.
  induction ms as [|m ms IH]; intros v; simpl.
  - apply link_effect_refl.
  - apply (link_effect_trans v (check_link fp n v m) _ [m] ms).
    + apply link_effect_one.
    + apply IH.
Qed.

(** X8.  The link rule counts every match of the link pattern at most
    once: a match whose URL starts with [#] or [mailto:] is not counted and
    gets no finding; any other match is counted as external when its URL
    starts with [http://] or [https://] and as internal otherwise, and gets
    at most two findings.  The other counters are left alone. *)
Theorem X8_link_counters file_path content lines v :
  let v' := _check_links file_path content lines v in
  let ms := link_matches lines in
  external_links_found (stats v')
  = external_links_found (stats v) + length (filter counted_external ms)
  /\ internal_links_found (stats v')
     = internal_links_found (stats v) + length (filter counted_internal ms)
  /\ images_found (stats v') = images_found (stats v)
  /\ files_checked (stats v') = files_checked (stats v)
  /\ length (issues v) <= length (issues v')
     <= length (issues v)
        + 2 * length (filter (fun m => negb (skipped m)) ms).
Proof.
  cbv zeta. unfold _check_links, link_matches.
  generalize (enumerate 1 lines) as l. intros l. revert v.
  induction l as [|(n, line) l IH]; intros v.
  - apply link_effect_refl.
  - cbn [fold_left flat_map fst snd].
    eapply link_effect_trans; [apply link_effect_line | apply IH].
Qed.

(** *** Heading lines *)

Lemma matches_times_chr_inv p n : forall st st',
  matches (Times n (Chr p)) st st' ->
  exists w post, length w = n /\ Forall (fun c => p c = true) w
                 /\ rest st = w ++ post /\ st' = jump w post st.
Proof.
  induction n as [|n IH]; intros st st' M; simpl in M.
  - apply matches_eps_inv in M; subst. exists [], (rest st).
    rewrite jump_nil. auto.
  - apply matches_cat_inv in M. destruct M as (s1 & M1 & M2).
    apply matches_chr_inv in M1. destruct M1 as (c & tl & R & P & ->).
    apply IH in M2. destruct M2 as (w & post & L & F & R2 & ->).
    simpl in R2. exists (c :: w), post. simpl. rewrite R, R2, L.
    repeat split; auto. rewrite step_jump. apply (jump_jump [c] w).
Qed.

Lemma matches_upto_chr_inv p n : forall st st',
  matches (Upto n (Chr p)) st st' ->
  exists w post, length w <= n /\ Forall (fun c => p c = true) w
                 /\ rest st = w ++ post /\ st' = jump w post st.
Proof.
  induction n as [|n IH]; intros st st' M; simpl in M.
  - apply matches_eps_inv in M; subst. exists [], (rest st).
    rewrite jump_nil. auto.
  - apply matches_alt_inv in M. destruct M as [M|M].
    + apply matches_cat_inv in M. destruct M as (s1 & M1 & M2).
      apply matches_chr_inv in M1. destruct M1 as (c & tl & R & P & ->).
      apply IH in M2. destruct M2 as (w & post & L & F & R2 & ->).
      simpl in R2. exists (c :: w), post. simpl. rewrite R, R2.
      repeat split; auto; [lia|]. rewrite step_jump. apply (jump_jump [c] w).
    + apply matches_eps_inv in M; subst. exists [], (rest st).
      rewrite jump_nil. simpl. repeat split; auto. lia.
Qed.

Lemma matches_times_chr_intro p w : forall post st,
  Forall (fun c => p c = true) w -> rest st = w ++ post ->
  matches (Times (length w) (Chr p)) st (jump w post st).
Proof.
  induction w as [|c w IH]; intros post st F R; simpl in *.
  - rewrite <- R, jump_nil. constructor.
  - inversion F; subst.
    apply M_cat with (st1 := step c (w ++ post) st).
    + now constructor.
    + rewrite step_jump.
      replace (jump (c :: w) post st)
        with (jump w post (jump [c] (w ++ post) st))
        by apply (jump_jump [c] w).
      now apply IH.
Qed.

Lemma matches_upto_chr_intro p w : forall n post st,
  length w <= n -> Forall (fun c => p c = true) w -> rest st = w ++ post ->
  matches (Upto n (Chr p)) st (jump w post st).
Proof.
  induction w as [|c w IH]; intros n post st L F R; simpl in *.
  - rewrite <- R, jump_nil. destruct n; simpl; [constructor|].
    apply M_alt_r. constructor.
  - destruct n as [|n]; [lia|]. inversion F; subst. simpl.
    apply M_alt_l. apply M_cat with (st1 := step c (w ++ post) st).
    + now constructor.
    + rewrite step_jump.
      replace (jump (c :: w) post st)
        with (jump w post (jump [c] (w ++ post) st))
        by apply (jump_jump [c] w).
      apply IH; [lia | assumption | reflexivity].
Qed.

Lemma at_eol_plain st :
  at_eol false st = true <-> rest st = [] \/ rest st = [NL].
Proof.
  unfold at_eol. destruct (rest st) as [|c [|d tl]]; simpl; split;
    try tauto; try discriminate.
  - rewrite andb_true_r. intros H. apply Ascii.eqb_eq in H. subst. now right.
  - intros [H|H]; [discriminate|]. inversion H; subst. reflexivity.
  - rewrite andb_false_r. discriminate.
  - intros [H|H]; discriminate.
Qed.

Lemma heading_match_shape line st' :
  matches heading_pattern (MState [] line []) st' ->
  exists hashes ws text tail,
    line = hashes ++ ws ++ text ++ tail
    /\ 1 <= length hashes <= 6
    /\ Forall (fun c => Ascii.eqb "#" c = true) hashes
    /\ ws <> [] /\ Forall (fun c => isspace c = true) ws
    /\ text <> [] /\ Forall (fun c => negb (Ascii.eqb c NL) = true) text
    /\ (tail = [] \/ tail = [NL])
    /\ lookup_group 1 (groups st') = hashes.
Proof.
  intros M. unfold heading_pattern in M.
  apply matches_cat_inv in M. destruct M as (s1 & M1 & M).
  apply matches_bol_inv in M1. destruct M1 as (-> & _).
  apply matches_cat_inv in M. destruct M as (s2 & M2 & M).
  apply matches_grp_inv in M2. destruct M2 as (s2' & MR & ->).
  unfold Repeat in MR. apply matches_cat_inv in MR.
  destruct MR as (t & T1 & T2).
  apply matches_times_chr_inv in T1. destruct T1 as (w1 & p1 & L1 & F1 & R1 & ->).
  apply matches_upto_chr_inv in T2. destruct T2 as (w2 & p2 & L2 & F2 & R2 & ->).
  rewrite jump_jump in M.
  apply matches_cat_inv in M. destruct M as (s3 & M3 & M).
  apply matches_plus_chr_inv in M3.
  destruct M3 as (ws & p3 & NW & FW & R3 & ->).
  apply matches_cat_inv in M. destruct M as (s4 & M4 & M).
  apply matches_grp_inv in M4. destruct M4 as (s4' & MD & ->).
  apply matches_plus_chr_inv in MD.
  destruct MD as (text & p4 & NT & FT & R4 & ->).
  apply matches_eol_inv in M. destruct M as (-> & E).
  apply at_eol_plain in E.
  cbn [rest jump set_group] in *.
  exists (w1 ++ w2), ws, text, p4.
  split; [subst; now rewrite <- !app_assoc|].
  split; [rewrite length_app; simpl in L2; lia|].
  split; [apply Forall_app; split; assumption|].
  repeat (split; [assumption|]).
  cbn [groups lookup_group Nat.eqb]. apply span_jump.
Qed.

Lemma heading_shape_matches line :
  heading_shape line -> exists st', matches heading_pattern (MState [] line []) st'.
Proof.
  intros (hashes & ws & text & tail & -> & L & FH & NW & FW & NT & FT & E).
  destruct hashes as [|h hashes]; [simpl in L; lia|].
  inversion FH; subst.
  eexists. unfold heading_pattern.
  eapply M_cat; [apply M_bol; reflexivity|].
  eapply M_cat.
  { apply M_grp. unfold Repeat.
    eapply M_cat.
    - apply (matches_times_chr_intro (Ascii.eqb "#") [h]);
        [now constructor | reflexivity].
    - apply (matches_upto_chr_intro (Ascii.eqb "#") hashes);
        [simpl in L; simpl; lia | assumption | reflexivity]. }
  eapply M_cat.
  { apply (matches_plus_chr_intro isspace ws); [assumption | assumption |].
    reflexivity. }
  eapply M_cat.
  { apply M_grp.
    apply (matches_plus_chr_intro _ text tail); [assumption | assumption |].
    reflexivity. }
  apply M_eol. apply at_eol_plain. exact E.
Qed.

(** X9.  Which lines are headings for the script, and of which level: a
    line is a heading exactly when it is one to six [#], then white space,
    then a text (a final newline may follow); the level is then the number
    of [#] before the white space.  So [#Title], with no space, and a line
    that starts with seven [#] are not headings. *)
Theorem X9_heading_lines line :
  (match_ heading_pattern line <> None <-> heading_shape line)
  /\ (forall m, match_ heading_pattern line = Some m ->
        exists c tl,
          line = group 1 m ++ c :: tl /\ isspace c = true
          /\ Forall (fun x => Ascii.eqb "#" x = true) (group 1 m)
          /\ 1 <= length (group 1 m) <= 6).
Proof.
  split; [split|].
  - unfold match_. destruct (run _ _ Some) as [e|] eqn:E;
      [intros _ | now intros H; elim H].
    apply run_sound in E. destruct E as (st' & M & _).
    apply heading_match_shape in M.
    destruct M
      as (hashes & ws & text & tail & E1 & L & FH & NW & FW & NT & FT & TL & _).
    exists hashes, ws, text, tail.
    exact (conj E1 (conj L (conj FH (conj NW (conj FW (conj NT (conj FT TL))))))).
  - intros H. apply heading_shape_matches in H. destruct H as (st' & M).
    unfold match_. destruct (run _ _ Some) eqn:E; [discriminate|].
    exfalso. eapply run_complete; [exact M | | exact E]. discriminate.
  - intros m H. unfold match_ in H.
    destruct (run _ _ Some) as [e|] eqn:E; [|discriminate].
    inversion H; subst; clear H.
    apply run_sound in E. destruct E as (st' & M & E). inversion E; subst.
    apply heading_match_shape in M.
    destruct M as (hashes & ws & text & tail & -> & L & FH & NW & FW & _ & _ & _ & G).
    unfold group. cbn [m_end]. rewrite G.
    destruct ws as [|c ws]; [now elim NW|]. inversion FW; subst.
    exists c, (ws ++ text ++ tail). repeat split; auto; lia.
Qed.

Lemma X9_heading_lines_examples :
  match_ heading_pattern "#Title" = None
  /\ match_ heading_pattern "####### Title" = None
  /\ match_ heading_pattern "# " = None
  /\ (exists m, match_ heading_pattern "## Title" = Some m
                /\ length (group 1 m) = 2).
Proof.
  repeat split; try (vm_compute; reflexivity).
  eexists. split; vm_compute; reflexivity.
Qed.

(** *** The findings of a file, rule by rule *)

Lemma fold_left_issues {A} (f : ContentValidator -> A -> ContentValidator)
  (g : A -> list ContentIssue) :
  (forall v a, issues (f v a) = issues v ++ g a) ->
  forall l v, issues (fold_left f l v) = issues v ++ flat_map g l.
Proof.
  intros H l; induction l as [|a l IH]; intros v; simpl.
  - now rewrite app_nil_r.
  - rewrite IH, H. now rewrite <- app_assoc.
Qed.

Lemma check_link_issues fp n v m :
  issues (check_link fp n v m) = issues v ++ link_findings fp n m.
Proof.
  unfold check_link, link_findings, skipped, external, non_https,
    empty_link_text.
  destruct (startswith "#" (group 2 m) || startswith "mailto:" (group 2 m));
    [symmetry; apply app_nil_r|].
  destruct (startswith "http://" (group 2 m) || startswith "https://" (group 2 m)).
  - destruct (startswith "http://" (group 2 m));
      destruct (is_empty (strip (group 1 m)));
      cbn [issues append with_stats app]; rewrite <- ?app_assoc;
      rewrite ?app_nil_r; reflexivity.
  - destruct (negb (startswith "/" (group 2 m))
              && negb (startswith "../" (group 2 m))); cbn [andb];
      [destruct (contains "." (group 2 m))|];
      destruct (is_empty (strip (group 1 m)));
      cbn [issues append with_stats app]; rewrite <- ?app_assoc;
      rewrite ?app_nil_r; reflexivity.
Qed.

Lemma check_image_issues fp n v m :
  issues (check_image fp n v m) = issues v ++ image_findings fp n m.
Proof.
  unfold check_image, image_findings, missing_alt.
  destruct (is_empty (strip (group 1 m))); cbn [issues append with_stats];
    [reflexivity | symmetry; apply app_nil_r].
Qed.

Lemma _check_links_issues fp c lines v :
  issues (_check_links fp c lines v)
  = issues v ++ on_lines lines link_pattern (link_findings fp).
Proof.
  unfold _check_links, on_lines.
  apply (fold_left_issues
           (fun v nl => fold_left (check_link fp (fst nl))
                          (finditer link_pattern (snd nl)) v)).
  intros v0 nl. apply fold_left_issues. intros. apply check_link_issues.
Qed.

Lemma _check_accessibility_issues fp c lines v :
  issues (_check_accessibility fp c lines v)
  = issues v ++ on_lines lines image_pattern (image_findings fp).
Proof.
  unfold _check_accessibility, on_lines.
  apply (fold_left_issues
           (fun v nl => fold_left (check_image fp (fst nl))
                          (finditer image_pattern (snd nl)) v)).
  intros v0 nl. apply fold_left_issues. intros. apply check_image_issues.
Qed.

Lemma _check_frontmatter_issues fp c lines v :
  issues (_check_frontmatter fp c lines v)
  = issues v ++ frontmatter_findings fp c.
Proof.
  unfold _check_frontmatter, frontmatter_findings.
  destruct (negb (startswith "---" c || startswith "+++" c)); cbn [andb];
    [|symmetry; apply app_nil_r].
  destruct (negb (str_eqb (path_name fp) "_index.md"));
    [reflexivity | symmetry; apply app_nil_r].
Qed.

Lemma validate_file_issues fs v f :
  issues (validate_file fs v f) = issues v ++ file_findings fs f.
Proof.
  unfold validate_file, file_findings.
  destruct (read_text fs f) as [content|e]; [|reflexivity].
  rewrite _check_accessibility_issues.
  unfold _check_code_blocks. rewrite code_loop.
  rewrite ContentSpec._check_headings_issues.
  rewrite _check_links_issues, _check_frontmatter_issues.
  cbn [issues with_stats]. now rewrite <- !app_assoc.
Qed.

(** X14.  The report of a run is the concatenation, in the order of the
    directory listing, of the findings of each file, and the findings of a
    file depend on its path and on what reading it yields, not on the other
    files.  Within a file the findings come in the order of the rules
    (front matter, links, headings, code blocks, images), not by severity
    or by line.  When the listing raises, no file is read and the report is
    empty. *)
Theorem X14_report_is_per_file repo_root argv fs :
  let files :=
    match find_markdown_files fs (init (target_dir repo_root argv)) with
    | Ok listed => listed
    | Raise _ => []
    end in
  issues (fst (main repo_root argv fs)) = flat_map (file_findings fs) files.
Proof.
  cbv zeta. unfold main, validate_all.
  destruct (find_markdown_files fs _) as [[|f files]|e] eqn:E;
    [reflexivity| |reflexivity].
  cbn [fst].
  apply (fold_left_issues (validate_file fs) (file_findings fs)
           (validate_file_issues fs) (f :: files)).
Qed.

Lemma image_counter fp n : forall ms v,
  images_found (stats (fold_left (check_image fp n) ms v))
  = images_found (stats v) + length ms.
Proof.
  induction ms as [|m ms IH]; intros v; simpl; [lia|].
  rewrite IH. unfold check_image.
  destruct (is_empty _); cbn [stats append with_stats count_image images_found];
    lia.
Qed.

(** X15.  The image rule counts every match of the image pattern and
    reports exactly those whose alternative text is empty or white space: a
    finding is added for a line and a match on it exactly when the text in
    brackets strips to nothing, and it is a warning of category
    [accessibility] at that line. *)
Theorem X15_image_rule file_path content lines v :
  let v' := _check_accessibility file_path content lines v in
  let ms := flat_map (fun nl => finditer image_pattern (snd nl))
                     (enumerate 1 lines) in
  images_found (stats v') = images_found (stats v) + length ms
  /\ exists added,
       issues v' = issues v ++ added
       /\ forall i, In i added <->
            exists line_num line m,
              In (line_num, line) (enumerate 1 lines)
              /\ In m (finditer image_pattern line)
              /\ strip (group 1 m) = []
              /\ i = missing_alt file_path line_num (group 2 m).
Proof.
  cbv zeta. split.
  - unfold _check_accessibility. generalize (enumerate 1 lines) as l.
    intros l. revert v. induction l as [|(n, line) l IH]; intros v.
    + simpl. lia.
    + cbn [fold_left flat_map fst snd]. rewrite IH, image_counter.
      rewrite length_app. lia.
  - exists (on_lines lines image_pattern (image_findings file_path)).
    split; [apply _check_accessibility_issues|].
    intros i. unfold on_lines. rewrite in_flat_map. split.
    + intros ((n, line) & Hnl & Hi). cbn [fst snd] in Hi.
      apply in_flat_map in Hi. destruct Hi as (m & Hm & Hi).
      unfold image_findings in Hi.
      destruct (strip (group 1 m)) eqn:S; simpl in Hi; [|contradiction].
      destruct Hi as [<-|[]]. exists n, line, m. auto.
    + intros (n & line & m & Hnl & Hm & S & ->).
      exists (n, line). split; [exact Hnl|]. cbn [fst snd].
      apply in_flat_map. exists m. split; [exact Hm|].
      unfold image_findings. rewrite S. now left.
Qed.

Lemma X15_image_rule_examples :
  issues (_check_accessibility "a.md" [] ["![](img.png)" : str] (init "content"))
  = [missing_alt "a.md" 1 "img.png"]
  /\ issues (_check_accessibility "a.md" [] ["![a cat](img.png)" : str]
               (init "content")) = [].
Proof. split; vm_compute; reflexivity. Qed.

End ContentMore.

(* ================================================================= *)
(** ** Further statements on the environment validator *)

Module EnvMore.

Import Re ReFacts Env EnvSpec EnvWorlds.

(** The version pattern on an output that starts with [Python M.m]. *)
Lemma python_match d1 d2 tail :
  is_digit_str d1 -> is_digit_str d2 -> not_digit_first tail ->
  exists m, search python_pattern ("Python " ++ d1 ++ "." ++ d2 ++ tail) = Some m
            /\ group 1 m = d1 /\ group 2 m = d2.
Proof.
  intros (N1 & F1) (N2 & F2) T.
  eexists. split.
  - apply search_from_first. unfold python_pattern. cbn [run].
    rewrite (run_Lit "Python " (d1 ++ "." ++ d2 ++ tail)) by reflexivity.
    eapply (run_plus_greedy isdigit _ _ d1 ("." ++ d2 ++ tail));
      [exact N1 | exact F1 | reflexivity | reflexivity |].
    cbn [rest jump set_group Ch run chars list_ascii_of_string app].
    rewrite Ascii.eqb_refl.
    eapply (run_plus_greedy isdigit _ _ d2 tail);
      [exact N2 | exact F2 | | reflexivity | reflexivity].
    destruct tail; [exact I | exact T].
  - unfold group. cbn [m_end set_group groups lookup_group Nat.eqb jump step].
    rewrite !span_jump. split; reflexivity.
Qed.

(** X10.  The Python check reads the version off the standard output.
    When the output starts with [Python M.m] and neither number has more
    than 4300 digits, the check passes exactly when [M >= 3] and [m >= 7],
    each on its own: so Python 4.0 is turned down.  When one of the numbers
    has more digits, [int] raises and the check fails with
    [Python check failed:] and the text of the exception.  When the output
    is empty, as with an interpreter that prints its version on the error
    stream, the check passes. *)
Theorem X10_python_threshold w r :
  subprocess_run w ["python3" : str; "--version" : str] None = Ok r ->
  (forall d1 d2 tail,
     strip (stdout r) = "Python " ++ d1 ++ "." ++ d2 ++ tail ->
     is_digit_str d1 -> is_digit_str d2 -> not_digit_first tail ->
     (within_limit d1 -> within_limit d2 ->
      let major := int_of_digits d1 in
      let minor := int_of_digits d2 in
      check_python_version w
      = Ok (if (3 <=? major)%N && (7 <=? minor)%N
            then (true, "Python " ++ str_of_N major ++ "." ++ str_of_N minor
                        ++ " (meets requirement: 3.7+)")
            else (false, "Python " ++ str_of_N major ++ "." ++ str_of_N minor
                         ++ " found but 3.7+ required")))
     /\ (~ within_limit d1 ->
         check_python_version w
         = Ok (false, "Python check failed: " ++ too_many_digits (length d1)))
     /\ (within_limit d1 -> ~ within_limit d2 ->
         check_python_version w
         = Ok (false, "Python check failed: " ++ too_many_digits (length d2))))
  /\ (strip (stdout r) = [] -> check_python_version w = Ok (true, [])).
Proof.
  intros R. split.
  - intros d1 d2 tail S D1 D2 T.
    destruct (python_match d1 d2 tail D1 D2 T) as (m & Sm & G1 & G2).
    unfold check_python_version. rewrite R. cbn [bind]. rewrite S, Sm, G1, G2.
    split; [|split].
    + intros L1 L2. cbv zeta.
      rewrite (PyFacts.int_within _ L1), (PyFacts.int_within _ L2).
      cbn [bind]. destruct (_ && _); reflexivity.
    + intros L1. rewrite (PyFacts.int_beyond _ L1). reflexivity.
    + intros L1 L2.
      rewrite (PyFacts.int_within _ L1), (PyFacts.int_beyond _ L2).
      reflexivity.
  - intros S. unfold check_python_version. rewrite R. cbn [bind]. rewrite S.
    reflexivity.
Qed.

Lemma X10_python_threshold_witness :
  check_python_version (python_prints ("Python 4.0" ++ [NL]))
  = Ok (false, "Python 4.0 found but 3.7+ required" : str)
  /\ check_python_version (python_prints "Python 3.11.2")
     = Ok (true, "Python 3.11 (meets requirement: 3.7+)" : str)
  /\ check_python_version (python_prints ("Python 3." ++ repeat "1"%char 4301))
     = Ok (false, "Python check failed: " ++ too_many_digits 4301).
Proof.
  assert (Small : forall d, (length d <= 2)%nat -> within_limit d).
  { intros d H. unfold within_limit, MAX_STR_DIGITS. lia. }
  assert (Digits : forall d, d <> [] -> forallb isdigit d = true ->
                             is_digit_str d).
  { intros d NE H. split; [exact NE|]. apply Forall_forall.
    now apply forallb_forall. }
  split; [|split].
  - destruct (X10_python_threshold (python_prints ("Python 4.0" ++ [NL]))
                (printed 0 ("Python 4.0" ++ [NL])) eq_refl) as (H & _).
    assert (St : strip (stdout (printed 0 ("Python 4.0" ++ [NL])))
                 = "Python " ++ "4" ++ "." ++ "0" ++ []) by reflexivity.
    destruct (H "4" "0" [] St) as (H1 & _);
      [apply Digits; [discriminate | reflexivity]
      |apply Digits; [discriminate | reflexivity]
      |exact I|].
    rewrite H1; [reflexivity | apply Small; simpl; lia | apply Small; simpl; lia].
  - destruct (X10_python_threshold (python_prints "Python 3.11.2")
                (printed 0 "Python 3.11.2") eq_refl) as (H & _).
    assert (St : strip (stdout (printed 0 "Python 3.11.2"))
                 = "Python " ++ "3" ++ "." ++ "11" ++ ".2") by reflexivity.
    destruct (H "3" "11" ".2" St) as (H1 & _);
      [apply Digits; [discriminate | reflexivity]
      |apply Digits; [discriminate | reflexivity]
      |reflexivity|].
    rewrite H1; [reflexivity | apply Small; simpl; lia | apply Small; simpl; lia].
  - assert (R : subprocess_run
                  (python_prints ("Python 3." ++ repeat "1"%char 4301))
                  ["python3" : str; "--version" : str] None
                = Ok (printed 0 ("Python 3." ++ repeat "1"%char 4301)))
      by reflexivity.
    destruct (X10_python_threshold _ _ R) as (H & _).
    assert (St : strip (stdout (printed 0 ("Python 3." ++ repeat "1"%char 4301)))
                 = "Python " ++ "3" ++ "." ++ repeat "1"%char 4301 ++ [])
      by (vm_compute; reflexivity).
    destruct (H "3" (repeat "1"%char 4301) [] St) as (_ & _ & H3);
      [apply Digits; [discriminate | reflexivity]
      |apply Digits; [discriminate | vm_compute; reflexivity]
      |exact I|].
    rewrite H3.
    + replace (length (repeat "1"%char 4301)) with 4301
        by (symmetry; apply repeat_length).
      reflexivity.
    + apply Small. simpl. lia.
    + unfold within_limit, MAX_STR_DIGITS. rewrite repeat_length. lia.
Defined.

(** *** The verdict *)



(** X12.  A [hugo] that is on the path and whose version command times
    out or cannot be launched fails the Hugo check, with the version
    [Unknown], and with it the run.  When the command returns, the check
    passes exactly when the first line of its output, without regard to
    letter case, contains [extended]. *)
Theorem X12_hugo_check w :
  which w "hugo" = true ->
  (forall e, subprocess_run w ["hugo" : str; "version" : str] None = Raise e ->
     check_hugo_version w
     = Ok (false, "Hugo extended required but found: Unknown" : str)
     /\ forall root, main root w = 1%Z)
  /\ (forall r, subprocess_run w ["hugo" : str; "version" : str] None = Ok r ->
        let output := str_or (stdout r) (stderr r) in
        let version : str :=
          if is_empty output then "Unknown"
          else hd [] (split_nl (strip output)) in
        check_hugo_version w
        = Ok (if contains "extended" (lower version)
              then (true, "Hugo extended found: " ++ version)
              else (false, "Hugo extended required but found: " ++ version))).
Proof.
  intros W. split.
  - intros e R.
    assert (H : check_hugo_version w
                = Ok (false, "Hugo extended required but found: Unknown" : str)).
    { unfold check_hugo_version, check_command. rewrite W, R. reflexivity. }
    split; [exact H|]. intros root.
    destruct (validate_ok w (init root))
      as (hugo & go & py & git & gc & Eh & _ & _ & _ & _ & Ev).
    rewrite H in Eh. inversion Eh; subst hugo. cbn [fst andb] in Ev.
    now rewrite (main_of_validate _ _ _ _ Ev).
  - intros r R output version. subst output version.
    unfold check_hugo_version, check_command. rewrite W, R.
    cbn [bind try_except found version negb format_opt truthy].
    destruct (is_empty (str_or (stdout r) (stderr r))); cbn [negb].
    + reflexivity.
    + destruct (hd [] (split_nl (strip (str_or (stdout r) (stderr r)))))
        as [|c l] eqn:V; [reflexivity|].
      cbn [is_empty negb andb]. destruct (contains _ _); reflexivity.
Qed.

Lemma X12_hugo_check_witness :
  check_hugo_version hugo_hangs
  = Ok (false, "Hugo extended required but found: Unknown" : str)
  /\ main "/repo" hugo_hangs = 1%Z
  /\ check_hugo_version (hugo_prints "Hugo Static Site Generator v0.55.6/Extended linux/amd64")
     = Ok (true, "Hugo extended found: Hugo Static Site Generator v0.55.6/Extended linux/amd64" : str).
Proof.
  destruct (X12_hugo_check hugo_hangs eq_refl) as (H & _).
  destruct (H "Command timed out after 5 seconds" eq_refl) as (H1 & H2).
  split; [exact H1|]. split; [apply H2|].
  destruct (X12_hugo_check
              (hugo_prints "Hugo Static Site Generator v0.55.6/Extended linux/amd64")
              eq_refl) as (_ & H3).
  rewrite (H3 (printed 0 "Hugo Static Site Generator v0.55.6/Extended linux/amd64")
              eq_refl).
  vm_compute. reflexivity.
Defined.

(** X13.  The version a probe reports is one line: it never contains a
    newline, whatever the version command prints. *)
Theorem X13_version_is_one_line w cmd version_arg required probe v :
  check_command w cmd version_arg required = Ok probe ->
  version probe = Some v ->
  Forall (fun c => negb (Ascii.eqb c NL) = true) v.
Proof.
  unfold check_command. intros H V.
  destruct (which w cmd).
  - destruct (subprocess_run w [cmd; version_arg] None) as [r|e];
      cbn [bind try_except] in H; inversion H; subst; clear H;
      cbn [version] in V; inversion V; subst; clear V.
    + destruct (negb (is_empty (str_or (stdout r) (stderr r))));
        [|repeat constructor].
      destruct (split_nl (strip (str_or (stdout r) (stderr r))))
        as [|l0 ls] eqn:S; [constructor|].
      destruct (PyFacts.split_nl_lines _ _ _ S) as ((post & _ & _ & N) & _).
      exact N.
    + repeat constructor.
  - cbn [bind] in H. inversion H; subst. discriminate V.
Qed.

Lemma X13_version_is_one_line_witness :
  exists probe,
    check_command healthy "git" "version" true = Ok probe
    /\ version probe = Some ("git version 2.39.2" : str)
    /\ Forall (fun c => negb (Ascii.eqb c NL) = true) ("git version 2.39.2" : str).
Proof.
  eexists. split; [reflexivity|]. split; [reflexivity|].
  eapply (X13_version_is_one_line healthy "git" "version" true); reflexivity.
Defined.

End EnvMore.
